(** * keepalivego: the VRRP node and its raw-IP transport

    A shallow embedding of [src/vrrp/core.go] (the node state machine) and
    [src/ha_net.go] (the transport: packet read path, validation, send and
    the RFC 1071 checksum), followed by the properties proved about them.

    Conventions.
    - A Go fixed-width integer is a [Z] together with the wrap-around of its
      type written out ([uint8], [uint16], [uint32], [uint64], [int64]).
    - A [[]byte] is a [list byte]; [net.IP] is such a slice, [None] standing
      for the nil slice where the code tests for it.
    - A Go [(T, error)] result is a [result T].
    - [time.Time] is an instant in nanoseconds, [time.Duration] an [int64]
      count of nanoseconds.  Every call of [time.Now()] is an explicit
      argument of the function that makes it.
    - A pointer argument that the callee mutates (the advertisement given to
      [send], the receiver [n *Node]) is passed in and returned. *)

From Stdlib Require Import String.
From Stdlib Require Import ZArith List Bool Lia.
From Stdlib Require Import Strings.Byte.
Import ListNotations.
Local Open Scope Z_scope.

(* ================================================================== *)
(** * Machine integers, bytes, errors                                   *)
(* ================================================================== *)

Module Fixed.

Definition uint8  (z : Z) : Z := z mod 2 ^ 8.
Definition uint16 (z : Z) : Z := z mod 2 ^ 16.
Definition uint32 (z : Z) : Z := z mod 2 ^ 32.
Definition uint64 (z : Z) : Z := z mod 2 ^ 64.

(** Two's-complement wrap of a signed 64-bit result. *)
Definition int64 (z : Z) : Z := (z + 2 ^ 63) mod 2 ^ 64 - 2 ^ 63.

Definition maxInt64 : Z := 2 ^ 63 - 1.

(** The value of a byte, as [uint32(b)] or [int(b)] reads it. *)
Definition byteZ (b : byte) : Z := Z.of_N (Byte.to_N b).

(** The byte holding the low eight bits of [z]. *)
Definition toByte (z : Z) : byte :=
  match Byte.of_N (Z.to_N (uint8 z)) with
  | Some b => b
  | None => x00
  end.

End Fixed.
Import Fixed.

(** Go error values, as far as [receive] distinguishes them. *)
Inductive error : Type :=
| OpError (errno : option Z)   (* a *net.OpError; [Some e] when its Err is a syscall.Errno *)
| Errorf (msg : string)        (* built by fmt.Errorf *)
| OtherError (msg : string).   (* any other error of the runtime *)

Inductive result (A : Type) : Type :=
| Ok (a : A)
| Err (e : error).
Arguments Ok {A} a.
Arguments Err {A} e.

Definition bind {A B : Type} (r : result A) (k : A -> result B) : result B :=
match r with
| Ok a => k a
| Err e => Err e
end.

Declare Scope result_scope.
Delimit Scope result_scope with result.
Notation "x <- r ;; k" := (bind r (fun x => k))
(at level 61, r at next level, right associativity) : result_scope.

(* ================================================================== *)
(** * The packages keepalivego imports                                  *)
(* ================================================================== *)

(** [net.IP] and the three methods the transport calls, after Go's [net]
  package. *)
Module net.

Definition IP : Type := list byte.

Definition IPv4len : nat := 4.
Definition IPv6len : nat := 16.

Definition v4InV6Prefix : list byte :=
  [x00; x00; x00; x00; x00; x00; x00; x00; x00; x00; xff; xff].

Definition bytesEqual (a b : list byte) : bool :=
  if list_eq_dec Byte.byte_eq_dec a b then true else false.

Definition isZeros (p : list byte) : bool :=
  forallb (fun b => Byte.eqb b x00) p.

(** [ip.To4()]: the 4-byte form of an IPv4 or IPv4-mapped address. *)
Definition To4 (ip : IP) : option IP :=
  if Nat.eqb (length ip) IPv4len then Some ip
  else if Nat.eqb (length ip) IPv6len
          && isZeros (firstn 10 ip)
          && Byte.eqb (nth 10 ip x00) xff
          && Byte.eqb (nth 11 ip x00) xff
       then Some (skipn 12 ip)
       else None.

(** [ip.To16()]: the 16-byte form. *)
Definition To16 (ip : IP) : option IP :=
  if Nat.eqb (length ip) IPv4len then Some (v4InV6Prefix ++ ip)
  else if Nat.eqb (length ip) IPv6len then Some ip
  else None.

(** [ip.Equal(x)]: an IPv4 address equals its IPv4-mapped IPv6 form. *)
Definition Equal (ip x : IP) : bool :=
  if Nat.eqb (length ip) (length x) then bytesEqual ip x
  else if Nat.eqb (length ip) IPv4len && Nat.eqb (length x) IPv6len
       then bytesEqual (firstn 12 x) v4InV6Prefix && bytesEqual ip (skipn 12 x)
  else if Nat.eqb (length ip) IPv6len && Nat.eqb (length x) IPv4len
       then bytesEqual (firstn 12 ip) v4InV6Prefix && bytesEqual (skipn 12 ip) x
  else false.

(** [ip.IsMulticast()]. *)
Definition IsMulticast (ip : IP) : bool :=
  match To4 ip with
  | Some ip4 => Z.eqb (Z.land (Fixed.byteZ (nth 0 ip4 x00)) 240) 224
  | None => Nat.eqb (length ip) IPv6len && Byte.eqb (nth 0 ip x00) xff
  end.

End net.

(** The constants of [syscall] the transport names (Linux values). *)
Module syscall.
Definition ENOPROTOOPT : Z := 92.
Definition EPROTO : Z := 71.
Definition AF_INET : Z := 2.
Definition AF_INET6 : Z := 10.
Definition IPPROTO_IPV6 : Z := 41.
Definition IPV6_2292PKTINFO : Z := 2.
Definition IPV6_2292HOPLIMIT : Z := 8.

(** One parsed control message: [Header.Level], [Header.Type], [Data]. *)
Record SocketControlMessage : Type := {
  Level : Z;
  Type_ : Z;
  Data : list byte
}.

(** The socket options [ipConn] and the multicast joins name (Linux). *)
Definition IPPROTO_IP : Z := 0.
Definition IP_TTL : Z := 2.
Definition IP_MULTICAST_TTL : Z := 33.
Definition IP_MULTICAST_LOOP : Z := 34.
Definition IP_ADD_MEMBERSHIP : Z := 35.
Definition IPV6_UNICAST_HOPS : Z := 16.
Definition IPV6_MULTICAST_HOPS : Z := 18.
Definition IPV6_MULTICAST_LOOP : Z := 19.
Definition IPV6_JOIN_GROUP : Z := 20.
End syscall.

(** [time]: durations are nanoseconds. *)
Module time.
Definition Time : Type := Z.
Definition Duration : Type := Z.
Definition Nanosecond : Duration := 1.
Definition Millisecond : Duration := 1000000.
Definition Second : Duration := 1000000000.
End time.

(** The types of [github.com/google/seesaw/common/seesaw] the node uses.
  [HAState]'s zero value is [HAUnknown]; the counters of [HAStatus] are
  [uint64] (core.go stores [atomic.LoadUint64] results in them). *)
Module seesaw.

Inductive HAState : Type :=
| HAUnknown | HABackup | HADisabled | HAError | HAMaster | HAShutdown.

Definition HAState_eqb (a b : HAState) : bool :=
  match a, b with
  | HAUnknown, HAUnknown | HABackup, HABackup | HADisabled, HADisabled
  | HAError, HAError | HAMaster, HAMaster | HAShutdown, HAShutdown => true
  | _, _ => false
  end.

Record HAConfig : Type := {
  Priority : Z;   (* uint8 *)
  VRID : Z        (* uint8 *)
}.

Record HAStatus : Type := {
  State : HAState;
  Since : time.Time;
  Sent : Z;
  Received : Z;
  ReceivedQueued : Z;
  Transitions : Z
}.

Definition zeroStatus : HAStatus :=
  {| State := HAUnknown; Since := 0; Sent := 0; Received := 0;
     ReceivedQueued := 0; Transitions := 0 |}.

End seesaw.

(* ================================================================== *)
(** * src/vrrp/core.go                                                  *)
(* ================================================================== *)

Module vrrp.

(** [type Advertisement struct]: four [uint8] fields, two [uint16]. *)
Record Advertisement : Type := {
  VersionType : Z;
  VRID : Z;
  Priority : Z;
  CountIPAddrs : Z;
  AdvertInt : Z;
  Checksum : Z
}.

Definition vrrpAdvertSize : nat := 8.
Definition vrrpAdvertType : Z := 1.
Definition vrrpVersion : Z := 3.
Definition vrrpVersionType : Z :=
  Z.lor (uint8 (Z.shiftl vrrpVersion 4)) vrrpAdvertType.

(** The value of each field is within its type. *)
Definition wfAdvertisement (a : Advertisement) : Prop :=
  0 <= VersionType a < 2 ^ 8 /\ 0 <= VRID a < 2 ^ 8 /\
  0 <= Priority a < 2 ^ 8 /\ 0 <= CountIPAddrs a < 2 ^ 8 /\
  0 <= AdvertInt a < 2 ^ 16 /\ 0 <= Checksum a < 2 ^ 16.

(** [advert.Checksum = c]. *)
Definition setChecksum (c : Z) (a : Advertisement) : Advertisement :=
  {| VersionType := VersionType a; VRID := VRID a; Priority := Priority a;
     CountIPAddrs := CountIPAddrs a; AdvertInt := AdvertInt a;
     Checksum := c |}.

(** [advert.Priority = p]. *)
Definition setPriority (p : Z) (a : Advertisement) : Advertisement :=
  {| VersionType := VersionType a; VRID := VRID a; Priority := p;
     CountIPAddrs := CountIPAddrs a; AdvertInt := AdvertInt a;
     Checksum := Checksum a |}.

(** ** Channels

    A buffered channel is its queue, oldest value first, and its capacity.
    The unbuffered channels of [Node] ([errChannel], [stopSenderChannel],
    [shutdownChannel]) hold no value: a send on one of them is an effect of
    the sending function, a receive is the [select] case that fired. *)
Record chan (A : Type) : Type := {
  queue : list A;
  capacity : nat
}.
Arguments queue {A} c.
Arguments capacity {A} c.

(** [make(chan T, n)]. *)
Definition makeChan {A : Type} (n : nat) : chan A :=
  {| queue := []; capacity := n |}.

(** [len(ch)]. *)
Definition chanLen {A : Type} (ch : chan A) : nat := length (queue ch).

(** [select { case ch <- a: ... default: ... }]: [Some] of the channel with
    [a] queued, or [None] when the buffer is full and [default] runs. *)
Definition trySend {A : Type} (ch : chan A) (a : A) : option (chan A) :=
  if Nat.ltb (chanLen ch) (capacity ch)
  then Some {| queue := queue ch ++ [a]; capacity := capacity ch |}
  else None.

(** [a := <-ch] when a value is queued. *)
Definition tryRecv {A : Type} (ch : chan A) : option (A * chan A) :=
  match queue ch with
  | [] => None
  | a :: rest => Some (a, {| queue := rest; capacity := capacity ch |})
  end.

(** ** Node *)

Record NodeConfig : Type := {
  HAConfig : seesaw.HAConfig;
  ConfigCheckInterval : time.Duration;
  ConfigCheckMaxFailures : Z;
  ConfigCheckRetryDelay : time.Duration;
  MasterAdvertInterval : time.Duration;
  Preempt : bool;
  StatusReportInterval : time.Duration;
  StatusReportMaxFailures : Z;
  StatusReportRetryDelay : time.Duration
}.

Record Node : Type := {
  config : NodeConfig;
  haStatus : seesaw.HAStatus;
  sendCount : Z;
  receiveCount : Z;
  masterDownInterval : time.Duration;
  lastMasterAdvertTime : time.Time;
  recvChannel : chan Advertisement
}.

(** [n.VRID] and [n.Priority], promoted from the embedded [HAConfig]. *)
Definition nodeVRID (n : Node) : Z := seesaw.VRID (HAConfig (config n)).
Definition nodePriority (n : Node) : Z := seesaw.Priority (HAConfig (config n)).

Definition withStatus (st : seesaw.HAStatus) (n : Node) : Node :=
  {| config := config n; haStatus := st; sendCount := sendCount n;
     receiveCount := receiveCount n; masterDownInterval := masterDownInterval n;
     lastMasterAdvertTime := lastMasterAdvertTime n;
     recvChannel := recvChannel n |}.

Definition withMasterDownInterval (d : time.Duration) (n : Node) : Node :=
  {| config := config n; haStatus := haStatus n; sendCount := sendCount n;
     receiveCount := receiveCount n; masterDownInterval := d;
     lastMasterAdvertTime := lastMasterAdvertTime n;
     recvChannel := recvChannel n |}.

Definition withLastMasterAdvertTime (t : time.Time) (n : Node) : Node :=
  {| config := config n; haStatus := haStatus n; sendCount := sendCount n;
     receiveCount := receiveCount n; masterDownInterval := masterDownInterval n;
     lastMasterAdvertTime := t;
     recvChannel := recvChannel n |}.

Definition withRecvChannel (ch : chan Advertisement) (n : Node) : Node :=
  {| config := config n; haStatus := haStatus n; sendCount := sendCount n;
     receiveCount := receiveCount n; masterDownInterval := masterDownInterval n;
     lastMasterAdvertTime := lastMasterAdvertTime n;
     recvChannel := ch |}.

Definition withReceiveCount (c : Z) (n : Node) : Node :=
  {| config := config n; haStatus := haStatus n; sendCount := sendCount n;
     receiveCount := c; masterDownInterval := masterDownInterval n;
     lastMasterAdvertTime := lastMasterAdvertTime n;
     recvChannel := recvChannel n |}.

(** [resetMasterDownInterval]: every operation is on [time.Duration], an
    [int64]; [/] truncates towards zero. *)
Definition skewTimeOf (priority : Z) (advertInterval : time.Duration) : time.Duration :=
  Z.quot (int64 (int64 (256 - priority) * advertInterval)) 256.

Definition masterDownIntervalOf (priority : Z) (advertInterval : time.Duration)
  : time.Duration :=
  int64 (int64 (3 * advertInterval) + skewTimeOf priority advertInterval).

Definition resetMasterDownInterval (n : Node) (advertInterval : time.Duration) : Node :=
  let masterDownInterval' := masterDownIntervalOf (nodePriority n) advertInterval in
  if negb (Z.eqb masterDownInterval' (masterDownInterval n))
  then withMasterDownInterval masterDownInterval' n
  else n.

(** [state]. *)
Definition state (n : Node) : seesaw.HAState := seesaw.State (haStatus n).

(** [setState]; [now] is the value of its [time.Now()]. *)
Definition setStatus (st : seesaw.HAStatus) (s : seesaw.HAState) (now : time.Time)
  : seesaw.HAStatus :=
  if negb (seesaw.HAState_eqb (seesaw.State st) s)
  then {| seesaw.State := s;
          seesaw.Since := now;
          seesaw.Sent := seesaw.Sent st;
          seesaw.Received := seesaw.Received st;
          seesaw.ReceivedQueued := seesaw.ReceivedQueued st;
          seesaw.Transitions := uint64 (seesaw.Transitions st + 1) |}
  else st.

Definition setState (n : Node) (s : seesaw.HAState) (now : time.Time) : Node :=
  withStatus (setStatus (haStatus n) s now) n.

(** [status]: refreshes the counters of the record and returns a copy. *)
Definition status (n : Node) : Node * seesaw.HAStatus :=
  let st := {| seesaw.State := seesaw.State (haStatus n);
               seesaw.Since := seesaw.Since (haStatus n);
               seesaw.Sent := sendCount n;
               seesaw.Received := receiveCount n;
               seesaw.ReceivedQueued := uint64 (Z.of_nat (chanLen (recvChannel n)));
               seesaw.Transitions := seesaw.Transitions (haStatus n) |} in
  (withStatus st n, st).

(** [newAdvertisement]. *)
Definition newAdvertisement (n : Node) : Advertisement :=
  {| VersionType := vrrpVersionType;
     VRID := nodeVRID n;
     Priority := nodePriority n;
     CountIPAddrs := 0;
     AdvertInt :=
       uint16 (Z.quot (Z.quot (MasterAdvertInterval (config n)) time.Millisecond) 10);
     Checksum := 0 |}.

(** [NewNode]; [now] is the clock read for [lastMasterAdvertTime], [now']
    the one [setState] makes. *)
Definition NewNode (cfg : NodeConfig) (now now' : time.Time) : Node :=
  let n := {| config := cfg;
              haStatus := seesaw.zeroStatus;
              sendCount := 0;
              receiveCount := 0;
              masterDownInterval := 0;
              lastMasterAdvertTime := now;
              recvChannel := makeChan 20 |} in
  let n := setState n seesaw.HABackup now' in
  resetMasterDownInterval n (MasterAdvertInterval cfg).

(** ** The run loop

    A [select] blocks until one of its cases can proceed; which one fired is
    an input of the model.  A case that cannot proceed (a receive from the
    empty [recvChannel], a timer the [select] does not have) gives [None]. *)
Inductive selectCase : Type :=
| CaseRecv                   (* advert := <-n.recvChannel *)
| CaseShutdown               (* <-n.shutdownChannel *)
| CaseErr (e : error)        (* err := <-n.errChannel *)
| CaseTimeout.               (* <-timeout, in doBackupTasks *)

(** [backupHandleAdvertisement]; [now] is its [time.Now()].  [10*advert.AdvertInt]
    is a [uint16] product. *)
Definition backupHandleAdvertisement (n : Node) (advert : Advertisement)
    (now : time.Time) : seesaw.HAState * Node :=
  if negb (Z.eqb (VersionType advert) vrrpVersionType) then (seesaw.HABackup, n)
  else if negb (Z.eqb (VRID advert) (nodeVRID n)) then (seesaw.HABackup, n)
  else if Z.eqb (Priority advert) 0 then (seesaw.HAMaster, n)
  else if Preempt (config n) && Z.ltb (Priority advert) (nodePriority n)
       then (seesaw.HAMaster, n)
  else
    let n := resetMasterDownInterval n
               (int64 (time.Millisecond * uint16 (10 * AdvertInt advert))) in
    let n := withLastMasterAdvertTime now n in
    (seesaw.HABackup, n).

(** The body of [case advert := <-n.recvChannel] in [doMasterTasks]. *)
Definition masterHandleAdvertisement (n : Node) (advert : Advertisement)
    (now : time.Time) : seesaw.HAState * Node :=
  if negb (Z.eqb (VersionType advert) vrrpVersionType) then (seesaw.HAMaster, n)
  else if negb (Z.eqb (VRID advert) (nodeVRID n)) then (seesaw.HAMaster, n)
  else if Z.eqb (Priority advert) (nodePriority n) then (seesaw.HAMaster, n)
  else if Z.gtb (Priority advert) (nodePriority n)
       then (seesaw.HABackup, withLastMasterAdvertTime now n)
  else (seesaw.HAMaster, n).

(** [doMasterTasks]. *)
Definition doMasterTasks (n : Node) (c : selectCase) (now : time.Time)
  : option (seesaw.HAState * Node) :=
  match c with
  | CaseRecv =>
      match tryRecv (recvChannel n) with
      | Some (advert, ch) =>
          Some (masterHandleAdvertisement (withRecvChannel ch n) advert now)
      | None => None
      end
  | CaseShutdown => Some (seesaw.HAShutdown, n)
  | CaseErr _ => Some (seesaw.HAError, n)
  | CaseTimeout => None
  end.

(** [doBackupTasks].  The timer fires at
    [lastMasterAdvertTime + masterDownInterval]; on expiry a queued
    advertisement is still handled before the node gives up on the master. *)
Definition doBackupTasks (n : Node) (c : selectCase) (now : time.Time)
  : option (seesaw.HAState * Node) :=
  match c with
  | CaseRecv =>
      match tryRecv (recvChannel n) with
      | Some (advert, ch) =>
          Some (backupHandleAdvertisement (withRecvChannel ch n) advert now)
      | None => None
      end
  | CaseShutdown => Some (seesaw.HAShutdown, n)
  | CaseErr _ => Some (seesaw.HAError, n)
  | CaseTimeout =>
      match tryRecv (recvChannel n) with
      | Some (advert, ch) =>
          Some (backupHandleAdvertisement (withRecvChannel ch n) advert now)
      | None => Some (seesaw.HAMaster, n)
      end
  end.

(** What a transition does besides [setState]. *)
Inductive effect : Type :=
| EngineHAState (s : seesaw.HAState)   (* n.engine.HAState(s), its error only logged *)
| StartSender                          (* go n.sendAdvertisements() *)
| StopSender (s : seesaw.HAState)      (* n.stopSenderChannel <- s *)
| Sleep (d : time.Duration).

Definition becomeMaster (n : Node) (now : time.Time) : Node * list effect :=
  (setState n seesaw.HAMaster now, [EngineHAState seesaw.HAMaster; StartSender]).

Definition becomeBackup (n : Node) (now : time.Time) : Node * list effect :=
  (setState n seesaw.HABackup now,
   [EngineHAState seesaw.HABackup; StopSender seesaw.HABackup]).

Definition becomeShutdown (n : Node) (now : time.Time) : Node * list effect :=
  if seesaw.HAState_eqb (state n) seesaw.HAMaster
  then (setState n seesaw.HAShutdown now,
        [EngineHAState seesaw.HAShutdown; StopSender seesaw.HAShutdown;
         Sleep (500 * time.Millisecond)])
  else (setState n seesaw.HAShutdown now, [EngineHAState seesaw.HAShutdown]).

(** [runOnce]: the node after the pass, the effects of the transition and
    the error [runOnce] returns, if any.  [now] is the clock of the task,
    [now'] the clock of the transition that follows it. *)
Definition runOnce (n : Node) (c : selectCase) (now now' : time.Time)
  : option (Node * list effect * option error) :=
  match state n with
  | seesaw.HABackup =>
      match doBackupTasks n c now with
      | None => None
      | Some (newState, n) =>
          match newState with
          | seesaw.HABackup => Some (n, [], None)
          | seesaw.HAMaster =>
              let (n, fx) := becomeMaster n now' in Some (n, fx, None)
          | seesaw.HAShutdown =>
              let (n, fx) := becomeShutdown n now' in Some (n, fx, None)
          | _ => Some (n, [], Some (Errorf "runOnce: Can't handle transition"))
          end
      end
  | seesaw.HAMaster =>
      match doMasterTasks n c now with
      | None => None
      | Some (newState, n) =>
          match newState with
          | seesaw.HAMaster => Some (n, [], None)
          | seesaw.HABackup =>
              let (n, fx) := becomeBackup n now' in Some (n, fx, None)
          | seesaw.HAShutdown =>
              let (n, fx) := becomeShutdown n now' in Some (n, fx, None)
          | _ => Some (n, [], Some (Errorf "runOnce: Can't handle transition"))
          end
      end
  | _ => Some (n, [], Some (Errorf "runOnce: Invalid state"))
  end.

(** ** The receiver *)

Definition errRecvChannelFull : error :=
  Errorf "queueAdvertisement: recvChannel is full".

(** [queueAdvertisement]: the node afterwards and the error it sends on
    [errChannel], if any. *)
Definition queueAdvertisement (n : Node) (advert : Advertisement)
  : Node * option error :=
  match trySend (recvChannel n) advert with
  | Some ch => (withRecvChannel ch n, None)
  | None => (n, Some errRecvChannelFull)
  end.

(** One pass of the loop of [receiveAdvertisements] over the answer of
    [n.conn.Receive()]: the node afterwards and the error offered on
    [errChannel], if any (the process exits when nobody takes a transport
    error there). *)
Definition receiveAdvertisement (n : Node) (r : result (option Advertisement))
  : Node * option error :=
  match r with
  | Err e => (n, Some e)
  | Ok (Some advert) =>
      queueAdvertisement (withReceiveCount (uint64 (receiveCount n + 1)) n) advert
  | Ok None => (n, None)
  end.

(** What a pass of the receiver's loop meets: the answer of
    [n.conn.Receive()] and, for a pass that offers an error on [errChannel],
    whether the run loop takes it. *)
Record receiverEvent : Type := Answer {
  answer : result (option Advertisement);
  errTaken : bool
}.

Inductive receiverEnd : Type :=
| ReceiverRunning                 (* in [n.conn.Receive()] *)
| ReceiverExited                  (* [os.Exit(1)] *)
| ReceiverBlocked (e : error).    (* in the send of [e] on [errChannel] *)

(** [receiveAdvertisements], nothing being taken from [recvChannel]
    meanwhile: the node, the errors the run loop took from [errChannel], in
    order, and where the receiver is.  A transport error is offered in a
    [select] whose [default] branch exits the process; the error of
    [queueAdvertisement] is sent on the unbuffered [errChannel], where the
    receiver stays until the run loop takes it. *)
Fixpoint receiveAdvertisements (n : Node) (evs : list receiverEvent)
  : Node * list error * receiverEnd :=
  match evs with
  | [] => (n, [], ReceiverRunning)
  | Answer r errTaken :: rest =>
      match r with
      | Err e =>
          if errTaken
          then let '(n', es, fin) := receiveAdvertisements n rest in
               (n', e :: es, fin)
          else (n, [], ReceiverExited)
      | Ok (Some advert) =>
          match queueAdvertisement
                  (withReceiveCount (uint64 (receiveCount n + 1)) n) advert with
          | (n1, Some e) =>
              if errTaken
              then let '(n', es, fin) := receiveAdvertisements n1 rest in
                   (n', e :: es, fin)
              else (n1, [], ReceiverBlocked e)
          | (n1, None) => receiveAdvertisements n1 rest
          end
      | Ok None => receiveAdvertisements n rest
      end
  end.

(** ** [Run]

    [Run] starts the receiver and loops over [runOnce] until the node is in
    SHUTDOWN or a pass returns an error.  What happens is given as a trace:
    an answer handled by the receiver between two passes, or a pass of the
    run loop with the [select] case that fired and its two clock readings. *)
Inductive event : Type :=
| EvReceive (r : result (option Advertisement))
| EvPass (c : selectCase) (now now' : time.Time).

Inductive runResult : Type :=
| Returned (err : option error)   (* [Run] returned [err] *)
| Waiting.                        (* the loop is blocked in a [select] *)

Fixpoint Run (n : Node) (trace : list event) : Node * list effect * runResult :=
  if seesaw.HAState_eqb (state n) seesaw.HAShutdown then (n, [], Returned None)
  else
    match trace with
    | [] => (n, [], Waiting)
    | EvReceive r :: rest => Run (fst (receiveAdvertisement n r)) rest
    | EvPass c now now' :: rest =>
        match runOnce n c now now' with
        | None => (n, [], Waiting)
        | Some (n1, fx, Some e) => (n1, fx, Returned (Some e))
        | Some (n1, fx, None) =>
            let '(n2, fx2, r) := Run n1 rest in (n2, fx ++ fx2, r)
        end
    end.

(** ** The sender *)

Definition withSendCount (c : Z) (n : Node) : Node :=
  {| config := config n; haStatus := haStatus n; sendCount := c;
     receiveCount := receiveCount n; masterDownInterval := masterDownInterval n;
     lastMasterAdvertTime := lastMasterAdvertTime n;
     recvChannel := recvChannel n |}.

(** What the sender's [select] took: a tick, with the answer of
    [n.conn.Send] and, for a failed send, whether the run loop took the
    error from [errChannel]; or a value from [stopSenderChannel], with the
    answer of the [Send] of the last advertisement, if one is made. *)
Inductive senderEvent : Type :=
| Tick (sendResult : option error) (errTaken : bool)
| StopSignal (newState : seesaw.HAState) (sendResult : option error).

Inductive senderAction : Type :=
| SendAdvert (advert : Advertisement) (timeout : time.Duration)
| PostError (e : error).

Inductive senderEnd : Type :=
| SenderRunning      (* waiting in the [select] *)
| SenderReturned     (* [return] after a stop signal *)
| SenderExited.      (* [os.Exit(1)] *)

(** [sendAdvertisements]. *)
Fixpoint sendAdvertisements (n : Node) (evs : list senderEvent)
  : Node * list senderAction * senderEnd :=
  match evs with
  | [] => (n, [], SenderRunning)
  | Tick sendResult errTaken :: rest =>
      let act := SendAdvert (newAdvertisement n) (MasterAdvertInterval (config n)) in
      match sendResult with
      | Some e =>
          if errTaken
          then let '(n', acts, fin) := sendAdvertisements n rest in
               (n', act :: PostError e :: acts, fin)
          else (n, [act], SenderExited)
      | None =>
          let n1 := withSendCount (uint64 (sendCount n + 1)) n in
          let '(n', acts, fin) := sendAdvertisements n1 rest in
          (n', act :: acts, fin)
      end
  | StopSignal newState _ :: _ =>
      if seesaw.HAState_eqb newState seesaw.HAShutdown
      then (n, [SendAdvert (setPriority 0 (newAdvertisement n)) time.Second],
            SenderReturned)
      else (n, [], SenderReturned)
  end.

(** ** The status reporter and the config checker *)

(** The inner [for] of [reportStatus] and of [checkConfig] once the engine
    has answered with an error: the loop has no post statement and its body
    does not call the engine, so [err] stays as it is.  [failures] is an
    [int]; the result is the count on giving up and the number of sleeps, or
    [None] when [fuel] passes did not end the loop. *)
Fixpoint failureLoop (fuel : nat) (failures maxFailures : Z) (sleeps : nat)
  : option (Z * nat) :=
  match fuel with
  | O => None
  | S fuel' =>
      let failures := int64 (failures + 1) in
      if Z.gtb failures maxFailures then Some (failures, sleeps)
      else failureLoop fuel' failures maxFailures (S sleeps)
  end.

Inductive tickOutcome : Type :=
| TickDone (shutdown : bool) (posted : option error)
    (* the loop goes on to the next tick; [n.Shutdown()] was called or not;
       the error sent on [errChannel], if any *)
| TickGaveUp (failures : Z) (sleeps : nat)
    (* the fatal error was sent on [errChannel] and the function returned *)
| TickSpinning.
    (* the inner loop is still running *)

(** One tick of [reportStatus]; [answer] is what [n.engine.HAUpdate] gave
    for the status passed to it. *)
Definition reportStatus (fuel : nat) (n : Node) (answer : bool * option error)
  : Node * seesaw.HAStatus * tickOutcome :=
  let (n, st) := status n in
  let (failover, err) := answer in
  match err with
  | Some _ =>
      match failureLoop fuel 0 (StatusReportMaxFailures (config n)) 0 with
      | Some (failures, sleeps) => (n, st, TickGaveUp failures sleeps)
      | None => (n, st, TickSpinning)
      end
  | None =>
      (n, st,
       TickDone (failover && seesaw.HAState_eqb (state n) seesaw.HAMaster) None)
  end.

(** One tick of [checkConfig]; [answer] is what [n.engine.HAConfig] gave and
    [equal] is [cfg.Equal(&n.HAConfig)] of package [seesaw]. *)
Definition checkConfig (fuel : nat) (n : Node)
    (equal : seesaw.HAConfig -> seesaw.HAConfig -> bool)
    (answer : result seesaw.HAConfig) : tickOutcome :=
  match answer with
  | Err _ =>
      match failureLoop fuel 0 (ConfigCheckMaxFailures (config n)) 0 with
      | Some (failures, sleeps) => TickGaveUp failures sleeps
      | None => TickSpinning
      end
  | Ok cfg =>
      if negb (equal cfg (HAConfig (config n)))
      then TickDone false (Some (Errorf "checkConfig: HAConfig has changed"))
      else TickDone false None
  end.

End vrrp.

(* ================================================================== *)
(** * src/ha_net.go                                                     *)
(* ================================================================== *)

Module goloba.
Import vrrp.

(** Modelled from the spec: [vrrpPort] is declared in a file of package
    [goloba] that is not among the sources; the transport is "a raw IP
    socket carrier (IP protocol 112)".  The package's [advertisement] struct
    and [vrrpAdvertSize] are not among them either: they are taken as
    [vrrp.Advertisement] and [vrrp.vrrpAdvertSize] of core.go. *)
Definition vrrpPort : Z := 112.

(** ** [encoding/binary], big endian *)

Definition putUint16 (z : Z) : list byte :=
  [toByte (Z.shiftr z 8); toByte z].

Definition putUint32 (z : Z) : list byte :=
  [toByte (Z.shiftr z 24); toByte (Z.shiftr z 16); toByte (Z.shiftr z 8); toByte z].

Definition getUint16 (hi lo : byte) : Z :=
  Z.lor (Z.shiftl (byteZ hi) 8) (byteZ lo).

(** [binary.Write(buf, binary.BigEndian, advert)]. *)
Definition writeAdvertisement (a : Advertisement) : list byte :=
  [toByte (VersionType a); toByte (VRID a); toByte (Priority a);
   toByte (CountIPAddrs a)]
  ++ putUint16 (AdvertInt a) ++ putUint16 (Checksum a).

(** [binary.Read(reader, binary.BigEndian, advert)]: needs eight bytes. *)
Definition readAdvertisement (p : list byte) : result Advertisement :=
  match p with
  | b0 :: b1 :: b2 :: b3 :: b4 :: b5 :: b6 :: b7 :: _ =>
      Ok {| VersionType := byteZ b0; VRID := byteZ b1; Priority := byteZ b2;
            CountIPAddrs := byteZ b3; AdvertInt := getUint16 b4 b5;
            Checksum := getUint16 b6 b7 |}
  | _ => Err (OtherError "unexpected EOF")
  end.

(** [copy(dst[:], src)] into a zeroed array of [n] bytes. *)
Definition copyInto (n : nat) (src : list byte) : list byte :=
  firstn n src ++ repeat x00 (n - length src).

(** [binary.Write] of an [ipv4PseudoHeader] with [Protocol] and [VRRPLen]
    set and [Src], [Dst] copied in. *)
Definition writeIPv4PseudoHeader (src dst : net.IP) : list byte :=
  copyInto net.IPv4len src ++ copyInto net.IPv4len dst
  ++ [toByte 0; toByte vrrpPort] ++ putUint16 (Z.of_nat vrrpAdvertSize).

(** [binary.Write] of an [ipv6PseudoHeader]. *)
Definition writeIPv6PseudoHeader (src dst : net.IP) : list byte :=
  copyInto net.IPv6len src ++ copyInto net.IPv6len dst
  ++ putUint32 (Z.of_nat vrrpAdvertSize)
  ++ [x00; x00; x00] ++ [toByte vrrpPort].

(** ** [ipChecksum] *)

(** The first loop and the odd trailing byte: [sum] is a [uint32]. *)
Fixpoint sumWords (b : list byte) (sum : Z) : Z :=
  match b with
  | b0 :: b1 :: rest =>
      sumWords rest (uint32 (sum + Z.lor (Z.shiftl (byteZ b0) 8) (byteZ b1)))
  | [b0] => uint32 (sum + Z.shiftl (byteZ b0) 8)
  | [] => sum
  end.

(** [for sum>>16 != 0 { sum = (sum & 0xffff) + (sum >> 16) }], run for at
    most [fuel] passes. *)
Fixpoint foldCarries (fuel : nat) (sum : Z) : Z :=
  match fuel with
  | O => sum
  | S fuel' =>
      if negb (Z.eqb (Z.shiftr sum 16) 0)
      then foldCarries fuel' (uint32 (Z.land sum 65535 + Z.shiftr sum 16))
      else sum
  end.

(** Passes allowed to the folding loop: one per bit of the accumulator
    (two are ever taken, see [foldCarries_exits]). *)
Definition foldFuel : nat := 32.

Definition ipChecksum (b : list byte) : Z :=
  let sum := sumWords b 0 in
  let sum := foldCarries foldFuel sum in
  uint16 (Z.lxor sum 4294967295).

(** ** [checksum] *)

(** The bytes [checksum] writes ahead of the advertisement. *)
Definition pseudoHeader (srcIP dstIP : net.IP) : result (list byte) :=
  match net.To4 srcIP, net.To4 dstIP with
  | Some src, Some dst => Ok (writeIPv4PseudoHeader src dst)
  | _, _ =>
      match net.To16 srcIP, net.To16 dstIP with
      | Some src, Some dst => Ok (writeIPv6PseudoHeader src dst)
      | _, _ => Err (Errorf "ha.checksum: Need two IPv4 or IPv6 addresses")
      end
  end.

Definition checksum (advert : Advertisement) (srcIP dstIP : net.IP) : result Z :=
  (hdr <- pseudoHeader srcIP dstIP ;;
   Ok (ipChecksum (hdr ++ writeAdvertisement advert)))%result.

(** ** The connection and its sockets *)

Record ipHAConn : Type := {
  laddr : net.IP;
  raddr : net.IP
}.

(** What [ReadMsgIP] and [ParseSocketControlMessage] give for one datagram. *)
Record msgIP : Type := {
  msgData : list byte;                                     (* b[:n] *)
  msgControl : result (list syscall.SocketControlMessage); (* of oob[:oobn] *)
  msgSource : net.IP                                       (* raddr.IP *)
}.

(** The answers of [sendConn] and [recvConn] to the next call of each
    method.  [Read] gives the [n] bytes it stored at the start of
    [recvBuffer]. *)
Record sockets : Type := {
  Read : result (list byte);
  ReadMsgIP : result msgIP;
  SetWriteDeadline : option error;
  WriteToIP : option error
}.

Record packet : Type := {
  src : net.IP;
  dst : net.IP;
  ttl : Z;
  payload : list byte
}.

(** [af]. *)
Definition af (c : ipHAConn) : Z :=
  match net.To4 (laddr c) with
  | Some _ => syscall.AF_INET
  | None => syscall.AF_INET6
  end.

(** [readIPv4Packet]; [b] is [recvBuffer[:n]], every index the code reads
    lies below [n] once [n >= 20]. *)
Definition readIPv4Packet (rd : result (list byte)) : result packet :=
  (b <- rd ;;
   let n := Z.of_nat (length b) in
   if Z.ltb n 20 then Err (Errorf "IPHAConn.readIPv4Packet: Packet len is too small")
   else if negb (Z.eqb (Z.shiftr (byteZ (nth 0 b x00)) 4) 4)
        then Err (Errorf "IPHAConn.readIPv4Packet: Expected an IPv4 packet")
   else
     let hdrLen := Z.shiftl (Z.land (byteZ (nth 0 b x00)) 15) 2 in
     if Z.gtb hdrLen n
     then Err (Errorf "IPHAConn.readIPv4Packet: Header len > total len")
     else Ok {| src := [nth 12 b x00; nth 13 b x00; nth 14 b x00; nth 15 b x00];
                dst := [nth 16 b x00; nth 17 b x00; nth 18 b x00; nth 19 b x00];
                ttl := byteZ (nth 8 b x00);
                payload := skipn (Z.to_nat hdrLen) b |})%result.

(** The loop of [readIPv6Packet] over the control messages: the
    destination, the hop limit and [haveTTL]. *)
Fixpoint scanControl (scm : list syscall.SocketControlMessage)
    (dst : option net.IP) (ttl : Z) (haveTTL : bool)
  : result (option net.IP * Z * bool) :=
  match scm with
  | [] => Ok (dst, ttl, haveTTL)
  | sc :: rest =>
      if negb (Z.eqb (syscall.Level sc) syscall.IPPROTO_IPV6)
      then scanControl rest dst ttl haveTTL
      else if Z.eqb (syscall.Type_ sc) syscall.IPV6_2292HOPLIMIT then
        match syscall.Data sc with
        | [] => Err (Errorf "IPHAConn.readIPv6Packet: Invalid HOPLIMIT")
        | d0 :: _ => scanControl rest dst (byteZ d0) true
        end
      else if Z.eqb (syscall.Type_ sc) syscall.IPV6_2292PKTINFO then
        if Nat.ltb (length (syscall.Data sc)) 16
        then Err (Errorf "IPHAConn.readIPv6Packet: Invalid destination address")
        else scanControl rest (Some (firstn 16 (syscall.Data sc))) ttl haveTTL
      else scanControl rest dst ttl haveTTL
  end.

(** [readIPv6Packet]. *)
Definition readIPv6Packet (rd : result msgIP) : result packet :=
  (m <- rd ;;
   scm <- msgControl m ;;
   found <- scanControl scm None 0 false ;;
   match found with
   | (_, _, false) => Err (Errorf "IPHAConn.readIPv6Packet: HOPLIMIT not found")
   | (None, _, true) =>
       Err (Errorf "IPHAConn.readIPv6Packet: Destination address not found")
   | (Some dst, ttl, true) =>
       Ok {| src := msgSource m; dst := dst; ttl := ttl; payload := msgData m |}
   end)%result.

(** [readPacket]. *)
Definition readPacket (c : ipHAConn) (io : sockets) : result packet :=
  if Z.eqb (af c) syscall.AF_INET then readIPv4Packet (Read io)
  else readIPv6Packet (ReadMsgIP io).

(** The validation [receive] applies to a packet that was read. *)
Definition receivePacket (c : ipHAConn) (p : packet) : result (option Advertisement) :=
  if negb (Nat.eqb (length (payload p)) vrrpAdvertSize) then Ok None
  else
    (advert <- readAdvertisement (payload p) ;;
     if net.Equal (src p) (laddr c) then Ok None
     else if negb (Z.eqb (ttl p) 255) then Ok None
     else
       match checksum advert (src p) (dst p) with
       | Err _ => Ok None
       | Ok chksum =>
           if negb (Z.eqb chksum 0) then Ok None else Ok (Some advert)
       end)%result.

(** [receive]: [Ok (Some advert)] is [(advert, nil)], [Ok None] is
    [(nil, nil)], [Err e] is [(nil, e)]. *)
Definition receive (c : ipHAConn) (io : sockets) : result (option Advertisement) :=
  match readPacket c io with
  | Err e =>
      match e with
      | OpError (Some errno) =>
          if Z.eqb errno syscall.ENOPROTOOPT || Z.eqb errno syscall.EPROTO
          then Ok None
          else Err e
      | _ => Err e
      end
  | Ok p => receivePacket c p
  end.

(** ** [send]

    [advert] is a pointer in the source: [advertAfter] is the caller's record
    once [send] has returned, [written] the bytes handed to [WriteToIP],
    [sendError] the error returned. *)
Record sent : Type := {
  advertAfter : Advertisement;
  written : option (list byte);
  sendError : option error
}.

Definition send (c : ipHAConn) (io : sockets) (advert : Advertisement) : sent :=
  match SetWriteDeadline io with
  | Some e => {| advertAfter := advert; written := None; sendError := Some e |}
  | None =>
      let filled :=
        if Z.eqb (Checksum advert) 0 then
          match checksum advert (laddr c) (raddr c) with
          | Err _ => Err (Errorf "IPHAConn.send: checksum failed")
          | Ok chksum => Ok (setChecksum chksum advert)
          end
        else Ok advert in
      match filled with
      | Err e => {| advertAfter := advert; written := None; sendError := Some e |}
      | Ok advert' =>
          {| advertAfter := advert';
             written := Some (writeAdvertisement advert');
             sendError := WriteToIP io |}
      end
  end.

(** ** Socket set-up

    The functions that open the sockets call the operating system.  A call
    names the connection it is made on (connections are numbered as they are
    opened); the operating system answers each call with an error or with
    success.  A computation is the list of the calls it made, in order, and
    the way it ended. *)
Inductive call : Type :=
| ListenIP (conn : nat) (network : string) (addr : net.IP)   (* net.ListenIP *)
| ConnFile (conn : nat)                                      (* c.File() *)
| CloseFile (conn : nat)                                     (* the deferred f.Close() *)
| SetsockoptInt (conn : nat) (level opt value : Z)
| SetsockoptIPMreq (conn : nat) (level opt : Z) (multiaddr interface : list byte)
| SetsockoptIPv6Mreq (conn : nat) (level opt : Z) (multiaddr : list byte)
    (interface : Z).

Definition os : Type := call -> option error.

Inductive outcome (A : Type) : Type :=
| Returns (a : A)
| Fails (e : error)
| Panics.
Arguments Returns {A} a.
Arguments Fails {A} e.
Arguments Panics {A}.

Definition sys (A : Type) : Type := (list call * outcome A)%type.

Definition ret {A : Type} (a : A) : sys A := ([], Returns a).

Definition andThen {A B : Type} (m : sys A) (k : A -> sys B) : sys B :=
  match m with
  | (cs, Returns a) => let (cs', o) := k a in (cs ++ cs', o)
  | (cs, Fails e) => (cs, Fails e)
  | (cs, Panics) => (cs, Panics)
  end.

Declare Scope sys_scope.
Delimit Scope sys_scope with sys.
Notation "x <- m ;; k" := (andThen m (fun x => k))
  (at level 61, m at next level, right associativity) : sys_scope.

(** One call; [wrap] is what the caller makes of the error. *)
Definition doCall (w : os) (c : call) (wrap : error -> error) : sys unit :=
  ([c], match w c with
        | Some e => Fails (wrap e)
        | None => Returns tt
        end).

(** [defer f.Close()]: the file is closed when [body] is left, however it
    is left. *)
Definition deferClose {A : Type} (conn : nat) (body : sys A) : sys A :=
  let (cs, o) := body in (cs ++ [CloseFile conn], o).

(** [setsockopt]. *)
Definition setsockopt (w : os) (conn : nat) (level opt value : Z) : sys unit :=
  doCall w (SetsockoptInt conn level opt value) (fun _ => Errorf "ha.setsockopt").

(** [ipConn]; [conn] is the number of the connection [net.ListenIP] opens. *)
Definition ipConn (w : os) (conn : nat) (localAddr remoteAddr : net.IP) : sys nat :=
  (_ <- doCall w (ListenIP conn "ip:112" localAddr)
          (fun _ => Errorf "fail to listen") ;;
   _ <- doCall w (ConnFile conn)
          (fun _ => Errorf "fail to get file from connection") ;;
   deferClose conn
     (_ <- match net.To4 localAddr with
           | Some _ =>
               if net.IsMulticast remoteAddr then
                 _ <- setsockopt w conn syscall.IPPROTO_IP syscall.IP_MULTICAST_TTL 255 ;;
                 setsockopt w conn syscall.IPPROTO_IP syscall.IP_MULTICAST_LOOP 0
               else
                 setsockopt w conn syscall.IPPROTO_IP syscall.IP_TTL 255
           | None =>
               _ <- (if net.IsMulticast remoteAddr then
                       _ <- setsockopt w conn syscall.IPPROTO_IPV6
                              syscall.IPV6_MULTICAST_HOPS 255 ;;
                       setsockopt w conn syscall.IPPROTO_IPV6
                         syscall.IPV6_MULTICAST_LOOP 0
                     else
                       setsockopt w conn syscall.IPPROTO_IPV6
                         syscall.IPV6_UNICAST_HOPS 255) ;;
               _ <- setsockopt w conn syscall.IPPROTO_IPV6
                      syscall.IPV6_2292HOPLIMIT 1 ;;
               setsockopt w conn syscall.IPPROTO_IPV6 syscall.IPV6_2292PKTINFO 1
           end ;;
      ret conn))%sys.

(** A network interface as [findInterface] sees it: its index and what
    [iface.Addrs()] gives, each address being the IP that [net.ParseCIDR]
    makes of it (the empty slice when it does not parse). *)
Record Interface : Type := {
  Index : Z;
  Addrs : result (list net.IP)
}.

(** The two loops of [findInterface]. *)
Fixpoint findInterfaceIn (ifaces : list Interface) (laddr : net.IP) : result Interface :=
  match ifaces with
  | [] => Err (Errorf "ha.findInterface: No interface found")
  | iface :: rest =>
      match Addrs iface with
      | Err e => Err e
      | Ok addrs =>
          if existsb (fun ip => net.Equal laddr ip) addrs then Ok iface
          else findInterfaceIn rest laddr
      end
  end.

(** [findInterface]; [interfaces] is the answer of [net.Interfaces()]. *)
Definition findInterface (interfaces : result (list Interface)) (laddr : net.IP)
  : result Interface :=
  (ifaces <- interfaces ;; findInterfaceIn ifaces laddr)%result.

(** [listenMulticastIPv4]: indexing the nil slice that [To4] gives for an
    address that is not IPv4 panics. *)
Definition listenMulticastIPv4 (w : os) (conn : nat) (gaddr laddr : net.IP) : sys nat :=
  let gaddr4 := match net.To4 gaddr with Some g => g | None => [] end in
  let laddr4 := match net.To4 laddr with Some l => l | None => [] end in
  (_ <- doCall w (ListenIP conn "ip4:112" gaddr4) (fun e => e) ;;
   _ <- doCall w (ConnFile conn) (fun e => e) ;;
   deferClose conn
     (if Nat.ltb (length gaddr4) 4 || Nat.ltb (length laddr4) 4
      then ([], Panics)
      else
        _ <- doCall w (SetsockoptIPMreq conn syscall.IPPROTO_IP
                         syscall.IP_ADD_MEMBERSHIP (firstn 4 gaddr4) (firstn 4 laddr4))
               (fun e => e) ;;
        ret conn))%sys.

(** [joinMulticastIPv6]. *)
Definition joinMulticastIPv6 (w : os) (interfaces : result (list Interface))
    (conn : nat) (gaddr laddr : net.IP) : sys unit :=
  (_ <- doCall w (ConnFile conn) (fun e => e) ;;
   deferClose conn
     (let multiaddr :=
        copyInto 16 (match net.To16 gaddr with Some g => g | None => [] end) in
      match findInterface interfaces laddr with
      | Err e => ([], Fails e)
      | Ok iface =>
          doCall w (SetsockoptIPv6Mreq conn syscall.IPPROTO_IPV6
                      syscall.IPV6_JOIN_GROUP multiaddr (uint32 (Index iface)))
            (fun e => e)
      end))%sys.

(** The connection [newIPHAConn] returns, with the numbers of its sockets. *)
Record openedConn : Type := {
  sendConn : nat;
  recvConn : nat;
  haConn : ipHAConn
}.

(** [newIPHAConn]: the send socket is connection 0, a second socket is
    connection 1. *)
Definition newIPHAConn (w : os) (interfaces : result (list Interface))
    (laddr raddr : net.IP) : sys openedConn :=
  (sendConn <- ipConn w 0 laddr raddr ;;
   recvConn <- (if net.IsMulticast raddr then
                  match net.To4 raddr with
                  | Some _ => listenMulticastIPv4 w 1 raddr laddr
                  | None =>
                      _ <- joinMulticastIPv6 w interfaces sendConn raddr laddr ;;
                      ret sendConn
                  end
                else ret sendConn) ;;
   ret {| sendConn := sendConn; recvConn := recvConn;
          haConn := {| laddr := laddr; raddr := raddr |} |})%sys.

End goloba.

(* ================================================================== *)
(** * Specification-side definitions                                    *)
(* ================================================================== *)

Import vrrp goloba.

(** The sum of the 16-bit big-endian words of [b] as an unbounded integer,
    an odd last byte counting as the high byte of a word. *)
Fixpoint wordSum (b : list byte) : Z :=
  match b with
  | b0 :: b1 :: rest => byteZ b0 * 256 + byteZ b1 + wordSum rest
  | [b0] => byteZ b0 * 256
  | [] => 0
  end.

(** One pass of end-around carry on an unbounded integer. *)
Definition carryStep (x : Z) : Z := x mod 65536 + x / 65536.

(** The RFC 1071 checksum over the integers.  The one's-complement sum of
    16-bit words is their sum with end-around carry: 0 when every word is 0,
    and otherwise the value in 1..65535 congruent to the sum modulo 65535.
    The checksum is its 16-bit complement. *)
Definition onesComplementSum (b : list byte) : Z :=
  if Z.eqb (wordSum b) 0 then 0 else (wordSum b - 1) mod 65535 + 1.

Definition rfc1071 (b : list byte) : Z := 65535 - onesComplementSum b.

(** A slice that is a usable address: four or sixteen bytes. *)
Definition isIP (ip : net.IP) : Prop := length ip = 4%nat \/ length ip = 16%nat.

(** Both endpoints are IPv4 (or IPv4-mapped), or both are proper IPv6. *)
Definition sameFamily (s d : net.IP) : Prop :=
  (net.To4 s <> None /\ net.To4 d <> None) \/
  (length s = 16%nat /\ length d = 16%nat /\ net.To4 s = None /\ net.To4 d = None).

(** The master-down interval of RFC 5798 over the integers. *)
Definition masterDownSpec (p I : Z) : Z := 3 * I + ((256 - p) * I) / 256.

(** What holds of a node of configuration [cfg] at every moment of its
    life: the configuration it was made with, a receive queue of capacity
    20 holding at most 20 advertisements, and a state that is BACKUP, MASTER
    or SHUTDOWN. *)
Definition nodeInvariant (cfg : NodeConfig) (n : Node) : Prop :=
  config n = cfg /\
  capacity (recvChannel n) = 20%nat /\
  (chanLen (recvChannel n) <= 20)%nat /\
  (state n = seesaw.HABackup \/ state n = seesaw.HAMaster \/
   state n = seesaw.HAShutdown).

(** [n1] is [n] but for the clocks, the counters, the master-down interval
    and advertisements taken from the queue. *)
Definition sameNode (n n1 : Node) : Prop :=
  config n1 = config n /\ haStatus n1 = haStatus n /\
  capacity (recvChannel n1) = capacity (recvChannel n) /\
  (chanLen (recvChannel n1) <= chanLen (recvChannel n))%nat.

(** How a run ends, for a node that keeps the invariant. *)
Definition runEnds (n0 n : Node) (trace : list event) (r : runResult) : Prop :=
  match r with
  | Returned None =>
      state n = seesaw.HAShutdown /\
      (state n0 = seesaw.HAShutdown \/
       exists t1 t2, In (EvPass CaseShutdown t1 t2) trace)
  | Returned (Some e) =>
      e = Errorf "runOnce: Can't handle transition" /\
      (state n = seesaw.HABackup \/ state n = seesaw.HAMaster) /\
      exists e0 t1 t2, In (EvPass (CaseErr e0) t1 t2) trace
  | Waiting => state n = seesaw.HABackup \/ state n = seesaw.HAMaster
  end.

(** What the sender does on a tick whose [Send] answered [t]. *)
Definition tickActions (n : Node) (t : option error) : list senderAction :=
  SendAdvert (newAdvertisement n) (MasterAdvertInterval (config n))
  :: match t with
     | Some e => [PostError e]
     | None => []
     end.

(** The ticks whose [Send] succeeded. *)
Definition sentOk (ticks : list (option error)) : nat :=
  length (filter (fun t => match t with None => true | Some _ => false end) ticks).

(** The advertisements among the answers of [Receive], in order, and the
    number of errors among them. *)
Definition advertsOf (evs : list receiverEvent) : list Advertisement :=
  flat_map (fun ev => match answer ev with Ok (Some a) => [a] | _ => [] end) evs.

Definition failuresOf (evs : list receiverEvent) : nat :=
  length (filter (fun ev => match answer ev with Err _ => true | _ => false end) evs).

(** The run loop takes every error these passes offer. *)
Definition allTaken (evs : list receiverEvent) : Prop :=
  forallb errTaken evs = true.

(** The calls the specification lists for a connection: a raw socket for
    protocol 112 bound to the local address, its file, then the socket
    options by the family of the local address and by whether the remote
    address is a multicast group; IPv6 always asks for the hop limit and the
    packet information of received packets. *)
Definition optionPolicy (ipv4 multicast : bool) : list (Z * Z * Z) :=
  match ipv4, multicast with
  | true, false => [(syscall.IPPROTO_IP, syscall.IP_TTL, 255)]
  | true, true => [(syscall.IPPROTO_IP, syscall.IP_MULTICAST_TTL, 255);
                   (syscall.IPPROTO_IP, syscall.IP_MULTICAST_LOOP, 0)]
  | false, false => [(syscall.IPPROTO_IPV6, syscall.IPV6_UNICAST_HOPS, 255);
                     (syscall.IPPROTO_IPV6, syscall.IPV6_2292HOPLIMIT, 1);
                     (syscall.IPPROTO_IPV6, syscall.IPV6_2292PKTINFO, 1)]
  | false, true => [(syscall.IPPROTO_IPV6, syscall.IPV6_MULTICAST_HOPS, 255);
                    (syscall.IPPROTO_IPV6, syscall.IPV6_MULTICAST_LOOP, 0);
                    (syscall.IPPROTO_IPV6, syscall.IPV6_2292HOPLIMIT, 1);
                    (syscall.IPPROTO_IPV6, syscall.IPV6_2292PKTINFO, 1)]
  end.

Definition isIPv4 (ip : net.IP) : bool :=
  match net.To4 ip with Some _ => true | None => false end.

Definition plannedCalls (conn : nat) (localAddr remoteAddr : net.IP) : list call :=
  ListenIP conn "ip:112" localAddr
  :: ConnFile conn
  :: map (fun o => SetsockoptInt conn (fst (fst o)) (snd (fst o)) (snd o))
       (optionPolicy (isIPv4 localAddr) (net.IsMulticast remoteAddr)).

(** The calls of a plan that are made when the first failure ends it, and
    whether all of them succeeded. *)
Fixpoint untilFailure (w : os) (cs : list call) : list call * bool :=
  match cs with
  | [] => ([], true)
  | c :: rest =>
      match w c with
      | Some _ => ([c], false)
      | None => let (made, ok) := untilFailure w rest in (c :: made, ok)
      end
  end.

(** The file of connection [conn] was opened. *)
Definition fileOpened (w : os) (conn : nat) (localAddr : net.IP) : bool :=
  match w (ListenIP conn "ip:112" localAddr), w (ConnFile conn) with
  | None, None => true
  | _, _ => false
  end.

(** An interface carries the address. *)
Definition carries (laddr : net.IP) (iface : Interface) : Prop :=
  exists addrs ip,
    Addrs iface = Ok addrs /\ In ip addrs /\ net.Equal laddr ip = true.

(** The addresses of an interface can be read and none is the address. *)
Definition passedOver (laddr : net.IP) (iface : Interface) : Prop :=
  exists addrs,
    Addrs iface = Ok addrs /\ forall ip, In ip addrs -> net.Equal laddr ip = false.

(** ** Sample inputs *)

Definition sampleAdvert : Advertisement :=
  {| VersionType := 0x31; VRID := 1; Priority := 100; CountIPAddrs := 0;
     AdvertInt := 100; Checksum := 0 |}.

(** 10.0.0.1 and 10.0.0.2. *)
Definition ipA : net.IP := [x0a; x00; x00; x01].
Definition ipB : net.IP := [x0a; x00; x00; x02].

(** A BACKUP node reaches the last branch of [backupHandleAdvertisement]
    with this advertisement. *)
Definition acceptedInBackup (n : Node) (a : Advertisement) : Prop :=
  VersionType a = 0x31 /\ VRID a = nodeVRID n /\ Priority a <> 0 /\
  ~ (Preempt (config n) = true /\ Priority a < nodePriority n).

Definition sampleConfig : NodeConfig :=
  {| HAConfig := {| seesaw.Priority := 100; seesaw.VRID := 1 |};
     ConfigCheckInterval := 15 * time.Second;
     ConfigCheckMaxFailures := 3;
     ConfigCheckRetryDelay := 2 * time.Second;
     MasterAdvertInterval := time.Second;
     Preempt := false;
     StatusReportInterval := 3 * time.Second;
     StatusReportMaxFailures := 3;
     StatusReportRetryDelay := 2 * time.Second |}.

(** A node as [NewNode] makes it, in BACKUP. *)
Definition sampleBackup : Node := NewNode sampleConfig 0 0.

(** The same node as MASTER with one advertisement of priority 150 queued. *)
Definition sampleMaster : Node :=
  setState
    (withRecvChannel {| queue := [setPriority 150 sampleAdvert]; capacity := 20 |}
       sampleBackup)
    seesaw.HAMaster 1.

(** An advertisement announcing an interval of 65.54 s. *)
Definition longIntervalAdvert : Advertisement :=
  {| VersionType := 0x31; VRID := 1; Priority := 100; CountIPAddrs := 0;
     AdvertInt := 6554; Checksum := 0 |}.

(** A connection from 10.0.0.1 to 10.0.0.2. *)
Definition sampleConn : ipHAConn := {| laddr := ipA; raddr := ipB |}.

(** An IPv4 datagram from 10.0.0.2 to 10.0.0.1 with TTL 255 and a 20-byte
    header, carrying [sampleAdvert] with its checksum filled in. *)
Definition sampleDatagram : list byte :=
  [x45; x00; x00; x1c; x00; x00; x00; x00; xff; x70; x00; x00;
   x0a; x00; x00; x02; x0a; x00; x00; x01]
  ++ writeAdvertisement (setChecksum 22047 sampleAdvert).

Definition socketsReading (rd : result (list byte)) : sockets :=
  {| Read := rd;
     ReadMsgIP := Err (OtherError "not an IPv6 socket");
     SetWriteDeadline := None;
     WriteToIP := None |}.

(** A read that returned ten bytes. *)
Definition shortRead : sockets := socketsReading (Ok (repeat x00 10)).

(** [n.setState] called in turn with each state of [calls] at its time. *)
Definition setStates (n : Node) (calls : list (seesaw.HAState * time.Time)) : Node :=
  fold_left (fun m call => setState m (fst call) (snd call)) calls n.

(** How many of the [calls], made in turn from state [s], name a state other
    than the one the node is in. *)
Fixpoint stateChanges (s : seesaw.HAState) (calls : list (seesaw.HAState * time.Time))
  : nat :=
  match calls with
  | [] => 0
  | (s', _) :: rest =>
      ((if seesaw.HAState_eqb s s' then 0 else 1) + stateChanges s' rest)%nat
  end.

(** The answer of [Receive] that carries the advertisement [a]. *)
Definition delivered (a : Advertisement) : result (option Advertisement) :=
  Ok (Some a).

(** [sampleDatagram] with the priority byte of the payload changed. *)
Definition tamperedDatagram : list byte :=
  [x45; x00; x00; x1c; x00; x00; x00; x00; xff; x70; x00; x00;
   x0a; x00; x00; x02; x0a; x00; x00; x01]
  ++ [x31; x01; x65; x00; x00; x64; x56; x1f].

(** The peer of [sampleConn]: from 10.0.0.2 to 10.0.0.1. *)
Definition peerConn : ipHAConn := {| laddr := ipB; raddr := ipA |}.

(** fe80::1 and fe80::2. *)
Definition ip6A : net.IP :=
  [xfe; x80; x00; x00; x00; x00; x00; x00; x00; x00; x00; x00; x00; x00; x00; x01].
Definition ip6B : net.IP :=
  [xfe; x80; x00; x00; x00; x00; x00; x00; x00; x00; x00; x00; x00; x00; x00; x02].

(** A connection from fe80::1 to fe80::2. *)
Definition sampleConn6 : ipHAConn := {| laddr := ip6A; raddr := ip6B |}.

(** [sampleAdvert], checksum filled in, as it arrives from fe80::2 with hop
    limit 255 and destination fe80::1 on interface 2. *)
Definition sampleMsg6 : msgIP :=
  {| msgData := [x31; x01; x64; x00; x00; x64; x6d; x1d];
     msgControl :=
       Ok [ {| syscall.Level := 41; syscall.Type_ := 8;
               syscall.Data := [xff; x00; x00; x00] |};
            {| syscall.Level := 41; syscall.Type_ := 2;
               syscall.Data := ip6A ++ [x02; x00; x00; x00] |} ];
     msgSource := ip6B |}.

Definition socketsReadingMsg (rd : result msgIP) : sockets :=
  {| Read := Err (OtherError "not an IPv4 socket");
     ReadMsgIP := rd;
     SetWriteDeadline := None;
     WriteToIP := None |}.

(** An operating system on which every call succeeds. *)
Definition allSucceed : os := fun _ => None.

(** 224.0.0.18, the VRRP group. *)
Definition group4 : net.IP := [xe0; x00; x00; x12].

(** Two interfaces: the loopback, and one that carries 10.0.0.1 and
    fe80::1. *)
Definition sampleInterfaces : list Interface :=
  [ {| Index := 1; Addrs := Ok [[x7f; x00; x00; x01]] |};
    {| Index := 2; Addrs := Ok [net.v4InV6Prefix ++ ipA; ip6A] |} ].

(* ================================================================== *)
(** * Bytes and bit operations                                          *)
(* ================================================================== *)

Lemma byteZ_range (b : byte) : 0 <= byteZ b < 256.
Proof.
  unfold byteZ. pose proof (Byte.to_N_bounded b) as H.
  split; [apply N2Z.is_nonneg|].
  apply N2Z.inj_le in H. change (Z.of_N 255) with 255 in H. lia.
Qed.

Lemma toByte_byteZ (b : byte) : toByte (byteZ b) = b.
Proof.
  unfold toByte, uint8.
  rewrite Z.mod_small by (pose proof (byteZ_range b); simpl; lia).
  unfold byteZ. rewrite N2Z.id, Byte.of_to_N. reflexivity.
Qed.

Lemma byteZ_toByte (z : Z) : byteZ (toByte z) = z mod 256.
Proof.
  unfold toByte, uint8. change (2 ^ 8) with 256.
  assert (Hr : 0 <= z mod 256 < 256) by (apply Z.mod_pos_bound; lia).
  destruct (Byte.of_N (Z.to_N (z mod 256))) as [b|] eqn:E.
  - apply Byte.to_of_N in E. unfold byteZ. rewrite E, Z2N.id; lia.
  - apply Byte.of_N_None_iff in E. exfalso. lia.
Qed.

Lemma lor_shiftl8 (h l : Z) :
  0 <= l < 256 -> Z.lor (Z.shiftl h 8) l = h * 256 + l.
Proof.
  intros Hl.
  assert (Hdisj : Z.land (Z.shiftl h 8) l = 0).
  { apply Z.bits_inj'. intros n Hn.
    rewrite Z.land_spec, Z.bits_0.
    destruct (Z.ltb_spec n 8) as [Hlt|Hge].
    - rewrite Z.shiftl_spec_low by lia. reflexivity.
    - replace l with (l mod 2 ^ 8) by (apply Z.mod_small; simpl; lia).
      rewrite Z.mod_pow2_bits_high by lia. apply andb_false_r. }
  rewrite <- Z.lxor_lor by exact Hdisj.
  rewrite <- Z.add_nocarry_lxor by exact Hdisj.
  rewrite Z.shiftl_mul_pow2 by lia. reflexivity.
Qed.

Lemma getUint16_value (hi lo : byte) : getUint16 hi lo = byteZ hi * 256 + byteZ lo.
Proof. unfold getUint16. apply lor_shiftl8, byteZ_range. Qed.

Lemma getUint16_range (hi lo : byte) : 0 <= getUint16 hi lo < 65536.
Proof.
  rewrite getUint16_value.
  pose proof (byteZ_range hi). pose proof (byteZ_range lo). lia.
Qed.

Lemma putUint16_getUint16 (hi lo : byte) : putUint16 (getUint16 hi lo) = [hi; lo].
Proof.
  unfold putUint16. rewrite getUint16_value.
  pose proof (byteZ_range hi) as Hh. pose proof (byteZ_range lo) as Hl.
  rewrite Z.shiftr_div_pow2 by lia. change (2 ^ 8) with 256.
  assert (Hq : (byteZ hi * 256 + byteZ lo) / 256 = byteZ hi)
    by (symmetry; apply Z.div_unique with (r := byteZ lo); lia).
  assert (Hm : (byteZ hi * 256 + byteZ lo) mod 256 = byteZ lo)
    by (symmetry; apply Z.mod_unique with (q := byteZ hi); lia).
  rewrite Hq, toByte_byteZ.
  replace (toByte (byteZ hi * 256 + byteZ lo)) with (toByte (byteZ lo)).
  - rewrite toByte_byteZ. reflexivity.
  - unfold toByte, uint8. change (2 ^ 8) with 256.
    rewrite Hm, Z.mod_small by lia. reflexivity.
Qed.

Lemma wordSum_putUint16 (z : Z) :
  0 <= z < 65536 -> wordSum (putUint16 z) = z.
Proof.
  intros Hz. unfold putUint16. cbn [wordSum].
  rewrite !byteZ_toByte, Z.shiftr_div_pow2 by lia. change (2 ^ 8) with 256.
  rewrite (Z.mod_small (z / 256)) by (split; [apply Z.div_pos; lia | apply Z.div_lt_upper_bound; lia]).
  pose proof (Z.div_mod z 256). lia.
Qed.

(* ================================================================== *)
(** * The RFC 1071 sum                                                  *)
(* ================================================================== *)

Section PairInduction.
Variable A : Type.
Variable P : list A -> Prop.
Hypothesis Hnil : P [].
Hypothesis Hone : forall a, P [a].
Hypothesis Hpair : forall a b l, P l -> P (a :: b :: l).

Lemma list_pair_ind (l : list A) : P l.
Proof.
  assert (H : P l /\ forall a, P (a :: l)).
  { induction l as [|x l' [IH1 IH2]].
    - split; [exact Hnil | exact Hone].
    - split; [apply IH2 | intros a; apply Hpair, IH1]. }
  exact (proj1 H).
Qed.
End PairInduction.

Lemma wordSum_bounds (b : list byte) :
  0 <= wordSum b <= 65535 * Z.of_nat (length b).
Proof.
  induction b as [| b0 | b0 b1 rest IH] using list_pair_ind.
  - simpl. lia.
  - pose proof (byteZ_range b0). cbn [wordSum]. simpl length. lia.
  - pose proof (byteZ_range b0). pose proof (byteZ_range b1).
    cbn [wordSum]. change (length (b0 :: b1 :: rest)) with (S (S (length rest))).
    lia.
Qed.

Lemma wordSum_app (a b : list byte) :
  Nat.even (length a) = true -> wordSum (a ++ b) = wordSum a + wordSum b.
Proof.
  induction a as [| a0 | a0 a1 rest IH] using list_pair_ind; intros He.
  - reflexivity.
  - discriminate He.
  - change ((a0 :: a1 :: rest) ++ b) with (a0 :: a1 :: (rest ++ b)).
    cbn [wordSum]. rewrite IH by exact He. lia.
Qed.

(** While the accumulator cannot overflow, the loop computes the plain sum. *)
Lemma sumWords_wordSum (b : list byte) :
  forall s, 0 <= s -> s + wordSum b < 2 ^ 32 -> sumWords b s = s + wordSum b.
Proof.
  induction b as [| b0 | b0 b1 rest IH] using list_pair_ind; intros s Hs Hlt.
  - simpl. lia.
  - pose proof (byteZ_range b0). cbn [wordSum] in *. cbn [sumWords].
    rewrite Z.shiftl_mul_pow2 by lia. change (2 ^ 8) with 256.
    unfold uint32. apply Z.mod_small. lia.
  - pose proof (byteZ_range b0). pose proof (byteZ_range b1).
    pose proof (wordSum_bounds rest).
    cbn [wordSum] in *. cbn [sumWords].
    rewrite lor_shiftl8 by assumption.
    unfold uint32. rewrite Z.mod_small by lia.
    rewrite IH by lia. lia.
Qed.

Lemma carryStep_facts (x : Z) :
  0 <= x ->
  0 <= carryStep x /\ carryStep x mod 65535 = x mod 65535 /\
  (carryStep x = 0 <-> x = 0) /\ (65536 <= x -> carryStep x < x) /\
  (x < 2 ^ 32 -> carryStep x <= 131070) /\
  (x <= 131070 -> carryStep x <= 65535).
Proof.
  intros Hx. unfold carryStep.
  pose proof (Z.div_mod x 65536 ltac:(lia)) as Hdm.
  pose proof (Z.mod_pos_bound x 65536 ltac:(lia)) as Hm.
  assert (Hq : 0 <= x / 65536) by (apply Z.div_pos; lia).
  repeat split; try lia.
  - replace (x mod 65535)
      with ((x mod 65536 + x / 65536 + x / 65536 * 65535) mod 65535)
      by (f_equal; lia).
    rewrite Z.mod_add by lia. reflexivity.
Qed.

Lemma shiftr16_zero_iff (x : Z) : 0 <= x -> (Z.shiftr x 16 = 0 <-> x < 65536).
Proof.
  intros Hx. rewrite Z.shiftr_div_pow2 by lia. change (2 ^ 16) with 65536.
  pose proof (Z.div_mod x 65536 ltac:(lia)).
  pose proof (Z.mod_pos_bound x 65536 ltac:(lia)).
  assert (0 <= x / 65536) by (apply Z.div_pos; lia).
  lia.
Qed.

Lemma foldCarries_stop (fuel : nat) (x : Z) :
  Z.shiftr x 16 = 0 -> foldCarries fuel x = x.
Proof.
  intros H. destruct fuel; simpl; [reflexivity|].
  rewrite H. reflexivity.
Qed.

Lemma foldCarries_step (fuel : nat) (x : Z) :
  0 <= x < 2 ^ 32 -> Z.shiftr x 16 <> 0 ->
  foldCarries (S fuel) x = foldCarries fuel (carryStep x).
Proof.
  intros Hx Hne. simpl.
  apply Z.eqb_neq in Hne. rewrite Hne. simpl.
  f_equal. unfold uint32.
  change 65535 with (Z.ones 16). rewrite Z.land_ones, Z.shiftr_div_pow2 by lia.
  change (2 ^ 16) with 65536. fold (carryStep x).
  destruct (carryStep_facts x ltac:(lia)) as (H0 & _ & _ & _ & H4 & _).
  apply Z.mod_small. specialize (H4 ltac:(lia)).
  change (2 ^ 32) with 4294967296. lia.
Qed.

(** The folding loop leaves a 16-bit value congruent to its input modulo
    65535, zero only for a zero input; two passes are the most it takes. *)
Lemma foldCarries_spec (x : Z) :
  0 <= x < 2 ^ 32 ->
  let f := foldCarries foldFuel x in
  0 <= f <= 65535 /\ f mod 65535 = x mod 65535 /\ (f = 0 <-> x = 0).
Proof.
  intros Hx. cbv zeta. change foldFuel with (S (S 30)).
  destruct (Z.eq_dec (Z.shiftr x 16) 0) as [E0|N0].
  - rewrite foldCarries_stop by exact E0.
    apply shiftr16_zero_iff in E0; [|lia]. repeat split; lia.
  - rewrite foldCarries_step by assumption.
    destruct (carryStep_facts x ltac:(lia)) as (A0 & A1 & A2 & _ & A4 & _).
    specialize (A4 ltac:(lia)).
    destruct (Z.eq_dec (Z.shiftr (carryStep x) 16) 0) as [E1|N1].
    + rewrite foldCarries_stop by exact E1.
      apply shiftr16_zero_iff in E1; [|lia]. repeat split; try lia; tauto.
    + rewrite foldCarries_step; [| change (2 ^ 32) with 4294967296; lia | exact N1].
      destruct (carryStep_facts (carryStep x) A0) as (B0 & B1 & B2 & _ & _ & B5).
      specialize (B5 A4).
      rewrite foldCarries_stop by (apply shiftr16_zero_iff; lia).
      repeat split; try lia; try congruence; tauto.
Qed.

(** X2.  The folding loop of [ipChecksum] ends on every [uint32] sum: within
    the passes allowed its condition [sum>>16 != 0] has become false. *)
Lemma foldCarries_exits (x : Z) :
  0 <= x < 2 ^ 32 -> Z.shiftr (foldCarries foldFuel x) 16 = 0.
Proof.
  intros Hx. destruct (foldCarries_spec x Hx) as (Hr & _ & _).
  apply shiftr16_zero_iff; lia.
Qed.

Lemma complement16 (f : Z) :
  0 <= f <= 65535 -> uint16 (Z.lxor f 4294967295) = 65535 - f.
Proof.
  intros Hf.
  assert (Hdisj : Z.land f (Z.lxor f 4294967295) = 0).
  { apply Z.bits_inj'. intros n Hn.
    rewrite Z.land_spec, Z.lxor_spec, Z.bits_0.
    destruct (Z.ltb_spec n 32) as [Hlt|Hge].
    - change 4294967295 with (Z.ones 32). rewrite Z.ones_spec_low by lia.
      destruct (Z.testbit f n); reflexivity.
    - replace f with (f mod 2 ^ 32)
        by (apply Z.mod_small; change (2 ^ 32) with 4294967296; lia).
      rewrite Z.mod_pow2_bits_high by lia. reflexivity. }
  assert (Hx : Z.lxor f 4294967295 = 4294967295 - f).
  { pose proof (Z.add_nocarry_lxor _ _ Hdisj) as Hadd.
    rewrite <- Z.lxor_assoc, Z.lxor_nilpotent, Z.lxor_0_l in Hadd. lia. }
  rewrite Hx. unfold uint16. change (2 ^ 16) with 65536.
  symmetry. apply Z.mod_unique with (q := 65535); lia.
Qed.

Lemma ipChecksum_value (b : list byte) :
  wordSum b < 2 ^ 32 ->
  ipChecksum b = 65535 - foldCarries foldFuel (wordSum b) /\
  0 <= ipChecksum b <= 65535.
Proof.
  intros Hb. pose proof (wordSum_bounds b) as Hw.
  unfold ipChecksum. rewrite sumWords_wordSum by lia. rewrite Z.add_0_l.
  destruct (foldCarries_spec (wordSum b) ltac:(lia)) as (Hr & _ & _).
  rewrite complement16 by exact Hr. lia.
Qed.

(** [ipChecksum] computes the RFC 1071 checksum. *)
Lemma ipChecksum_rfc1071 (b : list byte) :
  wordSum b < 2 ^ 32 -> ipChecksum b = rfc1071 b.
Proof.
  intros Hb. pose proof (wordSum_bounds b) as Hw.
  destruct (ipChecksum_value b Hb) as [Hv _]. rewrite Hv.
  destruct (foldCarries_spec (wordSum b) ltac:(lia)) as (Fr & Fm & Fz).
  cbv zeta in *. set (f := foldCarries foldFuel (wordSum b)) in *.
  unfold rfc1071, onesComplementSum. f_equal.
  destruct (Z.eqb_spec (wordSum b) 0) as [E|N].
  - apply Fz. exact E.
  - assert (f <> 0) by (intros E; apply Fz in E; contradiction).
    revert Fm. Z.div_mod_to_equations. lia.
Qed.

Lemma rfc1071_zero_iff (b : list byte) :
  rfc1071 b = 0 <-> wordSum b mod 65535 = 0 /\ wordSum b <> 0.
Proof.
  pose proof (wordSum_bounds b) as Hw.
  unfold rfc1071, onesComplementSum.
  destruct (Z.eqb_spec (wordSum b) 0) as [E|N].
  - split; [lia|]. intros [_ H]. contradiction.
  - split.
    + intros H. split; [|exact N]. revert H. Z.div_mod_to_equations. lia.
    + intros [H _]. revert H. Z.div_mod_to_equations. lia.
Qed.

(* ================================================================== *)
(** * The pseudo-headers and the checksum of an advertisement           *)
(* ================================================================== *)

Lemma copyInto_length (n : nat) (src : list byte) : length (copyInto n src) = n.
Proof.
  unfold copyInto. rewrite length_app, length_firstn, repeat_length. lia.
Qed.

Lemma writeIPv4PseudoHeader_length (s d : net.IP) :
  length (writeIPv4PseudoHeader s d) = 12%nat.
Proof.
  unfold writeIPv4PseudoHeader. rewrite !length_app, !copyInto_length. reflexivity.
Qed.

Lemma writeIPv6PseudoHeader_length (s d : net.IP) :
  length (writeIPv6PseudoHeader s d) = 40%nat.
Proof.
  unfold writeIPv6PseudoHeader. rewrite !length_app, !copyInto_length. reflexivity.
Qed.

Lemma pseudoHeader_shape (s d : net.IP) (hdr : list byte) :
  pseudoHeader s d = Ok hdr ->
  Nat.even (length hdr) = true /\ (length hdr <= 40)%nat.
Proof.
  unfold pseudoHeader. intros H.
  destruct (net.To4 s), (net.To4 d);
    try (destruct (net.To16 s), (net.To16 d));
    inversion H; subst;
    rewrite ?writeIPv4PseudoHeader_length, ?writeIPv6PseudoHeader_length;
    split; (reflexivity || lia).
Qed.

Lemma To4_None_To16 (ip : net.IP) :
  net.To4 ip = None -> length ip = 16%nat -> net.To16 ip = Some ip.
Proof.
  intros _ Hlen. unfold net.To16. rewrite Hlen. reflexivity.
Qed.

Lemma sameFamily_pseudoHeader (s d : net.IP) :
  sameFamily s d ->
  exists hdr, pseudoHeader s d = Ok hdr /\
    (forall s4 d4, net.To4 s = Some s4 -> net.To4 d = Some d4 ->
       hdr = writeIPv4PseudoHeader s4 d4) /\
    (net.To4 s = None -> net.To4 d = None -> hdr = writeIPv6PseudoHeader s d).
Proof.
  unfold pseudoHeader.
  intros [[Hs Hd] | (Ls & Ld & Hs & Hd)].
  - destruct (net.To4 s) as [s4|]; [|congruence].
    destruct (net.To4 d) as [d4|]; [|congruence].
    eexists. split; [reflexivity|]. split; [|discriminate].
    intros ? ? E1 E2. inversion E1; inversion E2; subst. reflexivity.
  - rewrite Hs, Hd, (To4_None_To16 s Hs Ls), (To4_None_To16 d Hd Ld).
    eexists. split; [reflexivity|]. split; [discriminate|]. reflexivity.
Qed.

(** The words of an encoded advertisement: the checksum field is the last. *)
Lemma wordSum_writeAdvertisement (c : Z) (a : Advertisement) :
  0 <= c < 65536 ->
  wordSum (writeAdvertisement (setChecksum c a))
  = wordSum (writeAdvertisement (setChecksum 0 a)) + c.
Proof.
  intros Hc. unfold writeAdvertisement, setChecksum. cbn [VersionType VRID Priority CountIPAddrs AdvertInt Checksum].
  cbn [app]. unfold putUint16 at 1 3. cbn [app wordSum].
  fold (putUint16 c). fold (putUint16 0).
  rewrite (wordSum_putUint16 c) by exact Hc.
  rewrite (wordSum_putUint16 0) by lia. lia.
Qed.

Lemma writeAdvertisement_length (a : Advertisement) :
  length (writeAdvertisement a) = 8%nat.
Proof. reflexivity. Qed.

(** The arithmetic heart of the checksum: adding the complement of the
    folded sum gives a sum that folds to [0xffff]. *)
Lemma fold_after_fill (S0 : Z) :
  0 <= S0 -> S0 + 65535 < 2 ^ 32 ->
  foldCarries foldFuel (S0 + (65535 - foldCarries foldFuel S0)) = 65535.
Proof.
  intros H0 Hlt.
  destruct (foldCarries_spec S0 ltac:(lia)) as (Fr & Fm & Fz).
  cbv zeta in *. set (F0 := foldCarries foldFuel S0) in *.
  destruct (foldCarries_spec (S0 + (65535 - F0)) ltac:(lia)) as (Gr & Gm & Gz).
  cbv zeta in *. set (F1 := foldCarries foldFuel (S0 + (65535 - F0))) in *.
  assert (Hmod : (S0 + (65535 - F0)) mod 65535 = 0).
  { revert Fm. Z.div_mod_to_equations. lia. }
  rewrite Hmod in Gm.
  assert (F1 <> 0) by (intros E; apply Gz in E; lia).
  revert Gm. Z.div_mod_to_equations. lia.
Qed.

(** Filling the checksum field with the value computed over the zeroed
    field makes the advertisement verify, whatever pseudo-header applies. *)
Lemma checksum_fill (a : Advertisement) (s d : net.IP) (c : Z) :
  checksum (setChecksum 0 a) s d = Ok c ->
  0 <= c <= 65535 /\ checksum (setChecksum c a) s d = Ok 0.
Proof.
  unfold checksum, bind. destruct (pseudoHeader s d) as [hdr|e] eqn:Eh; [|discriminate].
  intros H. inversion H as [Hc]; clear H.
  destruct (pseudoHeader_shape _ _ _ Eh) as [Heven Hlen].
  pose proof (wordSum_bounds (hdr ++ writeAdvertisement (setChecksum 0 a))) as Hb0.
  rewrite length_app, writeAdvertisement_length in Hb0.
  assert (Hsmall : wordSum (hdr ++ writeAdvertisement (setChecksum 0 a)) + 65535 < 2 ^ 32).
  { change (2 ^ 32) with 4294967296. lia. }
  destruct (ipChecksum_value (hdr ++ writeAdvertisement (setChecksum 0 a)) ltac:(lia))
    as [Hv Hr].
  split; [exact Hr|]. f_equal.
  set (S0 := wordSum (hdr ++ writeAdvertisement (setChecksum 0 a))) in *.
  assert (HS1 : wordSum (hdr ++ writeAdvertisement
                  (setChecksum (ipChecksum (hdr ++ writeAdvertisement (setChecksum 0 a))) a))
                = S0 + (65535 - foldCarries foldFuel S0)).
  { rewrite wordSum_app by exact Heven.
    rewrite wordSum_writeAdvertisement by lia.
    unfold S0 at 1. rewrite wordSum_app by exact Heven. lia. }
  destruct (ipChecksum_value (hdr ++ writeAdvertisement
              (setChecksum (ipChecksum (hdr ++ writeAdvertisement (setChecksum 0 a))) a)))
    as [Hv1 _].
  { rewrite HS1. lia. }
  rewrite Hv1, HS1, fold_after_fill by lia. reflexivity.
Qed.

(** C1.  For every advertisement and every pair of endpoints of one family,
    [checksum] over the advertisement with its checksum field zeroed returns
    a value [c], the RFC 1071 checksum of the pseudo-header of that family
    followed by the encoded advertisement; once the field is set to [c], the
    RFC 1071 checksum over the same bytes is 0 (their words are not all zero
    and sum to a multiple of 65535), and so are what [ipChecksum] computes
    and what [checksum] returns. *)
Theorem checksum_self_consistent (a : Advertisement) (s d : net.IP) :
  sameFamily s d ->
  exists c hdr,
    checksum (setChecksum 0 a) s d = Ok c /\
    0 <= c <= 65535 /\
    pseudoHeader s d = Ok hdr /\
    (forall s4 d4, net.To4 s = Some s4 -> net.To4 d = Some d4 ->
       hdr = writeIPv4PseudoHeader s4 d4) /\
    (net.To4 s = None -> net.To4 d = None -> hdr = writeIPv6PseudoHeader s d) /\
    ipChecksum (hdr ++ writeAdvertisement (setChecksum c a)) = 0 /\
    checksum (setChecksum c a) s d = Ok 0 /\
    c = rfc1071 (hdr ++ writeAdvertisement (setChecksum 0 a)) /\
    rfc1071 (hdr ++ writeAdvertisement (setChecksum c a)) = 0 /\
    wordSum (hdr ++ writeAdvertisement (setChecksum c a)) mod 65535 = 0 /\
    wordSum (hdr ++ writeAdvertisement (setChecksum c a)) <> 0.
Proof.
  intros Hfam.
  destruct (sameFamily_pseudoHeader s d Hfam) as (hdr & Eh & H4 & H6).
  assert (Ec : checksum (setChecksum 0 a) s d
               = Ok (ipChecksum (hdr ++ writeAdvertisement (setChecksum 0 a)))).
  { unfold checksum, bind. rewrite Eh. reflexivity. }
  destruct (checksum_fill a s d _ Ec) as [Hr Hz].
  destruct (pseudoHeader_shape _ _ _ Eh) as [_ Hlen].
  assert (Hshort : forall x, wordSum (hdr ++ writeAdvertisement x) < 2 ^ 32).
  { intros x. pose proof (wordSum_bounds (hdr ++ writeAdvertisement x)) as Hb.
    rewrite length_app, writeAdvertisement_length in Hb.
    change (2 ^ 32) with 4294967296. lia. }
  assert (Hz' : ipChecksum
                  (hdr ++ writeAdvertisement
                     (setChecksum
                        (ipChecksum (hdr ++ writeAdvertisement (setChecksum 0 a))) a))
                = 0).
  { unfold checksum, bind in Hz. rewrite Eh in Hz. congruence. }
  exists (ipChecksum (hdr ++ writeAdvertisement (setChecksum 0 a))), hdr.
  split; [exact Ec|]. split; [exact Hr|]. split; [exact Eh|].
  split; [exact H4|]. split; [exact H6|]. split; [exact Hz'|].
  split; [exact Hz|]. split; [apply ipChecksum_rfc1071, Hshort|].
  assert (R0 : rfc1071
                 (hdr ++ writeAdvertisement
                    (setChecksum
                       (ipChecksum (hdr ++ writeAdvertisement (setChecksum 0 a))) a))
               = 0).
  { rewrite <- ipChecksum_rfc1071 by apply Hshort. exact Hz'. }
  split; [exact R0|]. apply rfc1071_zero_iff. exact R0.
Qed.

Lemma checksum_self_consistent_witness :
  exists c hdr,
    checksum (setChecksum 0 sampleAdvert) ipA ipB = Ok c /\
    0 <= c <= 65535 /\
    pseudoHeader ipA ipB = Ok hdr /\
    (forall s4 d4, net.To4 ipA = Some s4 -> net.To4 ipB = Some d4 ->
       hdr = writeIPv4PseudoHeader s4 d4) /\
    (net.To4 ipA = None -> net.To4 ipB = None -> hdr = writeIPv6PseudoHeader ipA ipB) /\
    ipChecksum (hdr ++ writeAdvertisement (setChecksum c sampleAdvert)) = 0 /\
    checksum (setChecksum c sampleAdvert) ipA ipB = Ok 0 /\
    c = rfc1071 (hdr ++ writeAdvertisement (setChecksum 0 sampleAdvert)) /\
    rfc1071 (hdr ++ writeAdvertisement (setChecksum c sampleAdvert)) = 0 /\
    wordSum (hdr ++ writeAdvertisement (setChecksum c sampleAdvert)) mod 65535 = 0 /\
    wordSum (hdr ++ writeAdvertisement (setChecksum c sampleAdvert)) <> 0.
Proof.
  apply (checksum_self_consistent sampleAdvert ipA ipB).
  left. split; discriminate.
Defined.

(* ================================================================== *)
(** * The node: master-down interval                                    *)
(* ================================================================== *)

Lemma int64_small (z : Z) : - 2 ^ 63 <= z <= maxInt64 -> int64 z = z.
Proof.
  unfold int64, maxInt64. intros H.
  rewrite Z.mod_small; lia.
Qed.

(** Within the range of [int64] the code computes the RFC formula. *)
Lemma masterDownIntervalOf_spec (p I : Z) :
  0 <= p <= 255 -> 0 <= I ->
  (256 - p) * I <= maxInt64 -> masterDownSpec p I <= maxInt64 ->
  masterDownIntervalOf p I = masterDownSpec p I.
Proof.
  unfold masterDownIntervalOf, skewTimeOf, masterDownSpec, maxInt64.
  intros Hp HI Hprod Hsum.
  assert (Hq : 0 <= (256 - p) * I / 256) by (apply Z.div_pos; nia).
  rewrite (int64_small (256 - p)) by (unfold maxInt64; lia).
  rewrite (int64_small ((256 - p) * I)) by (unfold maxInt64; nia).
  rewrite Z.quot_div_nonneg by nia.
  rewrite (int64_small (3 * I)) by (unfold maxInt64; lia).
  apply int64_small. unfold maxInt64. lia.
Qed.

Lemma resetMasterDownInterval_value (n : Node) (I : time.Duration) :
  masterDownInterval (resetMasterDownInterval n I)
  = masterDownIntervalOf (nodePriority n) I.
Proof.
  unfold resetMasterDownInterval.
  destruct (Z.eqb_spec (masterDownIntervalOf (nodePriority n) I) (masterDownInterval n)) as [E|N];
    cbn; [symmetry; exact E | reflexivity].
Qed.

Lemma resetMasterDownInterval_frame (n : Node) (I : time.Duration) :
  config (resetMasterDownInterval n I) = config n /\
  haStatus (resetMasterDownInterval n I) = haStatus n /\
  lastMasterAdvertTime (resetMasterDownInterval n I) = lastMasterAdvertTime n /\
  recvChannel (resetMasterDownInterval n I) = recvChannel n.
Proof.
  unfold resetMasterDownInterval.
  destruct (negb _); cbn; repeat split.
Qed.

(** Which branch [backupHandleAdvertisement] takes, in the order it tests. *)
Lemma backupHandleAdvertisement_branches (n : Node) (a : Advertisement) (now : time.Time) :
  (VersionType a <> 0x31 -> backupHandleAdvertisement n a now = (seesaw.HABackup, n)) /\
  (VersionType a = 0x31 -> VRID a <> nodeVRID n ->
     backupHandleAdvertisement n a now = (seesaw.HABackup, n)) /\
  (VersionType a = 0x31 -> VRID a = nodeVRID n -> Priority a = 0 ->
     backupHandleAdvertisement n a now = (seesaw.HAMaster, n)) /\
  (VersionType a = 0x31 -> VRID a = nodeVRID n -> Priority a <> 0 ->
     Preempt (config n) = true -> Priority a < nodePriority n ->
     backupHandleAdvertisement n a now = (seesaw.HAMaster, n)) /\
  (acceptedInBackup n a ->
     backupHandleAdvertisement n a now
     = (seesaw.HABackup,
        withLastMasterAdvertTime now
          (resetMasterDownInterval n
             (int64 (time.Millisecond * uint16 (10 * AdvertInt a)))))).
Proof.
  unfold backupHandleAdvertisement, acceptedInBackup.
  change vrrpVersionType with 49. change 0x31 with 49.
  repeat split.
  - intros H. apply Z.eqb_neq in H. rewrite H. reflexivity.
  - intros H1 H2. apply Z.eqb_eq in H1. apply Z.eqb_neq in H2.
    rewrite H1, H2. reflexivity.
  - intros H1 H2 H3. apply Z.eqb_eq in H1, H2, H3. rewrite H1, H2, H3. reflexivity.
  - intros H1 H2 H3 H4 H5. apply Z.eqb_eq in H1, H2. apply Z.eqb_neq in H3.
    apply Z.ltb_lt in H5. rewrite H1, H2, H3, H4, H5. reflexivity.
  - intros (H1 & H2 & H3 & H4). apply Z.eqb_eq in H1, H2. apply Z.eqb_neq in H3.
    rewrite H1, H2, H3. cbn [negb].
    destruct (Preempt (config n)) eqn:Ep; cbn [andb]; [|reflexivity].
    destruct (Z.ltb_spec (Priority a) (nodePriority n)) as [Hlt|Hge]; [|reflexivity].
    exfalso. apply H4. split; [reflexivity | exact Hlt].
Qed.

(** The peer's interval, in centiseconds, as the duration the code passes
    on: exact while [10*AdvertInt] fits sixteen bits. *)
Lemma advertInt_duration (a : Advertisement) :
  0 <= AdvertInt a <= 6553 ->
  int64 (time.Millisecond * uint16 (10 * AdvertInt a))
  = AdvertInt a * (10 * time.Millisecond).
Proof.
  intros H. unfold uint16, time.Millisecond.
  rewrite Z.mod_small by (change (2 ^ 16) with 65536; lia).
  rewrite int64_small by (unfold maxInt64; lia). lia.
Qed.

(* ================================================================== *)
(** * The node: advertisements in MASTER and BACKUP                     *)
(* ================================================================== *)

Lemma masterHandleAdvertisement_branches (n : Node) (a : Advertisement) (now : time.Time) :
  (VersionType a <> 0x31 \/ VRID a <> nodeVRID n ->
     masterHandleAdvertisement n a now = (seesaw.HAMaster, n)) /\
  (VersionType a = 0x31 -> VRID a = nodeVRID n ->
     (Priority a = nodePriority n ->
        masterHandleAdvertisement n a now = (seesaw.HAMaster, n)) /\
     (Priority a > nodePriority n ->
        masterHandleAdvertisement n a now
        = (seesaw.HABackup, withLastMasterAdvertTime now n)) /\
     (Priority a < nodePriority n ->
        masterHandleAdvertisement n a now = (seesaw.HAMaster, n))).
Proof.
  unfold masterHandleAdvertisement.
  change vrrpVersionType with 49. change 0x31 with 49.
  split.
  - intros [H|H].
    + apply Z.eqb_neq in H. rewrite H. reflexivity.
    + destruct (Z.eqb (VersionType a) 49); [|reflexivity].
      apply Z.eqb_neq in H. rewrite H. reflexivity.
  - intros H1 H2. apply Z.eqb_eq in H1, H2. rewrite H1, H2. cbn [negb].
    repeat split; intros H.
    + apply Z.eqb_eq in H. rewrite H. reflexivity.
    + destruct (Z.eqb_spec (Priority a) (nodePriority n)); [lia|].
      destruct (Z.gtb_spec (Priority a) (nodePriority n)); [reflexivity | lia].
    + destruct (Z.eqb_spec (Priority a) (nodePriority n)); [lia|].
      destruct (Z.gtb_spec (Priority a) (nodePriority n)); [lia | reflexivity].
Qed.

Lemma doMasterTasks_recv (n : Node) (a : Advertisement) (rest : list Advertisement)
    (now : time.Time) :
  queue (recvChannel n) = a :: rest ->
  doMasterTasks n CaseRecv now
  = Some (masterHandleAdvertisement
            (withRecvChannel {| queue := rest; capacity := capacity (recvChannel n) |} n)
            a now).
Proof.
  intros Hq. unfold doMasterTasks, tryRecv. rewrite Hq. reflexivity.
Qed.

(** C3.  A MASTER node that takes an advertisement from its queue: a wrong
    version/type or VRID, a priority equal to its own, or a lower priority
    leave it MASTER (the pass of the run loop changes nothing but the queue);
    a strictly higher priority sets [lastMasterAdvertTime] to the current
    time and makes the node BACKUP. *)
Theorem master_handles_advertisement (n : Node) (a : Advertisement)
    (rest : list Advertisement) (now now' : time.Time) :
  state n = seesaw.HAMaster ->
  queue (recvChannel n) = a :: rest ->
  let n0 := withRecvChannel {| queue := rest; capacity := capacity (recvChannel n) |} n in
  state n0 = seesaw.HAMaster /\
  lastMasterAdvertTime n0 = lastMasterAdvertTime n /\
  (VersionType a <> 0x31 \/ VRID a <> nodeVRID n ->
     doMasterTasks n CaseRecv now = Some (seesaw.HAMaster, n0) /\
     runOnce n CaseRecv now now' = Some (n0, [], None)) /\
  (VersionType a = 0x31 -> VRID a = nodeVRID n ->
     (Priority a = nodePriority n ->
        doMasterTasks n CaseRecv now = Some (seesaw.HAMaster, n0) /\
        runOnce n CaseRecv now now' = Some (n0, [], None)) /\
     (Priority a > nodePriority n ->
        doMasterTasks n CaseRecv now
        = Some (seesaw.HABackup, withLastMasterAdvertTime now n0) /\
        exists n1,
          runOnce n CaseRecv now now'
          = Some (n1, [EngineHAState seesaw.HABackup; StopSender seesaw.HABackup], None) /\
          state n1 = seesaw.HABackup /\
          lastMasterAdvertTime n1 = now) /\
     (Priority a < nodePriority n ->
        doMasterTasks n CaseRecv now = Some (seesaw.HAMaster, n0) /\
        runOnce n CaseRecv now now' = Some (n0, [], None))).
Proof.
  intros Hst Hq n0.
  pose proof (doMasterTasks_recv n a rest now Hq) as Hdo. fold n0 in Hdo.
  destruct (masterHandleAdvertisement_branches n0 a now) as [Hbad Hgood].
  change (nodeVRID n0) with (nodeVRID n) in *.
  change (nodePriority n0) with (nodePriority n) in *.
  assert (Hstay : masterHandleAdvertisement n0 a now = (seesaw.HAMaster, n0) ->
                  doMasterTasks n CaseRecv now = Some (seesaw.HAMaster, n0) /\
                  runOnce n CaseRecv now now' = Some (n0, [], None)).
  { intros E. rewrite E in Hdo. split; [exact Hdo|].
    unfold runOnce. rewrite Hst, Hdo. reflexivity. }
  split; [exact Hst|]. split; [reflexivity|]. split.
  - intros H. apply Hstay, Hbad, H.
  - intros H1 H2. destruct (Hgood H1 H2) as (Heq & Hgt & Hlt).
    split; [|split].
    + intros H. apply Hstay, Heq, H.
    + intros H. split.
      * rewrite Hdo. f_equal. apply Hgt, H.
      * exists (setState (withLastMasterAdvertTime now n0) seesaw.HABackup now').
        split; [|split].
        -- unfold runOnce. rewrite Hst, Hdo, (Hgt H). reflexivity.
        -- unfold state, setState, setStatus. cbn.
           unfold state in Hst. rewrite Hst. reflexivity.
        -- reflexivity.
    + intros H. apply Hstay, Hlt, H.
Qed.

Lemma master_handles_advertisement_witness :
  exists n1,
    runOnce sampleMaster CaseRecv 5 6
    = Some (n1, [EngineHAState seesaw.HABackup; StopSender seesaw.HABackup], None) /\
    state n1 = seesaw.HABackup /\ lastMasterAdvertTime n1 = 5.
Proof.
  destruct (master_handles_advertisement sampleMaster (setPriority 150 sampleAdvert)
              [] 5 6 eq_refl eq_refl) as (_ & _ & _ & H).
  destruct (H eq_refl eq_refl) as (_ & Hgt & _).
  apply Hgt. reflexivity.
Defined.

(** C2 (the code at a failing input).  A BACKUP node of priority 100 takes
    an advertisement of its own VRID whose [AdvertInt] is 6554 centiseconds
    (65.54 s).  The advertisement reaches the last branch, and the node stays
    BACKUP with [lastMasterAdvertTime] set to the current time; but the
    [uint16] product [10*advert.AdvertInt] wraps to 4, so the master-down
    interval is the one of a 4 ms advertisement interval (14.4375 ms) and not
    the one of the advertised 65.54 s (236.5584375 s). *)
Theorem backup_advertInt_wraps (now : time.Time) :
  acceptedInBackup sampleBackup longIntervalAdvert /\
  fst (backupHandleAdvertisement sampleBackup longIntervalAdvert now) = seesaw.HABackup /\
  lastMasterAdvertTime (snd (backupHandleAdvertisement sampleBackup longIntervalAdvert now))
  = now /\
  masterDownInterval (snd (backupHandleAdvertisement sampleBackup longIntervalAdvert now))
  = masterDownSpec 100 (4 * time.Millisecond) /\
  masterDownSpec 100 (4 * time.Millisecond) = 14437500 /\
  masterDownSpec 100 (AdvertInt longIntervalAdvert * (10 * time.Millisecond))
  = 236558437500.
Proof.
  split.
  - unfold acceptedInBackup. cbn. repeat split; try lia; intros [H _]; discriminate H.
  - repeat split.
Qed.

(** C4 (as amended).  For a priority [p] of the node and an interval
    [I >= 0] for which [(256 - p) * I] and [3 * I + ((256 - p) * I) / 256]
    fit a signed 64-bit count of nanoseconds (every [I] below [2^55] does),
    [resetMasterDownInterval] leaves the master-down interval equal to
    [3 * I + ((256 - p) * I) / 256]; [NewNode] sets it so from the configured
    interval; and a BACKUP node that accepts an advertisement whose
    [AdvertInt] is at most 6553 recomputes it so from [AdvertInt * 10 ms]. *)
Theorem masterDownInterval_formula (n : Node) :
  0 <= nodePriority n <= 255 ->
  (forall I, 0 <= I -> (256 - nodePriority n) * I <= maxInt64 ->
     masterDownSpec (nodePriority n) I <= maxInt64 ->
     masterDownInterval (resetMasterDownInterval n I)
     = masterDownSpec (nodePriority n) I) /\
  (forall I, 0 <= I < 2 ^ 55 ->
     masterDownInterval (resetMasterDownInterval n I)
     = masterDownSpec (nodePriority n) I) /\
  (forall now now', 0 <= MasterAdvertInterval (config n) < 2 ^ 55 ->
     masterDownInterval (NewNode (config n) now now')
     = masterDownSpec (nodePriority n) (MasterAdvertInterval (config n))) /\
  (forall a now, acceptedInBackup n a -> 0 <= AdvertInt a <= 6553 ->
     masterDownInterval (snd (backupHandleAdvertisement n a now))
     = masterDownSpec (nodePriority n) (AdvertInt a * (10 * time.Millisecond))).
Proof.
  intros Hp.
  assert (Hexact : forall I, 0 <= I -> (256 - nodePriority n) * I <= maxInt64 ->
            masterDownSpec (nodePriority n) I <= maxInt64 ->
            masterDownIntervalOf (nodePriority n) I = masterDownSpec (nodePriority n) I).
  { intros I H0 H1 H2. apply masterDownIntervalOf_spec; assumption. }
  assert (Hbelow : forall I, 0 <= I < 2 ^ 55 ->
            masterDownIntervalOf (nodePriority n) I = masterDownSpec (nodePriority n) I).
  { intros I HI. change (2 ^ 55) with 36028797018963968 in HI.
    assert (Hprod : (256 - nodePriority n) * I <= 256 * I) by nia.
    assert (Hquot : (256 - nodePriority n) * I / 256 <= I).
    { apply Z.div_le_upper_bound; lia. }
    apply Hexact; unfold masterDownSpec, maxInt64;
      change (2 ^ 63) with 9223372036854775808; lia. }
  split; [|split; [|split]].
  - intros I H0 H1 H2. rewrite resetMasterDownInterval_value. apply Hexact; assumption.
  - intros I HI. rewrite resetMasterDownInterval_value. apply Hbelow, HI.
  - intros now now' HI. unfold NewNode.
    rewrite resetMasterDownInterval_value. apply Hbelow, HI.
  - intros a now Hacc Ha.
    destruct (backupHandleAdvertisement_branches n a now) as (_ & _ & _ & _ & Hlast).
    rewrite (Hlast Hacc). cbn [snd].
    change (masterDownInterval (withLastMasterAdvertTime now ?x))
      with (masterDownInterval x).
    rewrite resetMasterDownInterval_value, advertInt_duration by exact Ha.
    apply Hbelow. change (2 ^ 55) with 36028797018963968.
    unfold time.Millisecond. lia.
Qed.

Lemma masterDownInterval_formula_witness :
  masterDownInterval
    (snd (backupHandleAdvertisement sampleBackup (setPriority 150 sampleAdvert) 9))
  = masterDownSpec 100 (100 * (10 * time.Millisecond)).
Proof.
  assert (Hp : 0 <= nodePriority sampleBackup <= 255) by (cbn; lia).
  destruct (masterDownInterval_formula sampleBackup Hp) as (_ & _ & _ & H).
  apply (H (setPriority 150 sampleAdvert) 9).
  - unfold acceptedInBackup. cbn. repeat split; try lia; intros [Hpre _]; discriminate Hpre.
  - cbn. lia.
Defined.

(** C4 (the claim as stated fails).  With priority 100 and an interval of
    [2^62] ns the [int64] arithmetic wraps: the stored master-down interval
    is not [3 * I + ((256 - p) * I) / 256]. *)
Lemma masterDownInterval_wraps :
  masterDownInterval (resetMasterDownInterval sampleBackup (2 ^ 62))
  <> masterDownSpec (nodePriority sampleBackup) (2 ^ 62).
Proof. vm_compute. intros H. discriminate H. Qed.

(** C5 (as amended).  With priority 100 and an advertisement interval of
    one second the master-down interval is 3 609 375 000 ns, that is
    3609.375 ms, and 3609 ms once divided down to whole milliseconds; a node
    built by [NewNode] with that configuration holds this value. *)
Theorem masterDownInterval_priority100_1s (now now' : time.Time) :
  masterDownIntervalOf 100 time.Second = 3609375000 /\
  masterDownSpec 100 time.Second = 3609375000 /\
  8 * masterDownIntervalOf 100 time.Second = 28875 * time.Millisecond /\
  Z.quot (masterDownIntervalOf 100 time.Second) time.Millisecond = 3609 /\
  masterDownInterval (NewNode sampleConfig now now') = 3609375000.
Proof. repeat split. Qed.

(** C5 (the claim as stated fails).  The interval is neither 1609.375 ms
    nor, in whole milliseconds, 1609 ms. *)
Lemma masterDownInterval_not_1609ms :
  8 * masterDownInterval (resetMasterDownInterval sampleBackup time.Second)
  <> 12875 * time.Millisecond /\
  Z.quot (masterDownInterval (resetMasterDownInterval sampleBackup time.Second))
         time.Millisecond
  <> 1609.
Proof. split; vm_compute; intros H; discriminate H. Qed.

Lemma doBackupTasks_recv (n : Node) (a : Advertisement) (rest : list Advertisement)
    (now : time.Time) :
  queue (recvChannel n) = a :: rest ->
  doBackupTasks n CaseRecv now
  = Some (backupHandleAdvertisement
            (withRecvChannel {| queue := rest; capacity := capacity (recvChannel n) |} n)
            a now).
Proof.
  intros Hq. unfold doBackupTasks, tryRecv. rewrite Hq. reflexivity.
Qed.

(** X1.  A BACKUP node that takes an advertisement from its queue applies
    the tests in the order of the source: wrong version/type, wrong VRID (both
    leave the node as it is), priority 0 and preemption of a lower priority
    (both make it MASTER); any other advertisement leaves it BACKUP with
    [lastMasterAdvertTime] set to the current time and the master-down
    interval recomputed from [uint16(10*AdvertInt)] milliseconds, which is
    the advertised interval while [AdvertInt <= 6553]. *)
Theorem backup_handles_advertisement (n : Node) (a : Advertisement)
    (rest : list Advertisement) (now now' : time.Time) :
  state n = seesaw.HABackup ->
  queue (recvChannel n) = a :: rest ->
  let n0 := withRecvChannel {| queue := rest; capacity := capacity (recvChannel n) |} n in
  (VersionType a <> 0x31 \/ VRID a <> nodeVRID n ->
     runOnce n CaseRecv now now' = Some (n0, [], None)) /\
  (VersionType a = 0x31 -> VRID a = nodeVRID n ->
     (Priority a = 0 \/ (Preempt (config n) = true /\ Priority a < nodePriority n) ->
        runOnce n CaseRecv now now'
        = Some (setState n0 seesaw.HAMaster now',
                [EngineHAState seesaw.HAMaster; StartSender], None) /\
        state (setState n0 seesaw.HAMaster now') = seesaw.HAMaster) /\
     (Priority a <> 0 ->
      ~ (Preempt (config n) = true /\ Priority a < nodePriority n) ->
        exists n1,
          runOnce n CaseRecv now now' = Some (n1, [], None) /\
          state n1 = seesaw.HABackup /\
          lastMasterAdvertTime n1 = now /\
          masterDownInterval n1
          = masterDownIntervalOf (nodePriority n)
              (int64 (time.Millisecond * uint16 (10 * AdvertInt a))) /\
          (0 <= AdvertInt a <= 6553 -> 0 <= nodePriority n <= 255 ->
             masterDownInterval n1
             = masterDownSpec (nodePriority n) (AdvertInt a * (10 * time.Millisecond))))).
Proof.
  intros Hst Hq n0.
  pose proof (doBackupTasks_recv n a rest now Hq) as Hdo. fold n0 in Hdo.
  destruct (backupHandleAdvertisement_branches n0 a now) as (B1 & B2 & B3 & B4 & B5).
  unfold acceptedInBackup in B5.
  change (nodeVRID n0) with (nodeVRID n) in *.
  change (nodePriority n0) with (nodePriority n) in *.
  change (config n0) with (config n) in *.
  assert (Hrun : forall s m, backupHandleAdvertisement n0 a now = (s, m) ->
            runOnce n CaseRecv now now'
            = match s with
              | seesaw.HABackup => Some (m, [], None)
              | seesaw.HAMaster =>
                  Some (setState m seesaw.HAMaster now',
                        [EngineHAState seesaw.HAMaster; StartSender], None)
              | seesaw.HAShutdown =>
                  let (m', fx) := becomeShutdown m now' in Some (m', fx, None)
              | _ => Some (m, [], Some (Errorf "runOnce: Can't handle transition"))
              end).
  { intros s m E. unfold runOnce. rewrite Hst, Hdo, E. destruct s; reflexivity. }
  split.
  - intros Hbad.
    destruct (Z.eq_dec (VersionType a) 0x31) as [E|N].
    + destruct Hbad as [H|H]; [contradiction|].
      apply (Hrun _ _ (B2 E H)).
    + apply (Hrun _ _ (B1 N)).
  - intros H1 H2. split.
    + intros Hm.
      assert (E : backupHandleAdvertisement n0 a now = (seesaw.HAMaster, n0)).
      { destruct (Z.eq_dec (Priority a) 0) as [P0|PN]; [apply B3; assumption|].
        destruct Hm as [P0|[Hpre Hlt]]; [contradiction|]. apply B4; assumption. }
      split; [apply (Hrun _ _ E)|].
      unfold state, setState, setStatus. cbn.
      unfold state in Hst. rewrite Hst. reflexivity.
    + intros HP HnP.
      pose proof (B5 (conj H1 (conj H2 (conj HP HnP)))) as E.
      eexists. split; [apply (Hrun _ _ E)|].
      destruct (resetMasterDownInterval_frame n0
                  (int64 (time.Millisecond * uint16 (10 * AdvertInt a))))
        as (_ & Fs & _ & _).
      split; [|split; [|split]].
      * unfold state. cbn [withLastMasterAdvertTime haStatus]. rewrite Fs. exact Hst.
      * reflexivity.
      * cbn [withLastMasterAdvertTime masterDownInterval].
        rewrite resetMasterDownInterval_value. reflexivity.
      * intros Ha Hp. cbn [withLastMasterAdvertTime masterDownInterval].
        rewrite resetMasterDownInterval_value, advertInt_duration by exact Ha.
        change (nodePriority n0) with (nodePriority n).
        assert (Hle : (256 - nodePriority n) * (AdvertInt a * (10 * 1000000)) / 256
                     <= AdvertInt a * (10 * 1000000))
          by (apply Z.div_le_upper_bound; nia).
        apply masterDownIntervalOf_spec;
          unfold masterDownSpec, maxInt64, time.Millisecond;
          change (2 ^ 63) with 9223372036854775808; nia.
Qed.

Lemma backup_handles_advertisement_witness :
  runOnce (withRecvChannel {| queue := [setPriority 0 sampleAdvert]; capacity := 20 |}
             sampleBackup) CaseRecv 5 6
  = Some (setState (withRecvChannel {| queue := []; capacity := 20 |} sampleBackup)
            seesaw.HAMaster 6,
          [EngineHAState seesaw.HAMaster; StartSender], None).
Proof.
  destruct (backup_handles_advertisement
              (withRecvChannel {| queue := [setPriority 0 sampleAdvert]; capacity := 20 |}
                 sampleBackup)
              (setPriority 0 sampleAdvert) [] 5 6 eq_refl eq_refl) as [_ H].
  destruct (H eq_refl eq_refl) as [Hm _].
  apply Hm. left. reflexivity.
Defined.

(* ================================================================== *)
(** * The transport: receive                                            *)
(* ================================================================== *)

Lemma readAdvertisement_eight (p : list byte) :
  length p = 8%nat ->
  exists advert, readAdvertisement p = Ok advert /\ writeAdvertisement advert = p.
Proof.
  intros Hlen.
  do 8 (destruct p as [|? p]; [discriminate Hlen|]).
  destruct p; [|discriminate Hlen].
  eexists. split; [reflexivity|].
  unfold writeAdvertisement.
  cbn [VersionType VRID Priority CountIPAddrs AdvertInt Checksum].
  rewrite !putUint16_getUint16, !toByte_byteZ. reflexivity.
Qed.

Lemma isIP_To16 (ip : net.IP) : isIP ip -> exists x, net.To16 ip = Some x.
Proof.
  unfold net.To16. intros [H|H]; rewrite H; cbn; eexists; reflexivity.
Qed.

Lemma isIP_pseudoHeader (s d : net.IP) :
  isIP s -> isIP d -> exists hdr, pseudoHeader s d = Ok hdr.
Proof.
  intros Hs Hd. unfold pseudoHeader.
  destruct (isIP_To16 s Hs) as [s16 Es]. destruct (isIP_To16 d Hd) as [d16 Ed].
  rewrite Es, Ed.
  destruct (net.To4 s), (net.To4 d); eexists; reflexivity.
Qed.

Lemma scanControl_cons (sc : syscall.SocketControlMessage)
    (rest : list syscall.SocketControlMessage) (dst : option net.IP) (ttl : Z)
    (haveTTL : bool) :
  scanControl (sc :: rest) dst ttl haveTTL
  = if negb (Z.eqb (syscall.Level sc) syscall.IPPROTO_IPV6)
    then scanControl rest dst ttl haveTTL
    else if Z.eqb (syscall.Type_ sc) syscall.IPV6_2292HOPLIMIT then
      match syscall.Data sc with
      | [] => Err (Errorf "IPHAConn.readIPv6Packet: Invalid HOPLIMIT")
      | d0 :: _ => scanControl rest dst (byteZ d0) true
      end
    else if Z.eqb (syscall.Type_ sc) syscall.IPV6_2292PKTINFO then
      if Nat.ltb (length (syscall.Data sc)) 16
      then Err (Errorf "IPHAConn.readIPv6Packet: Invalid destination address")
      else scanControl rest (Some (firstn 16 (syscall.Data sc))) ttl haveTTL
    else scanControl rest dst ttl haveTTL.
Proof. reflexivity. Qed.

Lemma scanControl_dst (scm : list syscall.SocketControlMessage) :
  forall dst0 ttl0 have0 dst1 ttl1 have1,
    scanControl scm dst0 ttl0 have0 = Ok (Some dst1, ttl1, have1) ->
    (forall x, dst0 = Some x -> length x = 16%nat) ->
    length dst1 = 16%nat.
Proof.
  induction scm as [|sc rest IH]; intros dst0 ttl0 have0 dst1 ttl1 have1 H Hinv.
  - cbn in H. inversion H; subst. apply Hinv. reflexivity.
  - rewrite scanControl_cons in H.
    destruct (negb (Z.eqb (syscall.Level sc) syscall.IPPROTO_IPV6)).
    { eapply IH; eassumption. }
    destruct (Z.eqb (syscall.Type_ sc) syscall.IPV6_2292HOPLIMIT).
    { destruct (syscall.Data sc); [discriminate H|]. eapply IH; eassumption. }
    destruct (Z.eqb (syscall.Type_ sc) syscall.IPV6_2292PKTINFO).
    { destruct (Nat.ltb_spec (length (syscall.Data sc)) 16) as [Hlt|Hge];
        [discriminate H|].
      eapply IH; [exact H|].
      intros x Hx.
      assert (Ex : x = firstn 16 (syscall.Data sc)) by congruence.
      rewrite Ex, length_firstn. lia. }
    eapply IH; eassumption.
Qed.

(** The destination of a packet that was read is an address. *)
Lemma readPacket_dst (c : ipHAConn) (io : sockets) (p : packet) :
  readPacket c io = Ok p -> isIP (dst p).
Proof.
  unfold readPacket, readIPv4Packet, readIPv6Packet, bind.
  destruct (Z.eqb (af c) syscall.AF_INET).
  - destruct (Read io) as [b|]; [|discriminate].
    destruct (Z.ltb _ 20); [discriminate|].
    destruct (negb _); [discriminate|].
    destruct (Z.gtb _ _); [discriminate|].
    intros H. inversion H; subst. left. reflexivity.
  - destruct (ReadMsgIP io) as [m|]; [|discriminate].
    destruct (msgControl m) as [scm|]; [|discriminate].
    destruct (scanControl scm None 0 false) as [[[d t] h]|] eqn:Es; [|discriminate].
    destruct d as [d|], h; try discriminate.
    intros H. inversion H; subst. right. cbn.
    eapply scanControl_dst; [exact Es|]. intros x Hx. discriminate Hx.
Qed.

(** What the validation answers for a packet whose addresses give a
    pseudo-header: the three tests after the length test, the checksum being
    taken over the payload bytes as they came. *)
Lemma receivePacket_eight (c : ipHAConn) (p : packet) (hdr : list byte) :
  pseudoHeader (src p) (dst p) = Ok hdr ->
  length (payload p) = 8%nat ->
  exists advert,
    readAdvertisement (payload p) = Ok advert /\
    writeAdvertisement advert = payload p /\
    receivePacket c p
    = if net.Equal (src p) (laddr c) then Ok None
      else if negb (Z.eqb (ttl p) 255) then Ok None
      else if negb (Z.eqb (ipChecksum (hdr ++ payload p)) 0) then Ok None
      else Ok (Some advert).
Proof.
  intros Eh Hlen.
  destruct (readAdvertisement_eight _ Hlen) as (advert & Er & Ew).
  exists advert. split; [exact Er|]. split; [exact Ew|].
  unfold receivePacket, bind. rewrite Hlen, Er. cbn [Nat.eqb vrrpAdvertSize negb].
  unfold checksum, bind. rewrite Eh, Ew. reflexivity.
Qed.

Lemma receivePacket_no_error (c : ipHAConn) (p : packet) (e : error) :
  receivePacket c p <> Err e.
Proof.
  unfold receivePacket, bind.
  destruct (Nat.eqb_spec (length (payload p)) vrrpAdvertSize) as [Hlen|Hlen];
    cbn [negb]; [|discriminate].
  destruct (readAdvertisement_eight _ Hlen) as (advert & Er & _). rewrite Er.
  destruct (net.Equal _ _); [discriminate|].
  destruct (negb _); [discriminate|].
  destruct (checksum _ _ _); [|discriminate].
  destruct (negb _); discriminate.
Qed.

(** C6.  For a packet that was read, whose source is an address: [receive]
    returns [(nil, nil)] exactly when the payload is not eight bytes long,
    or the source equals the local address, or the TTL is not 255, or the
    checksum over the pseudo-header and the payload bytes as received is
    not 0; a packet passing the four tests is returned decoded. *)
Theorem receive_validation (c : ipHAConn) (io : sockets) (p : packet) :
  readPacket c io = Ok p -> isIP (src p) ->
  exists hdr,
    pseudoHeader (src p) (dst p) = Ok hdr /\
    (receive c io = Ok None <->
       length (payload p) <> 8%nat \/ net.Equal (src p) (laddr c) = true \/
       ttl p <> 255 \/ ipChecksum (hdr ++ payload p) <> 0) /\
    (length (payload p) = 8%nat -> net.Equal (src p) (laddr c) = false ->
     ttl p = 255 -> ipChecksum (hdr ++ payload p) = 0 ->
     exists advert,
       readAdvertisement (payload p) = Ok advert /\
       writeAdvertisement advert = payload p /\
       receive c io = Ok (Some advert)).
Proof.
  intros Hread Hsrc.
  destruct (isIP_pseudoHeader _ _ Hsrc (readPacket_dst _ _ _ Hread)) as [hdr Eh].
  exists hdr. split; [exact Eh|].
  assert (Hrecv : receive c io = receivePacket c p)
    by (unfold receive; rewrite Hread; reflexivity).
  rewrite Hrecv.
  destruct (Nat.eq_dec (length (payload p)) 8) as [Hlen|Hlen].
  - destruct (receivePacket_eight c p hdr Eh Hlen) as (advert & Er & Ew & Ev).
    rewrite Ev.
    destruct (net.Equal (src p) (laddr c)) eqn:Eeq.
    { split; [split; auto | intros _ H; discriminate H]. }
    destruct (Z.eqb_spec (ttl p) 255) as [Et|Et]; cbn [negb].
    2:{ split; [split; auto | intros _ _ H; contradiction]. }
    destruct (Z.eqb_spec (ipChecksum (hdr ++ payload p)) 0) as [Ec|Ec]; cbn [negb].
    2:{ split; [split; auto 6 | intros _ _ _ H; contradiction]. }
    split.
    + split; [discriminate|].
      intros [H|[H|[H|H]]]; (contradiction || discriminate).
    + intros _ _ _ _. exists advert. auto.
  - split; [|intros H; contradiction].
    unfold receivePacket.
    destruct (Nat.eqb_spec (length (payload p)) vrrpAdvertSize) as [E|E];
      [contradiction|].
    cbn [negb]. split; auto.
Qed.

Lemma receive_validation_witness :
  receive sampleConn (socketsReading (Ok sampleDatagram))
  = Ok (Some (setChecksum 22047 sampleAdvert)).
Proof.
  destruct (receive_validation sampleConn (socketsReading (Ok sampleDatagram))
              {| src := ipB; dst := ipA; ttl := 255;
                 payload := writeAdvertisement (setChecksum 22047 sampleAdvert) |}
              eq_refl (or_introl eq_refl)) as (hdr & Eh & _ & Hacc).
  vm_compute in Eh. inversion Eh as [Ehdr]. rewrite <- Ehdr in Hacc.
  destruct (Hacc eq_refl eq_refl eq_refl eq_refl) as (advert & Er & _ & Ev).
  vm_compute in Er. inversion Er as [Ea]. rewrite <- Ea in Ev. exact Ev.
Defined.

Lemma readIPv4Packet_malformed (b : list byte) :
  Z.of_nat (length b) < 20 \/
  Z.shiftr (byteZ (nth 0 b x00)) 4 <> 4 \/
  Z.shiftl (Z.land (byteZ (nth 0 b x00)) 15) 2 > Z.of_nat (length b) ->
  exists msg, readIPv4Packet (Ok b) = Err (Errorf msg).
Proof.
  intros H. unfold readIPv4Packet, bind.
  destruct (Z.ltb_spec (Z.of_nat (length b)) 20) as [Hs|Hs]; [eexists; reflexivity|].
  destruct (Z.eqb_spec (Z.shiftr (byteZ (nth 0 b x00)) 4) 4) as [Hv|Hv]; cbn [negb];
    [|eexists; reflexivity].
  destruct (Z.gtb_spec (Z.shiftl (Z.land (byteZ (nth 0 b x00)) 15) 2)
              (Z.of_nat (length b))) as [Hh|Hh]; [eexists; reflexivity|].
  exfalso. destruct H as [H|[H|H]]; lia.
Qed.

(** C7 (as amended).  [receive] returns [(nil, nil)] for an ICMP-borne
    [ENOPROTOOPT] or [EPROTO] (a [*net.OpError] holding that errno), for a
    payload that is not eight bytes long, for a packet from the local
    address, for a TTL other than 255, and for a checksum that is not 0 or
    cannot be computed.  An IPv4 read of fewer than 20 bytes, with a version
    nibble other than 4, or with a header length above the total length
    makes [receive] fail with the error of [readIPv4Packet].  [receive]
    fails only with an error of [readPacket], and never with an
    [ENOPROTOOPT] or [EPROTO] [*net.OpError]. *)
Theorem receive_recoverable (c : ipHAConn) (io : sockets) :
  (forall errno, readPacket c io = Err (OpError (Some errno)) ->
     errno = syscall.ENOPROTOOPT \/ errno = syscall.EPROTO ->
     receive c io = Ok None) /\
  (forall p, readPacket c io = Ok p ->
     length (payload p) <> 8%nat \/ net.Equal (src p) (laddr c) = true \/
     ttl p <> 255 \/
     (forall advert, readAdvertisement (payload p) = Ok advert ->
        checksum advert (src p) (dst p) <> Ok 0) ->
     receive c io = Ok None) /\
  (forall b, af c = syscall.AF_INET -> Read io = Ok b ->
     Z.of_nat (length b) < 20 \/
     Z.shiftr (byteZ (nth 0 b x00)) 4 <> 4 \/
     Z.shiftl (Z.land (byteZ (nth 0 b x00)) 15) 2 > Z.of_nat (length b) ->
     exists msg, readPacket c io = Err (Errorf msg) /\
                 receive c io = Err (Errorf msg)) /\
  (forall e, receive c io = Err e ->
     readPacket c io = Err e /\
     e <> OpError (Some syscall.ENOPROTOOPT) /\ e <> OpError (Some syscall.EPROTO)).
Proof.
  split; [|split; [|split]].
  - intros errno Hread Herr. unfold receive. rewrite Hread.
    destruct Herr as [-> | ->]; reflexivity.
  - intros p Hread Hbad. unfold receive. rewrite Hread.
    unfold receivePacket, bind.
    destruct (Nat.eqb_spec (length (payload p)) vrrpAdvertSize) as [Hlen|Hlen];
      cbn [negb]; [|reflexivity].
    destruct (readAdvertisement_eight _ Hlen) as (advert & Er & _). rewrite Er.
    destruct (net.Equal (src p) (laddr c)) eqn:Eeq; [reflexivity|].
    destruct (Z.eqb_spec (ttl p) 255) as [Et|Et]; cbn [negb]; [|reflexivity].
    destruct (checksum advert (src p) (dst p)) as [ck|] eqn:Ec; [|reflexivity].
    destruct (Z.eqb_spec ck 0) as [E0|E0]; cbn [negb]; [|reflexivity].
    exfalso. destruct Hbad as [H|[H|[H|H]]].
    + apply H, Hlen.
    + discriminate H.
    + apply H, Et.
    + apply (H advert Er). rewrite Ec, E0. reflexivity.
  - intros b Haf Hrd Hbad.
    destruct (readIPv4Packet_malformed b Hbad) as [msg Hmsg].
    assert (Hread : readPacket c io = Err (Errorf msg)).
    { unfold readPacket. rewrite Haf, Hrd. exact Hmsg. }
    exists msg. split; [exact Hread|].
    unfold receive. rewrite Hread. reflexivity.
  - intros e Hrecv. unfold receive in Hrecv.
    destruct (readPacket c io) as [p|e'] eqn:Hread.
    + exfalso. exact (receivePacket_no_error c p e Hrecv).
    + destruct e' as [[errno|]|msg|msg];
        try (inversion Hrecv; subst; repeat split; discriminate).
      destruct (Z.eqb_spec errno syscall.ENOPROTOOPT) as [E1|E1];
        [discriminate Hrecv|].
      destruct (Z.eqb_spec errno syscall.EPROTO) as [E2|E2];
        [discriminate Hrecv|].
      cbn [orb] in Hrecv. inversion Hrecv; subst.
      repeat split; congruence.
Qed.

Lemma receive_recoverable_witness :
  receive sampleConn (socketsReading (Err (OpError (Some syscall.EPROTO)))) = Ok None.
Proof.
  destruct (receive_recoverable sampleConn
              (socketsReading (Err (OpError (Some syscall.EPROTO))))) as (H & _).
  apply (H syscall.EPROTO); [reflexivity | right; reflexivity].
Defined.

(** C7 (the claim as stated fails).  An IPv4 read of ten bytes is a short
    packet, and [receive] fails with an error instead of returning
    [(nil, nil)]. *)
Lemma receive_short_packet_fails :
  receive sampleConn shortRead
  = Err (Errorf "IPHAConn.readIPv4Packet: Packet len is too small") /\
  receive sampleConn shortRead <> Ok None.
Proof. split; [reflexivity | discriminate]. Qed.

(* ================================================================== *)
(** * The node: the receive queue                                       *)
(* ================================================================== *)

Lemma queueAdvertisement_full (n : Node) (advert : Advertisement) :
  chanLen (recvChannel n) = capacity (recvChannel n) ->
  queueAdvertisement n advert = (n, Some errRecvChannelFull).
Proof.
  intros H. unfold queueAdvertisement, trySend. rewrite H, Nat.ltb_irrefl. reflexivity.
Qed.

Lemma queueAdvertisement_room (n : Node) (advert : Advertisement) :
  (chanLen (recvChannel n) < capacity (recvChannel n))%nat ->
  queueAdvertisement n advert
  = (withRecvChannel {| queue := queue (recvChannel n) ++ [advert];
                        capacity := capacity (recvChannel n) |} n, None).
Proof.
  intros H. unfold queueAdvertisement, trySend.
  apply Nat.ltb_lt in H. rewrite H. reflexivity.
Qed.

Lemma receiveAdvertisements_app (l1 l2 : list receiverEvent) :
  forall n,
    receiveAdvertisements n (l1 ++ l2)
    = let '(n1, e1, fin) := receiveAdvertisements n l1 in
      match fin with
      | ReceiverRunning =>
          let '(n2, e2, fin2) := receiveAdvertisements n1 l2 in
          (n2, e1 ++ e2, fin2)
      | _ => (n1, e1, fin)
      end.
Proof.
  induction l1 as [|[r t] l1 IH]; intros n.
  - cbn. destruct (receiveAdvertisements n l2) as [[n2 e2] f2]. reflexivity.
  - cbn [app receiveAdvertisements].
    destruct r as [[a|]|e].
    + destruct (queueAdvertisement _ a) as [m [e|]].
      * destruct t; [|reflexivity]. rewrite IH.
        destruct (receiveAdvertisements m l1) as [[m1 e1] f1].
        destruct f1; try reflexivity.
        destruct (receiveAdvertisements m1 l2) as [[m2 e2] f2]. reflexivity.
      * apply IH.
    + apply IH.
    + destruct t; [|reflexivity]. rewrite IH.
      destruct (receiveAdvertisements n l1) as [[m1 e1] f1].
      destruct f1; try reflexivity.
      destruct (receiveAdvertisements m1 l2) as [[m2 e2] f2]. reflexivity.
Qed.

(** While there is room, the receiver queues what it is given, in order,
    and offers no error: whether one would be taken does not matter. *)
Lemma receiveAdvertisements_room (taken : bool) (adverts : list Advertisement) :
  forall n,
    (chanLen (recvChannel n) + length adverts <= capacity (recvChannel n))%nat ->
    exists n1,
      receiveAdvertisements n (map (fun a => Answer (delivered a) taken) adverts)
      = (n1, [], ReceiverRunning) /\
      queue (recvChannel n1) = queue (recvChannel n) ++ adverts /\
      capacity (recvChannel n1) = capacity (recvChannel n).
Proof.
  induction adverts as [|a rest IH]; intros n Hroom.
  - exists n. cbn. rewrite app_nil_r. auto.
  - cbn [map receiveAdvertisements delivered].
    cbn [length] in Hroom.
    rewrite queueAdvertisement_room by (cbn; lia).
    cbn [withReceiveCount recvChannel].
    set (m := withRecvChannel _ _).
    destruct (IH m) as (n1 & E & Hq & Hc).
    { subst m. unfold chanLen in *. cbn. rewrite length_app. cbn. lia. }
    exists n1. split; [exact E|]. split.
    + rewrite Hq. subst m. cbn. rewrite <- app_assoc. reflexivity.
    + rewrite Hc. reflexivity.
Qed.

Lemma split_last (A : Type) (l : list A) (k : nat) :
  length l = S k -> exists x, l = firstn k l ++ [x].
Proof.
  intros Hlen.
  destruct (exists_last (l := l)) as (l' & x & E).
  { intros ->. discriminate Hlen. }
  exists x. rewrite E at 1. f_equal.
  assert (Hk : length l' = k).
  { rewrite E, length_app in Hlen. cbn in Hlen. lia. }
  rewrite E, firstn_app, Hk, Nat.sub_diag, <- Hk, firstn_all. cbn.
  rewrite app_nil_r. reflexivity.
Qed.

(** C8.  [NewNode] makes the receive queue with capacity 20.  Queueing on a
    queue of capacity 20 that holds 20 advertisements leaves the node as it
    is and sends the error "recvChannel is full" on the error channel; the
    run loop, BACKUP or MASTER, that takes an error from that channel returns
    an error from [runOnce].  Twenty-one advertisements delivered to a new
    node with no pass of the run loop in between: the first twenty are
    queued in order, the twenty-first raises that error; the receiver stays
    in the send of it until the run loop takes it, and then goes on. *)
Theorem recvChannel_overflow (cfg : NodeConfig) (now now' : time.Time) :
  capacity (recvChannel (NewNode cfg now now')) = 20%nat /\
  chanLen (recvChannel (NewNode cfg now now')) = 0%nat /\
  (forall n advert,
     capacity (recvChannel n) = 20%nat -> chanLen (recvChannel n) = 20%nat ->
     queueAdvertisement n advert = (n, Some errRecvChannelFull)) /\
  (forall n advert,
     capacity (recvChannel n) = 20%nat -> (chanLen (recvChannel n) < 20)%nat ->
     queueAdvertisement n advert
     = (withRecvChannel {| queue := queue (recvChannel n) ++ [advert];
                           capacity := 20 |} n, None)) /\
  (forall n e t t',
     state n = seesaw.HABackup \/ state n = seesaw.HAMaster ->
     runOnce n (CaseErr e) t t'
     = Some (n, [], Some (Errorf "runOnce: Can't handle transition"))) /\
  (forall adverts taken,
     length adverts = 21%nat ->
     exists n1,
       receiveAdvertisements (NewNode cfg now now')
         (map (fun a => Answer (delivered a) taken) adverts)
       = (n1, (if taken then [errRecvChannelFull] else []),
          (if taken then ReceiverRunning
           else ReceiverBlocked errRecvChannelFull)) /\
       queue (recvChannel n1) = firstn 20 adverts).
Proof.
  assert (Hcap : capacity (recvChannel (NewNode cfg now now')) = 20%nat).
  { unfold NewNode.
    destruct (resetMasterDownInterval_frame
                (setState
                   {| config := cfg; haStatus := seesaw.zeroStatus; sendCount := 0;
                      receiveCount := 0; masterDownInterval := 0;
                      lastMasterAdvertTime := now; recvChannel := makeChan 20 |}
                   seesaw.HABackup now') (MasterAdvertInterval cfg))
      as (_ & _ & _ & Hch).
    rewrite Hch. reflexivity. }
  assert (Hlen : queue (recvChannel (NewNode cfg now now')) = []).
  { unfold NewNode.
    destruct (resetMasterDownInterval_frame
                (setState
                   {| config := cfg; haStatus := seesaw.zeroStatus; sendCount := 0;
                      receiveCount := 0; masterDownInterval := 0;
                      lastMasterAdvertTime := now; recvChannel := makeChan 20 |}
                   seesaw.HABackup now') (MasterAdvertInterval cfg))
      as (_ & _ & _ & Hch).
    rewrite Hch. reflexivity. }
  split; [exact Hcap|]. split; [unfold chanLen; rewrite Hlen; reflexivity|].
  split; [|split; [|split]].
  - intros n advert Hc Hl. apply queueAdvertisement_full. congruence.
  - intros n advert Hc Hl. rewrite queueAdvertisement_room by lia.
    rewrite Hc. reflexivity.
  - intros n e t t' [Hs|Hs]; unfold runOnce; rewrite Hs; reflexivity.
  - intros adverts taken Hl.
    destruct (split_last _ adverts 20 Hl) as [x Ex].
    assert (H20 : length (firstn 20 adverts) = 20%nat)
      by (rewrite length_firstn; lia).
    destruct (receiveAdvertisements_room taken (firstn 20 adverts)
                (NewNode cfg now now'))
      as (n1 & E1 & Hq & Hc).
    { unfold chanLen. rewrite Hlen, Hcap, H20. cbn. lia. }
    rewrite Hlen in Hq. cbn [app] in Hq.
    exists (withReceiveCount (uint64 (receiveCount n1 + 1)) n1).
    split.
    + rewrite Ex at 1. rewrite map_app, receiveAdvertisements_app, E1.
      cbn [map receiveAdvertisements delivered].
      rewrite queueAdvertisement_full; [destruct taken; reflexivity|].
      cbn [withReceiveCount recvChannel]. unfold chanLen.
      rewrite Hq, Hc, Hcap. exact H20.
    + cbn [withReceiveCount recvChannel]. exact Hq.
Qed.

Lemma recvChannel_overflow_witness :
  exists n1,
    receiveAdvertisements sampleBackup
      (map (fun a => Answer (delivered a) true) (repeat sampleAdvert 21))
    = (n1, [errRecvChannelFull], ReceiverRunning) /\
    queue (recvChannel n1) = firstn 20 (repeat sampleAdvert 21).
Proof.
  destruct (recvChannel_overflow sampleConfig 0 0) as (_ & _ & _ & _ & _ & H).
  apply (H (repeat sampleAdvert 21) true). reflexivity.
Defined.

(* ================================================================== *)
(** * The transport: send                                               *)
(* ================================================================== *)

(** C9.  [send] with a non-zero [Checksum] leaves every field of the
    caller's advertisement as it was, whatever the sockets answer, and once
    the write deadline is set hands the encoding of that advertisement to
    [WriteToIP] without computing a checksum.  With a zero [Checksum], the
    write deadline set and two addresses, [send] computes [checksum] over the
    local and remote address, stores it in the caller's advertisement, which
    is otherwise unchanged, and hands the encoding of the advertisement so
    filled to [WriteToIP]. *)
Theorem send_fills_checksum (c : ipHAConn) (io : sockets) (advert : Advertisement) :
  (Checksum advert <> 0 ->
     advertAfter (send c io advert) = advert /\
     (SetWriteDeadline io = None ->
        written (send c io advert) = Some (writeAdvertisement advert) /\
        sendError (send c io advert) = WriteToIP io)) /\
  (Checksum advert = 0 -> SetWriteDeadline io = None ->
   isIP (laddr c) -> isIP (raddr c) ->
     exists chksum,
       checksum advert (laddr c) (raddr c) = Ok chksum /\
       advertAfter (send c io advert) = setChecksum chksum advert /\
       Checksum (advertAfter (send c io advert)) = chksum /\
       written (send c io advert)
       = Some (writeAdvertisement (setChecksum chksum advert)) /\
       sendError (send c io advert) = WriteToIP io).
Proof.
  split.
  - intros Hnz. apply Z.eqb_neq in Hnz. unfold send. rewrite Hnz.
    destruct (SetWriteDeadline io) as [e|].
    + split; [reflexivity | discriminate].
    + cbn. auto.
  - intros Hz Hdl Hl Hr. unfold send. rewrite Hdl, Hz. cbn [Z.eqb].
    destruct (isIP_pseudoHeader _ _ Hl Hr) as [hdr Eh].
    unfold checksum, bind. rewrite Eh.
    eexists. split; [reflexivity|]. cbn. auto.
Qed.

Lemma send_fills_checksum_witness :
  advertAfter (send sampleConn (socketsReading (Ok [])) sampleAdvert)
  = setChecksum 22047 sampleAdvert.
Proof.
  destruct (send_fills_checksum sampleConn (socketsReading (Ok [])) sampleAdvert)
    as [_ H].
  destruct (H eq_refl eq_refl (or_introl eq_refl) (or_introl eq_refl))
    as (chksum & Ec & Ea & _).
  vm_compute in Ec. inversion Ec as [Ek]. rewrite <- Ek in Ea. exact Ea.
Defined.

(* ================================================================== *)
(** * The node: setState                                                *)
(* ================================================================== *)

Lemma HAState_eqb_eq (a b : seesaw.HAState) : seesaw.HAState_eqb a b = true <-> a = b.
Proof. destruct a, b; cbn; split; (reflexivity || discriminate). Qed.

Lemma HAState_eqb_neq (a b : seesaw.HAState) : seesaw.HAState_eqb a b = false <-> a <> b.
Proof.
  rewrite <- HAState_eqb_eq. destruct (seesaw.HAState_eqb a b); split; congruence.
Qed.

Lemma setState_same (n : Node) (s : seesaw.HAState) (now : time.Time) :
  state n = s -> setState n s now = n.
Proof.
  intros H. unfold setState, setStatus.
  apply HAState_eqb_eq in H. unfold state in H. rewrite H.
  destruct n; reflexivity.
Qed.

Lemma setState_changed (n : Node) (s : seesaw.HAState) (now : time.Time) :
  state n <> s ->
  state (setState n s now) = s /\
  seesaw.Since (haStatus (setState n s now)) = now /\
  seesaw.Transitions (haStatus (setState n s now))
  = uint64 (seesaw.Transitions (haStatus n) + 1).
Proof.
  intros H. unfold state, setState, setStatus in *.
  apply HAState_eqb_neq in H. rewrite H. cbn. auto.
Qed.

Lemma setStates_counts (calls : list (seesaw.HAState * time.Time)) :
  forall n,
    0 <= seesaw.Transitions (haStatus n) ->
    seesaw.Transitions (haStatus n) + Z.of_nat (length calls) < 2 ^ 64 ->
    seesaw.Transitions (haStatus (setStates n calls))
    = seesaw.Transitions (haStatus n) + Z.of_nat (stateChanges (state n) calls).
Proof.
  induction calls as [|[s t] rest IH]; intros n H0 Hlt.
  - cbn. lia.
  - cbn [setStates fold_left fst snd stateChanges]. fold (setStates (setState n s t) rest).
    cbn [length] in Hlt.
    destruct (seesaw.HAState_eqb (state n) s) eqn:E.
    + apply HAState_eqb_eq in E. rewrite (setState_same n s t E).
      rewrite IH by lia. rewrite E. lia.
    + apply HAState_eqb_neq in E.
      destruct (setState_changed n s t E) as (Hs & _ & Ht).
      assert (Hu : uint64 (seesaw.Transitions (haStatus n) + 1)
                   = seesaw.Transitions (haStatus n) + 1)
        by (apply Z.mod_small; lia).
      rewrite IH by (rewrite Ht, Hu; lia).
      rewrite Ht, Hu, Hs. lia.
Qed.

(** C10.  [setState] with the state the node is in changes nothing, so
    [State], [Since] and [Transitions] stay.  With another state it sets
    [State], sets [Since] to the current time and, the counter being below
    its [uint64] maximum, adds exactly one to [Transitions].  Hence after any
    run of calls [Transitions] has grown by the number of calls that changed
    the state; counted from the zero value [NewNode] starts with, it is the
    number of state changes, the one to BACKUP in [NewNode] included. *)
Theorem setState_counts_transitions (n : Node) (s : seesaw.HAState) (now : time.Time) :
  (state n = s ->
     setState n s now = n /\
     seesaw.State (haStatus (setState n s now)) = seesaw.State (haStatus n) /\
     seesaw.Since (haStatus (setState n s now)) = seesaw.Since (haStatus n) /\
     seesaw.Transitions (haStatus (setState n s now))
     = seesaw.Transitions (haStatus n)) /\
  (state n <> s ->
   0 <= seesaw.Transitions (haStatus n) < 2 ^ 64 - 1 ->
     seesaw.State (haStatus (setState n s now)) = s /\
     seesaw.Since (haStatus (setState n s now)) = now /\
     seesaw.Transitions (haStatus (setState n s now))
     = seesaw.Transitions (haStatus n) + 1) /\
  (forall calls,
     0 <= seesaw.Transitions (haStatus n) ->
     seesaw.Transitions (haStatus n) + Z.of_nat (length calls) < 2 ^ 64 ->
     seesaw.Transitions (haStatus (setStates n calls))
     = seesaw.Transitions (haStatus n) + Z.of_nat (stateChanges (state n) calls)) /\
  (forall cfg t t' calls,
     1 + Z.of_nat (length calls) < 2 ^ 64 ->
     seesaw.Transitions (haStatus (setStates (NewNode cfg t t') calls))
     = Z.of_nat (stateChanges seesaw.HAUnknown ((seesaw.HABackup, t') :: calls))).
Proof.
  split; [|split; [|split]].
  - intros H. rewrite (setState_same n s now H). auto.
  - intros H Hr. destruct (setState_changed n s now H) as (Hs & Hn & Ht).
    split; [exact Hs|]. split; [exact Hn|].
    rewrite Ht. apply Z.mod_small. lia.
  - intros calls. apply setStates_counts.
  - intros cfg t t' calls Hl.
    assert (Hst : haStatus (NewNode cfg t t')
                  = {| seesaw.State := seesaw.HABackup; seesaw.Since := t';
                       seesaw.Sent := 0; seesaw.Received := 0;
                       seesaw.ReceivedQueued := 0; seesaw.Transitions := 1 |}).
    { unfold NewNode.
      match goal with
      | |- haStatus (resetMasterDownInterval ?m ?I) = _ =>
          destruct (resetMasterDownInterval_frame m I) as (_ & Hs & _ & _);
          rewrite Hs
      end.
      reflexivity. }
    rewrite setStates_counts by (rewrite Hst; cbn [seesaw.Transitions]; lia).
    unfold state. rewrite Hst. cbn [seesaw.Transitions seesaw.State stateChanges].
    cbn [seesaw.HAState_eqb]. lia.
Qed.

Lemma setState_counts_transitions_witness :
  seesaw.Transitions
    (haStatus (setStates sampleBackup
                 [(seesaw.HAMaster, 1); (seesaw.HAMaster, 2); (seesaw.HABackup, 3)]))
  = 3.
Proof.
  destruct (setState_counts_transitions sampleBackup seesaw.HABackup 0)
    as (_ & _ & _ & H).
  apply (H sampleConfig 0 0
           [(seesaw.HAMaster, 1); (seesaw.HAMaster, 2); (seesaw.HABackup, 3)]).
  cbn. lia.
Defined.

(* ================================================================== *)
(** * The codec                                                         *)
(* ================================================================== *)

Lemma getUint16_putUint16 (z : Z) :
  0 <= z < 2 ^ 16 ->
  getUint16 (toByte (Z.shiftr z 8)) (toByte z) = z.
Proof.
  intros Hz. change (2 ^ 16) with 65536 in Hz.
  rewrite getUint16_value, !byteZ_toByte, Z.shiftr_div_pow2 by lia.
  change (2 ^ 8) with 256.
  rewrite (Z.mod_small (z / 256))
    by (split; [apply Z.div_pos; lia | apply Z.div_lt_upper_bound; lia]).
  pose proof (Z.div_mod z 256). lia.
Qed.

(** X3.  The encoding is eight bytes long and decodes to the advertisement
    it was made from, every field being within its type. *)
Theorem codec_round_trip (a : Advertisement) :
  wfAdvertisement a ->
  length (writeAdvertisement a) = 8%nat /\
  readAdvertisement (writeAdvertisement a) = Ok a.
Proof.
  intros (H1 & H2 & H3 & H4 & H5 & H6). split; [reflexivity|].
  unfold writeAdvertisement, putUint16. cbn [app readAdvertisement].
  rewrite !getUint16_putUint16 by assumption.
  rewrite !byteZ_toByte.
  change (2 ^ 8) with 256 in *.
  rewrite !Z.mod_small by assumption.
  destruct a; reflexivity.
Qed.

Lemma codec_round_trip_witness :
  length (writeAdvertisement sampleAdvert) = 8%nat /\
  readAdvertisement (writeAdvertisement sampleAdvert) = Ok sampleAdvert.
Proof.
  apply (codec_round_trip sampleAdvert).
  unfold wfAdvertisement. cbn. lia.
Defined.

Lemma foldCarries_exits_witness :
  Z.shiftr (foldCarries foldFuel 4294967295) 16 = 0.
Proof.
  apply (foldCarries_exits 4294967295). change (2 ^ 32) with 4294967296. lia.
Defined.

(* ================================================================== *)
(** * The transport: what the checksum detects                          *)
(* ================================================================== *)

Lemma byteZ_inj (x y : byte) : byteZ x = byteZ y -> x = y.
Proof.
  intros H. rewrite <- (toByte_byteZ x), <- (toByte_byteZ y), H. reflexivity.
Qed.

(** Changing one byte moves the sum of the words by the difference of the
    two bytes, times 256 for a byte at an even offset. *)
Lemma wordSum_change (pre : list byte) (x y : byte) (post : list byte) :
  wordSum (pre ++ x :: post) - wordSum (pre ++ y :: post)
  = (byteZ x - byteZ y) * (if Nat.even (length pre) then 256 else 1).
Proof.
  induction pre as [| a | a b rest IH] using list_pair_ind.
  - cbn [app length Nat.even]. destruct post as [|p0 post]; cbn [wordSum]; lia.
  - cbn [app length Nat.even wordSum]. lia.
  - change ((a :: b :: rest) ++ x :: post) with (a :: b :: (rest ++ x :: post)).
    change ((a :: b :: rest) ++ y :: post) with (a :: b :: (rest ++ y :: post)).
    change (Nat.even (length (a :: b :: rest))) with (Nat.even (length rest)).
    cbn [wordSum]. lia.
Qed.

(** The checksum of a slice is 0 exactly when the sum of its words is a
    non-zero multiple of 65535. *)
Lemma ipChecksum_zero_iff (b : list byte) :
  wordSum b < 2 ^ 32 ->
  (ipChecksum b = 0 <-> wordSum b mod 65535 = 0 /\ wordSum b <> 0).
Proof.
  intros Hb. pose proof (wordSum_bounds b) as Hw.
  destruct (ipChecksum_value b Hb) as [Hv _]. rewrite Hv.
  destruct (foldCarries_spec (wordSum b) ltac:(lia)) as (Fr & Fm & Fz).
  cbv zeta in *. set (f := foldCarries foldFuel (wordSum b)) in *.
  split.
  - intros H. assert (Hf : f = 65535) by lia. rewrite Hf in Fm.
    split; [symmetry; exact Fm|]. intros E. apply Fz in E. lia.
  - intros [Hm Hn]. rewrite Hm in Fm.
    assert (f <> 0) by (intros E; apply Fz in E; contradiction).
    revert Fm. Z.div_mod_to_equations. lia.
Qed.

Lemma short_wordSum (b : list byte) :
  (length b <= 48)%nat -> wordSum b < 2 ^ 32.
Proof.
  intros H. pose proof (wordSum_bounds b). change (2 ^ 32) with 4294967296. lia.
Qed.

(** Two slices of at most 48 bytes that differ in one byte do not both
    have checksum 0. *)
Lemma ipChecksum_one_byte (pre : list byte) (x y : byte) (post : list byte) :
  (length (pre ++ x :: post) <= 48)%nat -> x <> y ->
  ipChecksum (pre ++ x :: post) = 0 -> ipChecksum (pre ++ y :: post) <> 0.
Proof.
  intros Hlen Hxy Hx Hy.
  assert (Hlen' : (length (pre ++ y :: post) <= 48)%nat)
    by (rewrite length_app in *; exact Hlen).
  apply ipChecksum_zero_iff in Hx; [|apply short_wordSum, Hlen].
  apply ipChecksum_zero_iff in Hy; [|apply short_wordSum, Hlen'].
  destruct Hx as [Hx _]. destruct Hy as [Hy _].
  pose proof (wordSum_change pre x y post) as Hd.
  pose proof (byteZ_range x). pose proof (byteZ_range y).
  assert (byteZ x <> byteZ y) by (intros E; apply Hxy, byteZ_inj, E).
  destruct (Nat.even (length pre));
    revert Hx Hy; Z.div_mod_to_equations; lia.
Qed.

Lemma receivePacket_accepts (c : ipHAConn) (p : packet) (advert : Advertisement) :
  receivePacket c p = Ok (Some advert) ->
  length (payload p) = 8%nat /\
  net.Equal (src p) (laddr c) = false /\
  ttl p = 255 /\
  exists hdr, pseudoHeader (src p) (dst p) = Ok hdr /\
              ipChecksum (hdr ++ payload p) = 0.
Proof.
  intros H.
  assert (Hlen : length (payload p) = 8%nat).
  { unfold receivePacket in H.
    destruct (Nat.eqb_spec (length (payload p)) vrrpAdvertSize) as [E|E];
      [exact E | discriminate H]. }
  split; [exact Hlen|].
  destruct (pseudoHeader (src p) (dst p)) as [hdr|e] eqn:Eh.
  - destruct (receivePacket_eight c p hdr Eh Hlen) as (a & _ & _ & Ev).
    rewrite Ev in H.
    destruct (net.Equal (src p) (laddr c)); [discriminate H|].
    destruct (Z.eqb_spec (ttl p) 255) as [Et|Et]; [|discriminate H].
    destruct (Z.eqb_spec (ipChecksum (hdr ++ payload p)) 0) as [Ec|Ec];
      [|discriminate H].
    split; [reflexivity|]. split; [exact Et|]. exists hdr. auto.
  - exfalso. unfold receivePacket, bind in H. rewrite Hlen in H.
    cbn [Nat.eqb vrrpAdvertSize negb] in H.
    destruct (readAdvertisement (payload p)); [|discriminate H].
    destruct (net.Equal _ _); [discriminate H|].
    destruct (negb _); [discriminate H|].
    unfold checksum, bind in H. rewrite Eh in H. discriminate H.
Qed.

(** X4.  Tampering with one byte is always noticed: when a packet is
    accepted by [receive], the packet that differs from it in exactly one
    byte of the payload (same addresses, same TTL) is dropped, [receive]
    returning [(nil, nil)]. *)
Theorem receive_drops_tampered (c : ipHAConn) (io io' : sockets) (p p' : packet)
    (advert : Advertisement) (pre post : list byte) (x y : byte) :
  readPacket c io = Ok p -> readPacket c io' = Ok p' ->
  receive c io = Ok (Some advert) ->
  src p' = src p -> dst p' = dst p -> ttl p' = ttl p ->
  payload p = pre ++ x :: post -> payload p' = pre ++ y :: post -> x <> y ->
  receive c io' = Ok None.
Proof.
  intros Hr Hr' Hacc Hs Hd Ht Hp Hp' Hxy.
  unfold receive in *. rewrite Hr in Hacc. rewrite Hr'.
  destruct (receivePacket_accepts c p advert Hacc)
    as (Hlen & Heq & Httl & hdr & Eh & Hck).
  assert (Hlen' : length (payload p') = 8%nat).
  { rewrite Hp', length_app in *. rewrite Hp, length_app in Hlen. exact Hlen. }
  rewrite <- Hs, <- Hd in Eh.
  destruct (receivePacket_eight c p' hdr Eh Hlen') as (a' & _ & _ & Ev).
  rewrite Ev, Hs, Heq, Ht, Httl. cbn [Z.eqb negb Pos.eqb].
  assert (Hne : ipChecksum (hdr ++ payload p') <> 0).
  { rewrite Hp', app_assoc. apply ipChecksum_one_byte with (x := x).
    - rewrite <- app_assoc, <- Hp, length_app, Hlen.
      rewrite Hs, Hd in Eh. destruct (pseudoHeader_shape _ _ _ Eh). lia.
    - exact Hxy.
    - rewrite <- app_assoc, <- Hp. exact Hck. }
  apply Z.eqb_neq in Hne. rewrite Hne. reflexivity.
Qed.

Lemma receive_drops_tampered_witness :
  receive sampleConn (socketsReading (Ok tamperedDatagram)) = Ok None.
Proof.
  apply (receive_drops_tampered sampleConn
           (socketsReading (Ok sampleDatagram)) (socketsReading (Ok tamperedDatagram))
           {| src := ipB; dst := ipA; ttl := 255;
              payload := [x31; x01; x64; x00; x00; x64; x56; x1f] |}
           {| src := ipB; dst := ipA; ttl := 255;
              payload := [x31; x01; x65; x00; x00; x64; x56; x1f] |}
           (setChecksum 22047 sampleAdvert)
           [x31; x01] [x00; x00; x64; x56; x1f] x64 x65);
    try reflexivity.
  discriminate.
Defined.

(* ================================================================== *)
(** * The transport: from send to receive                               *)
(* ================================================================== *)

Lemma readAdvertisement_writeAdvertisement (a : Advertisement) :
  wfAdvertisement a -> readAdvertisement (writeAdvertisement a) = Ok a.
Proof.
  intros (H1 & H2 & H3 & H4 & H5 & H6).
  unfold writeAdvertisement, putUint16. cbn [app readAdvertisement].
  rewrite !getUint16_putUint16 by assumption.
  rewrite !byteZ_toByte.
  change (2 ^ 8) with 256 in *.
  rewrite !Z.mod_small by assumption.
  destruct a; reflexivity.
Qed.

Lemma setChecksum_same (a : Advertisement) : setChecksum (Checksum a) a = a.
Proof. destruct a; reflexivity. Qed.

(** X5.  What [send] writes, [receive] accepts.  An advertisement with
    fields within their types and a zero checksum is sent on a connection
    whose addresses are usable; a peer, whose own address is not the
    source, reads a packet with those source and destination addresses,
    TTL 255 and the written bytes as payload: its [receive] returns the
    advertisement as [send] left it in the caller's record, checksum
    filled in. *)
Theorem send_then_receive (cs cr : ipHAConn) (io io' : sockets)
    (advert : Advertisement) (p : packet) :
  wfAdvertisement advert -> Checksum advert = 0 ->
  SetWriteDeadline io = None -> isIP (laddr cs) -> isIP (raddr cs) ->
  readPacket cr io' = Ok p ->
  src p = laddr cs -> dst p = raddr cs -> ttl p = 255 ->
  written (send cs io advert) = Some (payload p) ->
  net.Equal (src p) (laddr cr) = false ->
  receive cr io' = Ok (Some (advertAfter (send cs io advert))) /\
  advertAfter (send cs io advert)
  = setChecksum (Checksum (advertAfter (send cs io advert))) advert /\
  0 <= Checksum (advertAfter (send cs io advert)) <= 65535.
Proof.
  intros Hwf Hz Hdl Hl Hr Hread Hs Hd Ht Hw Heq.
  destruct (isIP_pseudoHeader _ _ Hl Hr) as [hdr Eh].
  assert (Ec : checksum (setChecksum 0 advert) (laddr cs) (raddr cs)
               = Ok (ipChecksum (hdr ++ writeAdvertisement (setChecksum 0 advert)))).
  { unfold checksum, bind. rewrite Eh. reflexivity. }
  destruct (checksum_fill advert _ _ _ Ec) as [Hck Hfill].
  assert (E0 : setChecksum 0 advert = advert)
    by (rewrite <- Hz; apply setChecksum_same).
  rewrite E0 in *.
  set (ck := ipChecksum (hdr ++ writeAdvertisement advert)) in *.
  assert (Hsend : send cs io advert
                  = {| advertAfter := setChecksum ck advert;
                       written := Some (writeAdvertisement (setChecksum ck advert));
                       sendError := WriteToIP io |}).
  { unfold send. rewrite Hdl, Hz, Ec. reflexivity. }
  rewrite Hsend in *. cbn [advertAfter written Checksum setChecksum] in *.
  injection Hw as Hw.
  split; [|split; [reflexivity | exact Hck]].
  assert (Hwf' : wfAdvertisement (setChecksum ck advert)).
  { destruct Hwf as (H1 & H2 & H3 & H4 & H5 & _).
    unfold wfAdvertisement. cbn. change (2 ^ 16) with 65536. repeat split; lia. }
  unfold receive. rewrite Hread. unfold receivePacket, bind.
  rewrite <- Hw, writeAdvertisement_length. cbn [Nat.eqb vrrpAdvertSize negb].
  rewrite (readAdvertisement_writeAdvertisement _ Hwf'), Heq, Ht, Hs, Hd, Hfill.
  reflexivity.
Qed.

Lemma send_then_receive_witness :
  receive sampleConn (socketsReading (Ok sampleDatagram))
  = Ok (Some (advertAfter (send peerConn (socketsReading (Ok [])) sampleAdvert))).
Proof.
  apply (send_then_receive peerConn sampleConn (socketsReading (Ok []))
           (socketsReading (Ok sampleDatagram)) sampleAdvert
           {| src := ipB; dst := ipA; ttl := 255;
              payload := [x31; x01; x64; x00; x00; x64; x56; x1f] |});
    try reflexivity.
  - unfold wfAdvertisement. cbn. lia.
  - left. reflexivity.
  - left. reflexivity.
Defined.

(* ================================================================== *)
(** * The transport: the read path                                      *)
(* ================================================================== *)

Lemma nibbles (v : Z) :
  0 <= v < 256 ->
  Z.shiftr v 4 = v / 16 /\ Z.shiftl (Z.land v 15) 2 = 4 * (v mod 16).
Proof.
  intros Hv. split.
  - rewrite Z.shiftr_div_pow2 by lia. reflexivity.
  - change 15 with (Z.ones 4). rewrite Z.land_ones, Z.shiftl_mul_pow2 by lia.
    change (2 ^ 4) with 16. change (2 ^ 2) with 4. lia.
Qed.

Lemma readIPv4Packet_ok (b : list byte) (p : packet) :
  readIPv4Packet (Ok b) = Ok p ->
  20 <= Z.of_nat (length b) /\
  byteZ (nth 0 b x00) / 16 = 4 /\
  4 * (byteZ (nth 0 b x00) mod 16) <= Z.of_nat (length b) /\
  p = {| src := [nth 12 b x00; nth 13 b x00; nth 14 b x00; nth 15 b x00];
         dst := [nth 16 b x00; nth 17 b x00; nth 18 b x00; nth 19 b x00];
         ttl := byteZ (nth 8 b x00);
         payload := skipn (Z.to_nat (4 * (byteZ (nth 0 b x00) mod 16))) b |}.
Proof.
  unfold readIPv4Packet, bind.
  destruct (nibbles _ (byteZ_range (nth 0 b x00))) as [Hv Hh]. rewrite Hv, Hh.
  destruct (Z.ltb_spec (Z.of_nat (length b)) 20) as [Hs|Hs]; [discriminate|].
  destruct (Z.eqb_spec (byteZ (nth 0 b x00) / 16) 4) as [E|E]; cbn [negb];
    [|discriminate].
  destruct (Z.gtb_spec (4 * (byteZ (nth 0 b x00) mod 16)) (Z.of_nat (length b)))
    as [Hg|Hg]; [discriminate|].
  intros H. injection H as <-. repeat split; assumption || lia.
Qed.

Lemma pseudoHeader_ipv4 (a0 a1 a2 a3 b0 b1 b2 b3 : byte) :
  pseudoHeader [a0; a1; a2; a3] [b0; b1; b2; b3]
  = Ok (writeIPv4PseudoHeader [a0; a1; a2; a3] [b0; b1; b2; b3]).
Proof.
  unfold pseudoHeader, net.To4. cbn [length Nat.eqb net.IPv4len]. reflexivity.
Qed.

Lemma packet_src (s d : net.IP) (t : Z) (pl : list byte) :
  src {| src := s; dst := d; ttl := t; payload := pl |} = s.
Proof. reflexivity. Qed.

Lemma packet_dst (s d : net.IP) (t : Z) (pl : list byte) :
  dst {| src := s; dst := d; ttl := t; payload := pl |} = d.
Proof. reflexivity. Qed.

Lemma packet_ttl (s d : net.IP) (t : Z) (pl : list byte) :
  ttl {| src := s; dst := d; ttl := t; payload := pl |} = t.
Proof. reflexivity. Qed.

Lemma packet_payload (s d : net.IP) (t : Z) (pl : list byte) :
  payload {| src := s; dst := d; ttl := t; payload := pl |} = pl.
Proof. reflexivity. Qed.

Lemma readPacket_ipv4 (c : ipHAConn) (io : sockets) :
  af c = syscall.AF_INET -> readPacket c io = readIPv4Packet (Read io).
Proof. intros H. unfold readPacket. rewrite H. reflexivity. Qed.

Lemma receive_accepted_inv (c : ipHAConn) (io : sockets) (advert : Advertisement) :
  receive c io = Ok (Some advert) ->
  exists p, readPacket c io = Ok p /\ receivePacket c p = Ok (Some advert).
Proof.
  unfold receive. destruct (readPacket c io) as [p|e].
  - intros H. exists p. split; [reflexivity | exact H].
  - destruct e as [[errno|]|msg|msg]; try discriminate.
    destruct (_ || _); discriminate.
Qed.

Lemma receivePacket_decodes (c : ipHAConn) (p : packet) (advert : Advertisement) :
  receivePacket c p = Ok (Some advert) -> readAdvertisement (payload p) = Ok advert.
Proof.
  unfold receivePacket, bind.
  destruct (negb _); [discriminate|].
  destruct (readAdvertisement (payload p)) as [a|e]; [|discriminate].
  destruct (net.Equal _ _); [discriminate|].
  destruct (negb _); [discriminate|].
  destruct (checksum _ _ _); [|discriminate].
  destruct (negb _); [discriminate|].
  intros H. injection H as ->. reflexivity.
Qed.

(** X6.  On an IPv4 connection [receive] returns an advertisement only for
    a read of at least 20 bytes whose first byte has version nibble 4, whose
    length is the header length (four times the low nibble) plus 8, whose
    byte 8 (the TTL) is 255 and whose source, bytes 12 to 15, is not the
    local address; the advertisement is decoded from the eight bytes after
    the header, and their checksum with the IPv4 pseudo-header of bytes 12
    to 19 is 0.  The header length is not checked against the 20 bytes of a
    minimal IPv4 header. *)
Theorem receive_ipv4_accepted (c : ipHAConn) (io : sockets) (advert : Advertisement) :
  af c = syscall.AF_INET ->
  receive c io = Ok (Some advert) ->
  exists b,
    Read io = Ok b /\
    20 <= Z.of_nat (length b) /\
    byteZ (nth 0 b x00) / 16 = 4 /\
    Z.of_nat (length b) = 4 * (byteZ (nth 0 b x00) mod 16) + 8 /\
    byteZ (nth 8 b x00) = 255 /\
    net.Equal [nth 12 b x00; nth 13 b x00; nth 14 b x00; nth 15 b x00] (laddr c)
    = false /\
    readAdvertisement (skipn (Z.to_nat (4 * (byteZ (nth 0 b x00) mod 16))) b)
    = Ok advert /\
    ipChecksum
      (writeIPv4PseudoHeader
         [nth 12 b x00; nth 13 b x00; nth 14 b x00; nth 15 b x00]
         [nth 16 b x00; nth 17 b x00; nth 18 b x00; nth 19 b x00]
       ++ skipn (Z.to_nat (4 * (byteZ (nth 0 b x00) mod 16))) b) = 0.
Proof.
  intros Haf Hrecv.
  destruct (receive_accepted_inv c io advert Hrecv) as (p & Hread & Hpkt).
  rewrite (readPacket_ipv4 c io Haf) in Hread.
  destruct (Read io) as [b|e] eqn:Hrd; [|discriminate Hread].
  destruct (readIPv4Packet_ok b p Hread) as (H20 & Hv & Hh & Hp).
  destruct (receivePacket_accepts c p advert Hpkt)
    as (Hlen & Heq & Httl & hdr & Eh & Hck).
  pose proof (receivePacket_decodes c p advert Hpkt) as Er.
  subst p.
  rewrite packet_payload in Hlen, Er, Hck.
  rewrite packet_src in Heq, Eh. rewrite packet_dst in Eh. rewrite packet_ttl in Httl.
  rewrite pseudoHeader_ipv4 in Eh. injection Eh as <-.
  exists b. split; [reflexivity|]. split; [exact H20|]. split; [exact Hv|].
  split.
  { rewrite length_skipn in Hlen.
    pose proof (Z.mod_pos_bound (byteZ (nth 0 b x00)) 16 ltac:(lia)). lia. }
  split; [exact Httl|]. split; [exact Heq|]. split; [exact Er|]. exact Hck.
Qed.

Lemma receive_ipv4_accepted_witness :
  exists b,
    Read (socketsReading (Ok sampleDatagram)) = Ok b /\
    20 <= Z.of_nat (length b) /\
    byteZ (nth 0 b x00) / 16 = 4 /\
    Z.of_nat (length b) = 4 * (byteZ (nth 0 b x00) mod 16) + 8 /\
    byteZ (nth 8 b x00) = 255 /\
    net.Equal [nth 12 b x00; nth 13 b x00; nth 14 b x00; nth 15 b x00]
      (laddr sampleConn) = false /\
    readAdvertisement (skipn (Z.to_nat (4 * (byteZ (nth 0 b x00) mod 16))) b)
    = Ok (setChecksum 22047 sampleAdvert) /\
    ipChecksum
      (writeIPv4PseudoHeader
         [nth 12 b x00; nth 13 b x00; nth 14 b x00; nth 15 b x00]
         [nth 16 b x00; nth 17 b x00; nth 18 b x00; nth 19 b x00]
       ++ skipn (Z.to_nat (4 * (byteZ (nth 0 b x00) mod 16))) b) = 0.
Proof.
  apply (receive_ipv4_accepted sampleConn (socketsReading (Ok sampleDatagram))
           (setChecksum 22047 sampleAdvert)); reflexivity.
Defined.

Lemma readPacket_ipv6 (c : ipHAConn) (io : sockets) :
  af c = syscall.AF_INET6 -> readPacket c io = readIPv6Packet (ReadMsgIP io).
Proof. intros H. unfold readPacket. rewrite H. reflexivity. Qed.

(** Where the hop limit and the destination that the loop ends with come
    from: the values it started with, or a control message of level IPv6. *)
Lemma scanControl_found (scm : list syscall.SocketControlMessage) :
  forall d0 t0 h0 d1 t1,
    scanControl scm d0 t0 h0 = Ok (Some d1, t1, true) ->
    ((h0 = true /\ t1 = t0) \/
     exists sc x rest,
       In sc scm /\ syscall.Level sc = syscall.IPPROTO_IPV6 /\
       syscall.Type_ sc = syscall.IPV6_2292HOPLIMIT /\
       syscall.Data sc = x :: rest /\ t1 = byteZ x) /\
    (d0 = Some d1 \/
     exists sc,
       In sc scm /\ syscall.Level sc = syscall.IPPROTO_IPV6 /\
       syscall.Type_ sc = syscall.IPV6_2292PKTINFO /\
       (16 <= length (syscall.Data sc))%nat /\
       d1 = firstn 16 (syscall.Data sc)).
Proof.
  induction scm as [|sc rest IH]; intros d0 t0 h0 d1 t1 H.
  - cbn in H. injection H as -> -> ->. split; left; auto.
  - rewrite scanControl_cons in H.
    destruct (Z.eqb_spec (syscall.Level sc) syscall.IPPROTO_IPV6) as [El|El];
      cbn [negb] in H.
    2:{ destruct (IH _ _ _ _ _ H) as [Ht Hd]. split.
        - destruct Ht as [Ht|(s1 & x & r & Hin & Hrest)]; [left; exact Ht|].
          right. exists s1, x, r. split; [right; exact Hin | exact Hrest].
        - destruct Hd as [Hd|(s1 & Hin & Hrest)]; [left; exact Hd|].
          right. exists s1. split; [right; exact Hin | exact Hrest]. }
    destruct (Z.eqb_spec (syscall.Type_ sc) syscall.IPV6_2292HOPLIMIT) as [Eh|Eh].
    { destruct (syscall.Data sc) as [|x r] eqn:Ed; [discriminate H|].
      destruct (IH _ _ _ _ _ H) as [Ht Hd]. split.
      - right. destruct Ht as [[_ Ht]|(s1 & x1 & r1 & Hin & Hrest)].
        + exists sc, x, r. split; [left; reflexivity|]. auto.
        + exists s1, x1, r1. split; [right; exact Hin | exact Hrest].
      - destruct Hd as [Hd|(s1 & Hin & Hrest)]; [left; exact Hd|].
        right. exists s1. split; [right; exact Hin | exact Hrest]. }
    destruct (Z.eqb_spec (syscall.Type_ sc) syscall.IPV6_2292PKTINFO) as [Ep|Ep].
    { destruct (Nat.ltb_spec (length (syscall.Data sc)) 16) as [Hlt|Hge];
        [discriminate H|].
      destruct (IH _ _ _ _ _ H) as [Ht Hd]. split.
      - destruct Ht as [Ht|(s1 & x & r & Hin & Hrest)]; [left; exact Ht|].
        right. exists s1, x, r. split; [right; exact Hin | exact Hrest].
      - right. destruct Hd as [Hd|(s1 & Hin & Hrest)].
        + exists sc. split; [left; reflexivity|]. repeat split; try assumption.
          congruence.
        + exists s1. split; [right; exact Hin | exact Hrest]. }
    destruct (IH _ _ _ _ _ H) as [Ht Hd]. split.
    + destruct Ht as [Ht|(s1 & x & r & Hin & Hrest)]; [left; exact Ht|].
      right. exists s1, x, r. split; [right; exact Hin | exact Hrest].
    + destruct Hd as [Hd|(s1 & Hin & Hrest)]; [left; exact Hd|].
      right. exists s1. split; [right; exact Hin | exact Hrest].
Qed.

Lemma readIPv6Packet_ok (m : msgIP) (p : packet) :
  readIPv6Packet (Ok m) = Ok p ->
  exists scm d t,
    msgControl m = Ok scm /\
    scanControl scm None 0 false = Ok (Some d, t, true) /\
    p = {| src := msgSource m; dst := d; ttl := t; payload := msgData m |}.
Proof.
  unfold readIPv6Packet, bind.
  destruct (msgControl m) as [scm|] eqn:Ec; [|discriminate].
  destruct (scanControl scm None 0 false) as [[[d t] h]|] eqn:Es; [|discriminate].
  destruct d as [d|], h; try discriminate.
  intros H. injection H as <-. exists scm, d, t. auto.
Qed.

(** X7.  On an IPv6 connection [receive] returns an advertisement only for
    a datagram of exactly eight bytes, from a source other than the local
    address, whose control data holds, at level IPv6, a hop-limit message
    whose first byte is 255 and a packet-info message of at least sixteen
    bytes, the first sixteen being the destination the checksum is verified
    with; the advertisement is decoded from the eight bytes. *)
Theorem receive_ipv6_accepted (c : ipHAConn) (io : sockets) (advert : Advertisement) :
  af c = syscall.AF_INET6 ->
  receive c io = Ok (Some advert) ->
  exists m scm,
    ReadMsgIP io = Ok m /\ msgControl m = Ok scm /\
    length (msgData m) = 8%nat /\
    readAdvertisement (msgData m) = Ok advert /\
    net.Equal (msgSource m) (laddr c) = false /\
    (exists sc x rest,
       In sc scm /\ syscall.Level sc = syscall.IPPROTO_IPV6 /\
       syscall.Type_ sc = syscall.IPV6_2292HOPLIMIT /\
       syscall.Data sc = x :: rest /\ byteZ x = 255) /\
    (exists sc hdr,
       In sc scm /\ syscall.Level sc = syscall.IPPROTO_IPV6 /\
       syscall.Type_ sc = syscall.IPV6_2292PKTINFO /\
       (16 <= length (syscall.Data sc))%nat /\
       pseudoHeader (msgSource m) (firstn 16 (syscall.Data sc)) = Ok hdr /\
       ipChecksum (hdr ++ msgData m) = 0).
Proof.
  intros Haf Hrecv.
  destruct (receive_accepted_inv c io advert Hrecv) as (p & Hread & Hpkt).
  rewrite (readPacket_ipv6 c io Haf) in Hread.
  destruct (ReadMsgIP io) as [m|e] eqn:Hrd; [|discriminate Hread].
  destruct (readIPv6Packet_ok m p Hread) as (scm & d & t & Hc & Hscan & Hp).
  destruct (receivePacket_accepts c p advert Hpkt)
    as (Hlen & Heq & Httl & hdr & Eh & Hck).
  pose proof (receivePacket_decodes c p advert Hpkt) as Er.
  subst p.
  rewrite packet_payload in Hlen, Er, Hck.
  rewrite packet_src in Heq, Eh. rewrite packet_dst in Eh. rewrite packet_ttl in Httl.
  destruct (scanControl_found scm _ _ _ _ _ Hscan) as [Ht Hd].
  exists m, scm. split; [reflexivity|]. split; [exact Hc|].
  split; [exact Hlen|]. split; [exact Er|]. split; [exact Heq|]. split.
  - destruct Ht as [[Hf _]|(sc & x & rest & Hin & Hl & Hty & Hda & Hx)];
      [discriminate Hf|].
    exists sc, x, rest. repeat split; try assumption. congruence.
  - destruct Hd as [Hd|(sc & Hin & Hl & Hty & Hge & Hdd)]; [discriminate Hd|].
    exists sc, hdr. subst d. repeat split; assumption.
Qed.

Lemma receive_ipv6_accepted_witness :
  exists m scm,
    ReadMsgIP (socketsReadingMsg (Ok sampleMsg6)) = Ok m /\ msgControl m = Ok scm /\
    length (msgData m) = 8%nat /\
    readAdvertisement (msgData m) = Ok (setChecksum 27933 sampleAdvert) /\
    net.Equal (msgSource m) (laddr sampleConn6) = false /\
    (exists sc x rest,
       In sc scm /\ syscall.Level sc = syscall.IPPROTO_IPV6 /\
       syscall.Type_ sc = syscall.IPV6_2292HOPLIMIT /\
       syscall.Data sc = x :: rest /\ byteZ x = 255) /\
    (exists sc hdr,
       In sc scm /\ syscall.Level sc = syscall.IPPROTO_IPV6 /\
       syscall.Type_ sc = syscall.IPV6_2292PKTINFO /\
       (16 <= length (syscall.Data sc))%nat /\
       pseudoHeader (msgSource m) (firstn 16 (syscall.Data sc)) = Ok hdr /\
       ipChecksum (hdr ++ msgData m) = 0).
Proof.
  apply (receive_ipv6_accepted sampleConn6 (socketsReadingMsg (Ok sampleMsg6))
           (setChecksum 27933 sampleAdvert)); reflexivity.
Defined.

(* ================================================================== *)
(** * The checksum: when it fails, and what it cannot tell apart        *)
(* ================================================================== *)

Lemma To4_isIP (ip x : net.IP) : net.To4 ip = Some x -> isIP ip.
Proof.
  unfold net.To4, isIP.
  destruct (Nat.eqb_spec (length ip) net.IPv4len) as [E|E]; [left; exact E|].
  destruct (Nat.eqb_spec (length ip) net.IPv6len) as [E6|E6]; [right; exact E6|].
  cbn [andb]. discriminate.
Qed.

Lemma To16_isIP (ip x : net.IP) : net.To16 ip = Some x -> isIP ip.
Proof.
  unfold net.To16, isIP.
  destruct (Nat.eqb_spec (length ip) net.IPv4len) as [E|E]; [left; exact E|].
  destruct (Nat.eqb_spec (length ip) net.IPv6len) as [E6|E6]; [right; exact E6|].
  discriminate.
Qed.

Lemma pseudoHeader_isIP (s d : net.IP) (hdr : list byte) :
  pseudoHeader s d = Ok hdr -> isIP s /\ isIP d.
Proof.
  unfold pseudoHeader.
  destruct (net.To4 s) as [s4|] eqn:Es4; destruct (net.To4 d) as [d4|] eqn:Ed4;
    try (intros _; split; eapply To4_isIP; eassumption);
    destruct (net.To16 s) as [s6|] eqn:Es6; destruct (net.To16 d) as [d6|] eqn:Ed6;
    try discriminate;
    intros _; split; eapply To16_isIP; eassumption.
Qed.

Lemma wordSum_ipv4_header (s d : net.IP) :
  wordSum (writeIPv4PseudoHeader s d)
  = wordSum (copyInto net.IPv4len s) + wordSum (copyInto net.IPv4len d)
    + wordSum ([toByte 0; toByte vrrpPort] ++ putUint16 (Z.of_nat vrrpAdvertSize)).
Proof.
  unfold writeIPv4PseudoHeader.
  rewrite !wordSum_app by (rewrite copyInto_length; reflexivity). lia.
Qed.

Lemma wordSum_ipv6_header (s d : net.IP) :
  wordSum (writeIPv6PseudoHeader s d)
  = wordSum (copyInto net.IPv6len s) + wordSum (copyInto net.IPv6len d)
    + wordSum (putUint32 (Z.of_nat vrrpAdvertSize) ++ [x00; x00; x00] ++ [toByte vrrpPort]).
Proof.
  unfold writeIPv6PseudoHeader.
  rewrite !wordSum_app by (rewrite copyInto_length; reflexivity). lia.
Qed.

(** Swapping the endpoints gives a pseudo-header of the same length with
    the same sum of words. *)
Lemma pseudoHeader_swap (s d : net.IP) (hdr : list byte) :
  pseudoHeader s d = Ok hdr ->
  exists hdr', pseudoHeader d s = Ok hdr' /\
               length hdr' = length hdr /\ wordSum hdr' = wordSum hdr.
Proof.
  unfold pseudoHeader.
  destruct (net.To4 s) as [s4|]; destruct (net.To4 d) as [d4|];
    try (intros H; injection H as <-; eexists; split; [reflexivity|];
         rewrite !writeIPv4PseudoHeader_length, !wordSum_ipv4_header;
         split; [reflexivity | lia]);
    destruct (net.To16 s) as [s6|]; destruct (net.To16 d) as [d6|];
    try discriminate;
    intros H; injection H as <-; eexists; (split; [reflexivity|]);
    rewrite !writeIPv6PseudoHeader_length, !wordSum_ipv6_header;
    (split; [reflexivity | lia]).
Qed.

(** The checksum of a slice depends on the sum of its words only. *)
Lemma ipChecksum_wordSum (b b' : list byte) :
  wordSum b < 2 ^ 32 -> wordSum b' = wordSum b -> ipChecksum b' = ipChecksum b.
Proof.
  intros Hb E.
  destruct (ipChecksum_value b Hb) as [Hv _].
  destruct (ipChecksum_value b') as [Hv' _]; [rewrite E; exact Hb|].
  rewrite Hv, Hv', E. reflexivity.
Qed.

(** X8.  [checksum] fails exactly when one of the two addresses is not 4 or
    16 bytes long.  When it succeeds the value is a 16-bit one and does not
    depend on which address is the source and which the destination: a
    packet whose two addresses were swapped verifies as well. *)
Theorem checksum_fails_or_symmetric (advert : Advertisement) (s d : net.IP) :
  ((exists e, checksum advert s d = Err e) <-> ~ (isIP s /\ isIP d)) /\
  (forall c, checksum advert s d = Ok c ->
     0 <= c <= 65535 /\ checksum advert d s = Ok c).
Proof.
  split.
  - split.
    + intros [e He] [Hs Hd].
      destruct (isIP_pseudoHeader s d Hs Hd) as [hdr Eh].
      unfold checksum, bind in He. rewrite Eh in He. discriminate He.
    + intros Hn. unfold checksum, bind.
      destruct (pseudoHeader s d) as [hdr|e] eqn:Eh; [|exists e; reflexivity].
      exfalso. apply Hn. eapply pseudoHeader_isIP. exact Eh.
  - intros c Hc. unfold checksum, bind in *.
    destruct (pseudoHeader s d) as [hdr|e] eqn:Eh; [|discriminate Hc].
    injection Hc as <-.
    destruct (pseudoHeader_shape _ _ _ Eh) as [Heven Hlen].
    destruct (pseudoHeader_swap _ _ _ Eh) as (hdr' & Eh' & Hl' & Hw').
    rewrite Eh'.
    assert (Hshort : wordSum (hdr ++ writeAdvertisement advert) < 2 ^ 32).
    { apply short_wordSum. rewrite length_app, writeAdvertisement_length. lia. }
    split; [apply (ipChecksum_value _ Hshort)|].
    f_equal. apply ipChecksum_wordSum; [exact Hshort|].
    rewrite !wordSum_app by (rewrite ?Hl'; exact Heven). lia.
Qed.

Lemma checksum_fails_or_symmetric_witness :
  0 <= 22047 <= 65535 /\ checksum sampleAdvert ipB ipA = Ok 22047.
Proof.
  destruct (checksum_fails_or_symmetric sampleAdvert ipA ipB) as [_ H].
  apply (H 22047). reflexivity.
Defined.

(* ================================================================== *)
(** * The node: the advertisements it makes                             *)
(* ================================================================== *)

Lemma quot_centiseconds (I : Z) :
  0 <= I -> Z.quot (Z.quot I time.Millisecond) 10 = I / 10000000.
Proof.
  intros HI. unfold time.Millisecond.
  rewrite (Z.quot_div_nonneg I) by lia.
  rewrite Z.quot_div_nonneg by (try apply Z.div_pos; lia).
  rewrite Z.div_div by lia. reflexivity.
Qed.

Lemma newAdvertisement_AdvertInt (n : Node) :
  0 <= MasterAdvertInterval (config n) < 655360 * time.Millisecond ->
  AdvertInt (newAdvertisement n)
  = MasterAdvertInterval (config n) / (10 * time.Millisecond).
Proof.
  intros HI. unfold newAdvertisement, AdvertInt.
  assert (H0 : 0 <= MasterAdvertInterval (config n)) by lia.
  rewrite (quot_centiseconds _ H0). unfold uint16.
  change (10 * time.Millisecond) with 10000000.
  change (655360 * time.Millisecond) with 655360000000 in HI.
  apply Z.mod_small. change (2 ^ 16) with 65536.
  split; [apply Z.div_pos; lia | apply Z.div_lt_upper_bound; lia].
Qed.

Lemma newAdvertisement_wf (n : Node) :
  0 <= nodeVRID n < 256 -> 0 <= nodePriority n < 256 ->
  wfAdvertisement (newAdvertisement n).
Proof.
  intros Hv Hp. unfold wfAdvertisement, newAdvertisement.
  unfold VersionType, VRID, Priority, CountIPAddrs, AdvertInt, Checksum.
  pose proof (Z.mod_pos_bound
                (Z.quot (Z.quot (MasterAdvertInterval (config n)) time.Millisecond) 10)
                65536 ltac:(lia)) as Hm.
  unfold uint16. change (2 ^ 16) with 65536. change (2 ^ 8) with 256.
  change vrrpVersionType with 49.
  repeat split; lia.
Qed.

Lemma newAdvertisement_in_backup (n b : Node) (k : Z) (now : time.Time) :
  0 <= k <= 6553 ->
  MasterAdvertInterval (config n) = k * (10 * time.Millisecond) ->
  acceptedInBackup b (newAdvertisement n) ->
  masterDownInterval (snd (backupHandleAdvertisement b (newAdvertisement n) now))
  = masterDownIntervalOf (nodePriority b) (MasterAdvertInterval (config n)).
Proof.
  intros Hk HI Hacc.
  assert (Ha : AdvertInt (newAdvertisement n) = k).
  { rewrite newAdvertisement_AdvertInt.
    - rewrite HI. apply Z.div_mul. discriminate.
    - rewrite HI. change (10 * time.Millisecond) with 10000000.
      change (655360 * time.Millisecond) with 655360000000. lia. }
  destruct (backupHandleAdvertisement_branches b (newAdvertisement n) now)
    as (_ & _ & _ & _ & Hlast).
  rewrite (Hlast Hacc).
  assert (Hd : int64 (time.Millisecond * uint16 (10 * AdvertInt (newAdvertisement n)))
               = MasterAdvertInterval (config n)).
  { rewrite advertInt_duration by (rewrite Ha; exact Hk). rewrite Ha, HI. reflexivity. }
  rewrite Hd.
  apply (resetMasterDownInterval_value b (MasterAdvertInterval (config n))).
Qed.

(** X9.  The advertisement a node makes carries version/type [0x31], the
    node's VRID and priority, no addresses and a zero checksum, and is
    within the field types when VRID and priority are.  For a configured
    interval from 0 up to (not including) 655.36 s its [AdvertInt] is the
    interval in whole centiseconds, so 0 below 10 ms.  When the interval is
    a whole number of centiseconds, at most 6553, a BACKUP node that accepts
    the advertisement recomputes its master-down interval from exactly the
    interval configured at the sender. *)
Theorem newAdvertisement_carries_interval (n : Node) :
  0 <= nodeVRID n < 256 -> 0 <= nodePriority n < 256 ->
  wfAdvertisement (newAdvertisement n) /\
  VersionType (newAdvertisement n) = 0x31 /\
  VRID (newAdvertisement n) = nodeVRID n /\
  Priority (newAdvertisement n) = nodePriority n /\
  CountIPAddrs (newAdvertisement n) = 0 /\
  Checksum (newAdvertisement n) = 0 /\
  (0 <= MasterAdvertInterval (config n) < 655360 * time.Millisecond ->
     AdvertInt (newAdvertisement n)
     = MasterAdvertInterval (config n) / (10 * time.Millisecond)) /\
  (forall k b now,
     0 <= k <= 6553 ->
     MasterAdvertInterval (config n) = k * (10 * time.Millisecond) ->
     acceptedInBackup b (newAdvertisement n) ->
     masterDownInterval (snd (backupHandleAdvertisement b (newAdvertisement n) now))
     = masterDownIntervalOf (nodePriority b) (MasterAdvertInterval (config n))).
Proof.
  intros Hv Hp.
  split; [apply newAdvertisement_wf; assumption|].
  split; [reflexivity|]. split; [reflexivity|]. split; [reflexivity|].
  split; [reflexivity|]. split; [reflexivity|].
  split; [apply newAdvertisement_AdvertInt|].
  intros k b now. apply newAdvertisement_in_backup.
Qed.

Lemma newAdvertisement_carries_interval_witness :
  masterDownInterval
    (snd (backupHandleAdvertisement sampleBackup (newAdvertisement sampleBackup) 4))
  = masterDownIntervalOf (nodePriority sampleBackup)
      (MasterAdvertInterval (config sampleBackup)).
Proof.
  assert (Hv : 0 <= nodeVRID sampleBackup < 256) by (change (0 <= 1 < 256); lia).
  assert (Hp : 0 <= nodePriority sampleBackup < 256)
    by (change (0 <= 100 < 256); lia).
  destruct (newAdvertisement_carries_interval sampleBackup Hv Hp)
    as (_ & _ & _ & _ & _ & _ & _ & H).
  apply (H 100 sampleBackup 4).
  - lia.
  - reflexivity.
  - split; [reflexivity|]. split; [reflexivity|]. split; [discriminate|].
    intros [Hpre _]. discriminate Hpre.
Defined.

(* ================================================================== *)
(** * The node: what every run keeps                                    *)
(* ================================================================== *)

Lemma sameNode_refl (n : Node) : sameNode n n.
Proof. unfold sameNode. auto. Qed.

Lemma sameNode_reset (n : Node) (I : time.Duration) (now : time.Time) :
  sameNode n (withLastMasterAdvertTime now (resetMasterDownInterval n I)).
Proof.
  destruct (resetMasterDownInterval_frame n I) as (Fc & Fs & _ & Fr).
  unfold sameNode, withLastMasterAdvertTime, config, haStatus, recvChannel.
  unfold config, haStatus, recvChannel in Fc, Fs, Fr.
  rewrite Fc, Fs, Fr. auto.
Qed.

Lemma backupHandleAdvertisement_same (n : Node) (a : Advertisement) (now : time.Time) :
  sameNode n (snd (backupHandleAdvertisement n a now)) /\
  (fst (backupHandleAdvertisement n a now) = seesaw.HABackup \/
   fst (backupHandleAdvertisement n a now) = seesaw.HAMaster).
Proof.
  unfold backupHandleAdvertisement.
  destruct (negb _); [split; [apply sameNode_refl | left; reflexivity]|].
  destruct (negb _); [split; [apply sameNode_refl | left; reflexivity]|].
  destruct (Z.eqb _ 0); [split; [apply sameNode_refl | right; reflexivity]|].
  destruct (_ && _); [split; [apply sameNode_refl | right; reflexivity]|].
  split; [apply sameNode_reset | left; reflexivity].
Qed.

Lemma masterHandleAdvertisement_same (n : Node) (a : Advertisement) (now : time.Time) :
  sameNode n (snd (masterHandleAdvertisement n a now)) /\
  (fst (masterHandleAdvertisement n a now) = seesaw.HABackup \/
   fst (masterHandleAdvertisement n a now) = seesaw.HAMaster).
Proof.
  unfold masterHandleAdvertisement.
  destruct (negb _); [split; [apply sameNode_refl | right; reflexivity]|].
  destruct (negb _); [split; [apply sameNode_refl | right; reflexivity]|].
  destruct (Z.eqb _ _); [split; [apply sameNode_refl | right; reflexivity]|].
  destruct (Z.gtb _ _); split;
    try apply sameNode_refl; try (left; reflexivity); try (right; reflexivity).
  unfold sameNode. cbn. auto.
Qed.

Lemma tryRecv_shorter (n : Node) (a : Advertisement) (ch : chan Advertisement) :
  tryRecv (recvChannel n) = Some (a, ch) -> sameNode n (withRecvChannel ch n).
Proof.
  unfold tryRecv. destruct (queue (recvChannel n)) as [|x rest] eqn:Eq; [discriminate|].
  intros H. injection H as _ <-.
  unfold sameNode, chanLen. cbn. rewrite Eq. cbn. auto.
Qed.

Lemma sameNode_trans (n n1 n2 : Node) : sameNode n n1 -> sameNode n1 n2 -> sameNode n n2.
Proof.
  unfold sameNode. intros (A1 & A2 & A3 & A4) (B1 & B2 & B3 & B4).
  repeat split; try congruence. lia.
Qed.

(** A task hands back the node it was given, advertisements taken from
    the queue apart, and a state among BACKUP, MASTER, SHUTDOWN and ERROR,
    ERROR only for an error taken from [errChannel]. *)
Lemma tasks_same (n : Node) (c : selectCase) (now : time.Time)
    (s : seesaw.HAState) (n1 : Node) :
  doBackupTasks n c now = Some (s, n1) \/ doMasterTasks n c now = Some (s, n1) ->
  sameNode n n1 /\
  (s = seesaw.HABackup \/ s = seesaw.HAMaster \/
   (s = seesaw.HAShutdown /\ n1 = n /\ c = CaseShutdown) \/
   (s = seesaw.HAError /\ n1 = n /\ exists e, c = CaseErr e)).
Proof.
  assert (Hb : forall n0 a,
            sameNode n n0 ->
            backupHandleAdvertisement n0 a now = (s, n1) ->
            sameNode n n1 /\
            (s = seesaw.HABackup \/ s = seesaw.HAMaster \/
             (s = seesaw.HAShutdown /\ n1 = n /\ c = CaseShutdown) \/
             (s = seesaw.HAError /\ n1 = n /\ exists e, c = CaseErr e))).
  { intros n0 a Hs E. destruct (backupHandleAdvertisement_same n0 a now) as [H1 H2].
    rewrite E in H1, H2. cbn [fst snd] in H1, H2.
    split; [eapply sameNode_trans; eassumption|]. tauto. }
  assert (Hm : forall n0 a,
            sameNode n n0 ->
            masterHandleAdvertisement n0 a now = (s, n1) ->
            sameNode n n1 /\
            (s = seesaw.HABackup \/ s = seesaw.HAMaster \/
             (s = seesaw.HAShutdown /\ n1 = n /\ c = CaseShutdown) \/
             (s = seesaw.HAError /\ n1 = n /\ exists e, c = CaseErr e))).
  { intros n0 a Hs E. destruct (masterHandleAdvertisement_same n0 a now) as [H1 H2].
    rewrite E in H1, H2. cbn [fst snd] in H1, H2.
    split; [eapply sameNode_trans; eassumption|]. tauto. }
  intros [H|H].
  - unfold doBackupTasks in H. destruct c as [| |e|].
    + destruct (tryRecv (recvChannel n)) as [[a ch]|] eqn:Et; [|discriminate H].
      injection H as H. eapply Hb; [eapply tryRecv_shorter; exact Et | exact H].
    + injection H as <- <-. split; [apply sameNode_refl|]. right. right. left. auto.
    + injection H as <- <-. split; [apply sameNode_refl|].
      right. right. right. split; [reflexivity|]. split; [reflexivity|]. eauto.
    + destruct (tryRecv (recvChannel n)) as [[a ch]|] eqn:Et.
      * injection H as H. eapply Hb; [eapply tryRecv_shorter; exact Et | exact H].
      * injection H as <- <-. split; [apply sameNode_refl | tauto].
  - unfold doMasterTasks in H. destruct c as [| |e|].
    + destruct (tryRecv (recvChannel n)) as [[a ch]|] eqn:Et; [|discriminate H].
      injection H as H. eapply Hm; [eapply tryRecv_shorter; exact Et | exact H].
    + injection H as <- <-. split; [apply sameNode_refl|]. right. right. left. auto.
    + injection H as <- <-. split; [apply sameNode_refl|].
      right. right. right. split; [reflexivity|]. split; [reflexivity|]. eauto.
    + discriminate H.
Qed.

Lemma setState_state (n : Node) (s : seesaw.HAState) (now : time.Time) :
  state (setState n s now) = s /\
  config (setState n s now) = config n /\
  recvChannel (setState n s now) = recvChannel n.
Proof.
  split; [|split; reflexivity].
  unfold state, setState, setStatus.
  destruct (seesaw.HAState_eqb (seesaw.State (haStatus n)) s) eqn:E; cbn.
  - apply HAState_eqb_eq. exact E.
  - reflexivity.
Qed.

Lemma invariant_same (cfg : NodeConfig) (n n1 : Node) :
  nodeInvariant cfg n -> sameNode n n1 -> nodeInvariant cfg n1.
Proof.
  unfold nodeInvariant, sameNode, state.
  intros (I1 & I2 & I3 & I4) (S1 & S2 & S3 & S4).
  rewrite S1, S2, S3. repeat split; try assumption. lia.
Qed.

Lemma invariant_setState (cfg : NodeConfig) (n : Node) (s : seesaw.HAState)
    (now : time.Time) :
  nodeInvariant cfg n ->
  s = seesaw.HABackup \/ s = seesaw.HAMaster \/ s = seesaw.HAShutdown ->
  nodeInvariant cfg (setState n s now).
Proof.
  unfold nodeInvariant. intros (I1 & I2 & I3 & _) Hs.
  destruct (setState_state n s now) as (E1 & E2 & E3).
  rewrite E1, E2, E3. auto.
Qed.

(** A pass of the run loop keeps the invariant.  It returns an error only
    for an error taken from [errChannel], and then leaves the node as it
    was and does nothing else; it leaves the node in SHUTDOWN only for a
    shutdown request. *)
Lemma runOnce_invariant (cfg : NodeConfig) (n : Node) (c : selectCase)
    (now now' : time.Time) (n1 : Node) (fx : list effect) (err : option error) :
  nodeInvariant cfg n ->
  state n <> seesaw.HAShutdown ->
  runOnce n c now now' = Some (n1, fx, err) ->
  nodeInvariant cfg n1 /\
  (forall e, err = Some e ->
     e = Errorf "runOnce: Can't handle transition" /\ n1 = n /\ fx = [] /\
     exists e0, c = CaseErr e0) /\
  (state n1 = seesaw.HAShutdown -> c = CaseShutdown).
Proof.
  intros Hinv Hns Hrun.
  assert (Hst : state n = seesaw.HABackup \/ state n = seesaw.HAMaster)
    by (destruct Hinv as (_ & _ & _ & [H|[H|H]]); [left | right | contradiction];
        exact H).
  assert (Hkeep : forall m, sameNode n m -> state m <> seesaw.HAShutdown).
  { intros m (_ & Hs & _). unfold state in *. rewrite Hs. exact Hns. }
  assert (Hset : forall m s, s <> seesaw.HAShutdown ->
            state (setState m s now') <> seesaw.HAShutdown).
  { intros m s Hs. destruct (setState_state m s now') as (E & _). rewrite E. exact Hs. }
  unfold runOnce in Hrun.
  destruct Hst as [Hst|Hst]; rewrite Hst in Hrun.
  - destruct (doBackupTasks n c now) as [[s m]|] eqn:Et; [|discriminate Hrun].
    destruct (tasks_same n c now s m (or_introl Et)) as [Hs Hcase].
    pose proof (invariant_same cfg n m Hinv Hs) as Hm.
    destruct Hcase as [->|[->|[(-> & -> & ->)|(-> & -> & e0 & ->)]]].
    + injection Hrun as <- <- <-.
      split; [exact Hm|]. split; [discriminate|].
      intros H. exfalso. exact (Hkeep m Hs H).
    + unfold becomeMaster in Hrun. injection Hrun as <- <- <-.
      split; [apply invariant_setState; tauto|]. split; [discriminate|].
      intros H. exfalso. apply (Hset m seesaw.HAMaster); [discriminate | exact H].
    + unfold becomeShutdown in Hrun.
      destruct (seesaw.HAState_eqb (state n) seesaw.HAMaster);
        injection Hrun as <- <- <-;
        (split; [apply invariant_setState; tauto|]; split; [discriminate | auto]).
    + injection Hrun as <- <- <-. split; [exact Hinv|]. split.
      * intros e He. injection He as <-. eauto.
      * intros H. contradiction.
  - destruct (doMasterTasks n c now) as [[s m]|] eqn:Et; [|discriminate Hrun].
    destruct (tasks_same n c now s m (or_intror Et)) as [Hs Hcase].
    pose proof (invariant_same cfg n m Hinv Hs) as Hm.
    destruct Hcase as [->|[->|[(-> & -> & ->)|(-> & -> & e0 & ->)]]].
    + unfold becomeBackup in Hrun. injection Hrun as <- <- <-.
      split; [apply invariant_setState; tauto|]. split; [discriminate|].
      intros H. exfalso. apply (Hset m seesaw.HABackup); [discriminate | exact H].
    + injection Hrun as <- <- <-.
      split; [exact Hm|]. split; [discriminate|].
      intros H. exfalso. exact (Hkeep m Hs H).
    + unfold becomeShutdown in Hrun.
      destruct (seesaw.HAState_eqb (state n) seesaw.HAMaster);
        injection Hrun as <- <- <-;
        (split; [apply invariant_setState; tauto|]; split; [discriminate | auto]).
    + injection Hrun as <- <- <-. split; [exact Hinv|]. split.
      * intros e He. injection He as <-. eauto.
      * intros H. contradiction.
Qed.

Lemma receiveAdvertisement_invariant (cfg : NodeConfig) (n : Node)
    (r : result (option Advertisement)) :
  nodeInvariant cfg n ->
  nodeInvariant cfg (fst (receiveAdvertisement n r)) /\
  state (fst (receiveAdvertisement n r)) = state n.
Proof.
  intros (I1 & I2 & I3 & I4). unfold receiveAdvertisement.
  destruct r as [[a|]|e]; cbn [fst]; try (split; [repeat split; assumption | reflexivity]).
  unfold queueAdvertisement, trySend.
  cbn [withReceiveCount recvChannel].
  destruct (Nat.ltb_spec (chanLen (recvChannel n)) (capacity (recvChannel n))) as [Hlt|Hge];
    cbn [fst]; (split; [|reflexivity]).
  - unfold nodeInvariant, state, chanLen in *. cbn. rewrite length_app. cbn.
    repeat split; try assumption. lia.
  - unfold nodeInvariant, state in *. cbn. auto.
Qed.

Lemma NewNode_invariant (cfg : NodeConfig) (now now' : time.Time) :
  nodeInvariant cfg (NewNode cfg now now') /\
  state (NewNode cfg now now') = seesaw.HABackup /\
  queue (recvChannel (NewNode cfg now now')) = [].
Proof.
  unfold NewNode.
  match goal with
  | |- context [resetMasterDownInterval ?m ?I] =>
      destruct (resetMasterDownInterval_frame m I) as (Fc & Fs & _ & Fr)
  end.
  unfold nodeInvariant, state, chanLen. rewrite Fc, Fs, Fr. cbn.
  repeat split; auto. lia.
Qed.

Lemma Run_nil (n : Node) :
  Run n [] = if seesaw.HAState_eqb (state n) seesaw.HAShutdown
             then (n, [], Returned None) else (n, [], Waiting).
Proof. cbn. destruct (seesaw.HAState_eqb _ _); reflexivity. Qed.

Lemma Run_cons (n : Node) (ev : event) (rest : list event) :
  Run n (ev :: rest)
  = if seesaw.HAState_eqb (state n) seesaw.HAShutdown then (n, [], Returned None)
    else
      match ev with
      | EvReceive r => Run (fst (receiveAdvertisement n r)) rest
      | EvPass c now now' =>
          match runOnce n c now now' with
          | None => (n, [], Waiting)
          | Some (n1, fx, Some e) => (n1, fx, Returned (Some e))
          | Some (n1, fx, None) =>
              let '(n2, fx2, r) := Run n1 rest in (n2, fx ++ fx2, r)
          end
      end.
Proof. reflexivity. Qed.

Lemma Run_invariant (cfg : NodeConfig) (trace : list event) :
  forall n, nodeInvariant cfg n ->
    nodeInvariant cfg (fst (fst (Run n trace))) /\
    runEnds n (fst (fst (Run n trace))) trace (snd (Run n trace)).
Proof.
  induction trace as [|ev rest IH]; intros n Hinv.
  - rewrite Run_nil.
    destruct (seesaw.HAState_eqb (state n) seesaw.HAShutdown) eqn:Es; cbn [fst snd runEnds].
    + apply HAState_eqb_eq in Es. auto.
    + apply HAState_eqb_neq in Es. split; [exact Hinv|].
      destruct Hinv as (_ & _ & _ & [H|[H|H]]); auto. contradiction.
  - rewrite Run_cons.
    destruct (seesaw.HAState_eqb (state n) seesaw.HAShutdown) eqn:Es.
    { apply HAState_eqb_eq in Es. cbn [fst snd runEnds]. auto. }
    apply HAState_eqb_neq in Es.
    assert (Hbm : state n = seesaw.HABackup \/ state n = seesaw.HAMaster)
      by (destruct Hinv as (_ & _ & _ & [H|[H|H]]); auto; contradiction).
    destruct ev as [r|c now now'].
    + destruct (receiveAdvertisement_invariant cfg n r Hinv) as [Hi Hs].
      destruct (IH _ Hi) as [Hi' He]. split; [exact Hi'|].
      set (res := Run (fst (receiveAdvertisement n r)) rest) in *.
      destruct (snd res) as [[e|]|]; cbn [runEnds] in *.
      * destruct He as (E1 & E2 & e0 & t1 & t2 & Hin).
        split; [exact E1|]. split; [exact E2|]. exists e0, t1, t2. right. exact Hin.
      * destruct He as (E1 & [E2|(t1 & t2 & Hin)]).
        -- rewrite Hs in E2. contradiction.
        -- split; [exact E1|]. right. exists t1, t2. right. exact Hin.
      * exact He.
    + destruct (runOnce n c now now') as [[[n1 fx] err]|] eqn:Er.
      2:{ cbn [fst snd runEnds]. auto. }
      destruct (runOnce_invariant cfg n c now now' n1 fx err Hinv Es Er)
        as (Hi & Herr & Hsd).
      destruct err as [e|].
      * cbn [fst snd runEnds]. split; [exact Hi|].
        destruct (Herr e eq_refl) as (E & -> & _ & e0 & ->).
        split; [exact E|]. split; [exact Hbm|]. exists e0, now, now'. left. reflexivity.
      * destruct (IH _ Hi) as [Hi' He].
        destruct (Run n1 rest) as [[n2 fx2] r2] eqn:E2. cbn [fst snd] in *.
        split; [exact Hi'|].
        destruct r2 as [[e|]|]; cbn [runEnds] in *.
        -- destruct He as (E1 & E3 & e0 & t1 & t2 & Hin).
           split; [exact E1|]. split; [exact E3|]. exists e0, t1, t2. right. exact Hin.
        -- destruct He as (E1 & [E3|(t1 & t2 & Hin)]).
           ++ split; [exact E1|]. right. exists now, now'. left.
              rewrite (Hsd E3). reflexivity.
           ++ split; [exact E1|]. right. exists t1, t2. right. exact Hin.
        -- exact He.
Qed.

Lemma receiveAdvertisements_invariant (cfg : NodeConfig)
    (evs : list receiverEvent) :
  forall n, nodeInvariant cfg n ->
    nodeInvariant cfg (fst (fst (receiveAdvertisements n evs))).
Proof.
  induction evs as [|[r t] rest IH]; intros n Hinv; [exact Hinv|].
  cbn [receiveAdvertisements].
  destruct (receiveAdvertisement_invariant cfg n r Hinv) as [Hi _].
  destruct r as [[a|]|e]; cbn [receiveAdvertisement] in Hi.
  - destruct (queueAdvertisement _ a) as [n1 [e|]]; cbn [fst] in Hi.
    + destruct t; [|exact Hi]. specialize (IH n1 Hi).
      destruct (receiveAdvertisements n1 rest) as [[n2 es] fin]. exact IH.
    + apply IH, Hi.
  - apply IH, Hinv.
  - destruct t; [|exact Hinv]. specialize (IH n Hinv).
    destruct (receiveAdvertisements n rest) as [[n2 es] fin]. exact IH.
Qed.

Lemma sendAdvertisements_frame (evs : list senderEvent) :
  forall n,
    config (fst (fst (sendAdvertisements n evs))) = config n /\
    haStatus (fst (fst (sendAdvertisements n evs))) = haStatus n /\
    recvChannel (fst (fst (sendAdvertisements n evs))) = recvChannel n.
Proof.
  induction evs as [|ev rest IH]; intros n; [cbn; auto|].
  cbn [sendAdvertisements]. destruct ev as [[e|] taken | s r].
  - destruct taken; [|cbn; auto].
    specialize (IH n). destruct (sendAdvertisements n rest) as [[n' acts] fin].
    exact IH.
  - specialize (IH (withSendCount (uint64 (sendCount n + 1)) n)).
    destruct (sendAdvertisements _ rest) as [[n' acts] fin]. exact IH.
  - destruct (seesaw.HAState_eqb s seesaw.HAShutdown); cbn; auto.
Qed.

(** X10.  A node made by [NewNode] satisfies, and the run loop, the
    receiver, the sender and the status reporter keep for ever: the
    configuration is the one the node was made with; the receive queue has
    capacity 20 and holds at most 20 advertisements; the state is BACKUP,
    MASTER or SHUTDOWN, so ERROR is never the state of the node. *)
Theorem node_invariant_kept (cfg : NodeConfig) :
  (forall now now', nodeInvariant cfg (NewNode cfg now now')) /\
  (forall n,
     nodeInvariant cfg n ->
     (forall trace, nodeInvariant cfg (fst (fst (Run n trace)))) /\
     (forall rs, nodeInvariant cfg (fst (fst (receiveAdvertisements n rs)))) /\
     (forall evs, nodeInvariant cfg (fst (fst (sendAdvertisements n evs)))) /\
     (forall fuel answer, nodeInvariant cfg (fst (fst (reportStatus fuel n answer))))).
Proof.
  split; [intros now now'; apply NewNode_invariant|].
  intros n Hinv. split; [|split; [|split]].
  - intros trace. apply Run_invariant, Hinv.
  - intros rs. apply receiveAdvertisements_invariant, Hinv.
  - intros evs. destruct (sendAdvertisements_frame evs n) as (Fc & Fs & Fr).
    destruct Hinv as (I1 & I2 & I3 & I4).
    unfold nodeInvariant, state. rewrite Fc, Fs, Fr. auto.
  - intros fuel [failover err]. destruct Hinv as (I1 & I2 & I3 & I4).
    unfold reportStatus, status. cbn [fst snd].
    destruct err as [e|].
    + destruct (failureLoop _ _ _ _) as [[f sl]|]; cbn [fst];
        unfold nodeInvariant, state; cbn; auto.
    + cbn [fst]. unfold nodeInvariant, state; cbn; auto.
Qed.

Lemma node_invariant_kept_witness :
  nodeInvariant sampleConfig
    (fst (fst (Run sampleBackup
                 [EvReceive (delivered sampleAdvert); EvPass CaseRecv 5 6;
                  EvPass CaseTimeout 7 8]))).
Proof.
  destruct (node_invariant_kept sampleConfig) as [Hnew Hkeep].
  destruct (Hkeep sampleBackup (Hnew 0 0)) as [Hrun _].
  apply Hrun.
Defined.

(** X11.  How [Run] ends for a node made by [NewNode].  It returns [nil]
    only with the node in SHUTDOWN and after a pass took a shutdown request.
    It returns an error only after a pass took an error from [errChannel];
    the error returned is that of [runOnce], not the one taken, and the node
    is still BACKUP or MASTER.  While it has not returned the node is BACKUP
    or MASTER. *)
Theorem Run_ends (cfg : NodeConfig) (now now' : time.Time) (trace : list event) :
  (forall n fx,
     Run (NewNode cfg now now') trace = (n, fx, Returned None) ->
     state n = seesaw.HAShutdown /\
     exists t1 t2, In (EvPass CaseShutdown t1 t2) trace) /\
  (forall n fx e,
     Run (NewNode cfg now now') trace = (n, fx, Returned (Some e)) ->
     e = Errorf "runOnce: Can't handle transition" /\
     (state n = seesaw.HABackup \/ state n = seesaw.HAMaster) /\
     exists e0 t1 t2, In (EvPass (CaseErr e0) t1 t2) trace) /\
  (forall n fx,
     Run (NewNode cfg now now') trace = (n, fx, Waiting) ->
     state n = seesaw.HABackup \/ state n = seesaw.HAMaster).
Proof.
  destruct (NewNode_invariant cfg now now') as (Hinv & Hst & _).
  destruct (Run_invariant cfg trace _ Hinv) as [_ Hend].
  split; [|split].
  - intros n fx E. rewrite E in Hend. cbn [fst snd runEnds] in Hend.
    destruct Hend as (E1 & [E2|E2]); [|auto].
    rewrite Hst in E2. discriminate E2.
  - intros n fx e E. rewrite E in Hend. exact Hend.
  - intros n fx E. rewrite E in Hend. exact Hend.
Qed.

Lemma Run_ends_witness :
  state (setState sampleBackup seesaw.HAShutdown 2) = seesaw.HAShutdown /\
  exists t1 t2, In (EvPass CaseShutdown t1 t2) [EvPass CaseShutdown 1 2].
Proof.
  destruct (Run_ends sampleConfig 0 0 [EvPass CaseShutdown 1 2]) as [H _].
  apply (H (setState sampleBackup seesaw.HAShutdown 2)
           [EngineHAState seesaw.HAShutdown]).
  reflexivity.
Defined.

(* ================================================================== *)
(** * The node: the sender and the hand-over on shutdown                *)
(* ================================================================== *)

Lemma withSendCount_same (n : Node) : withSendCount (sendCount n) n = n.
Proof. destruct n; reflexivity. Qed.

Lemma sendAdvertisements_ticks (ticks : list (option error)) (s : seesaw.HAState)
    (r : option error) (rest : list senderEvent) :
  forall n,
    0 <= sendCount n ->
    sendCount n + Z.of_nat (length ticks) < 2 ^ 64 ->
    sendAdvertisements n (map (fun t => Tick t true) ticks ++ StopSignal s r :: rest)
    = (withSendCount (sendCount n + Z.of_nat (sentOk ticks)) n,
       flat_map (tickActions n) ticks
       ++ (if seesaw.HAState_eqb s seesaw.HAShutdown
           then [SendAdvert (setPriority 0 (newAdvertisement n)) time.Second]
           else []),
       SenderReturned).
Proof.
  induction ticks as [|t ticks IH]; intros n H0 Hlt.
  - cbn [map app sendAdvertisements flat_map sentOk filter length].
    rewrite Z.add_0_r, withSendCount_same.
    destruct (seesaw.HAState_eqb s seesaw.HAShutdown); reflexivity.
  - cbn [length] in Hlt. cbn [map app sendAdvertisements].
    destruct t as [e|].
    + rewrite IH by lia. cbn [flat_map tickActions app].
      unfold sentOk. cbn [filter]. reflexivity.
    + assert (Hu : uint64 (sendCount n + 1) = sendCount n + 1)
        by (apply Z.mod_small; lia).
      rewrite Hu.
      rewrite IH by (cbn [withSendCount sendCount]; lia).
      change (tickActions (withSendCount (sendCount n + 1) n)) with (tickActions n).
      change (newAdvertisement (withSendCount (sendCount n + 1) n))
        with (newAdvertisement n).
      change (sendCount (withSendCount (sendCount n + 1) n)) with (sendCount n + 1).
      change (withSendCount ?c (withSendCount (sendCount n + 1) n))
        with (withSendCount c n).
      cbn [flat_map tickActions app]. unfold sentOk. cbn [filter length].
      replace (sendCount n + 1 + Z.of_nat (length (filter
                 (fun t => match t with None => true | Some _ => false end) ticks)))
        with (sendCount n + Z.of_nat (S (length (filter
                 (fun t => match t with None => true | Some _ => false end) ticks))))
        by lia.
      reflexivity.
Qed.

(** X12.  As long as the run loop takes its errors, the sender sends on
    every tick one advertisement made by [newAdvertisement], with the
    advertisement interval as timeout, and posts the error of a send that
    failed.  [sendCount] grows by the number of ticks whose send succeeded:
    failed sends are not counted, and neither is the last advertisement.
    On the stop signal it sends one advertisement more, of priority 0 and
    with a timeout of one second, when the new state is SHUTDOWN, and none
    otherwise; then it returns, whatever happens later. *)
Theorem sender_counts_sends (n : Node) (ticks : list (option error))
    (s : seesaw.HAState) (r : option error) (rest : list senderEvent) :
  0 <= sendCount n ->
  sendCount n + Z.of_nat (length ticks) < 2 ^ 64 ->
  exists n',
    sendAdvertisements n (map (fun t => Tick t true) ticks ++ StopSignal s r :: rest)
    = (n',
       flat_map (tickActions n) ticks
       ++ (if seesaw.HAState_eqb s seesaw.HAShutdown
           then [SendAdvert (setPriority 0 (newAdvertisement n)) time.Second]
           else []),
       SenderReturned) /\
    sendCount n' = sendCount n + Z.of_nat (sentOk ticks) /\
    n' = withSendCount (sendCount n') n.
Proof.
  intros H0 Hlt. eexists. split; [apply sendAdvertisements_ticks; assumption|].
  split; reflexivity.
Qed.

Lemma sender_counts_sends_witness :
  exists n',
    sendAdvertisements sampleBackup
      (map (fun t => Tick t true) [None; Some (OtherError "timeout"); None]
       ++ StopSignal seesaw.HAShutdown None :: [])
    = (n',
       flat_map (tickActions sampleBackup) [None; Some (OtherError "timeout"); None]
       ++ (if seesaw.HAState_eqb seesaw.HAShutdown seesaw.HAShutdown
           then [SendAdvert (setPriority 0 (newAdvertisement sampleBackup)) time.Second]
           else []),
       SenderReturned) /\
    sendCount n' = sendCount sampleBackup
                   + Z.of_nat (sentOk [None; Some (OtherError "timeout"); None]) /\
    n' = withSendCount (sendCount n') sampleBackup.
Proof.
  apply (sender_counts_sends sampleBackup [None; Some (OtherError "timeout"); None]
           seesaw.HAShutdown None []).
  - change (0 <= 0). lia.
  - change (0 + 3 < 2 ^ 64). lia.
Defined.

(** X13.  Graceful hand-over.  A MASTER that takes a shutdown request tells
    the engine, signals the sender with SHUTDOWN, sleeps 500 ms and becomes
    SHUTDOWN; the sender so signalled sends one advertisement of priority 0
    and returns; a BACKUP peer of the same VRID that handles this
    advertisement becomes MASTER at once, whatever its priority and its
    preempt setting.  A BACKUP that takes a shutdown request becomes SHUTDOWN
    without a signal to the sender. *)
Theorem shutdown_hands_over (n : Node) (now now' : time.Time) :
  (state n = seesaw.HAMaster ->
     runOnce n CaseShutdown now now'
     = Some (setState n seesaw.HAShutdown now',
             [EngineHAState seesaw.HAShutdown; StopSender seesaw.HAShutdown;
              Sleep (500 * time.Millisecond)], None) /\
     state (setState n seesaw.HAShutdown now') = seesaw.HAShutdown) /\
  (state n = seesaw.HABackup ->
     runOnce n CaseShutdown now now'
     = Some (setState n seesaw.HAShutdown now', [EngineHAState seesaw.HAShutdown], None) /\
     state (setState n seesaw.HAShutdown now') = seesaw.HAShutdown) /\
  (forall r rest,
     sendAdvertisements n (StopSignal seesaw.HAShutdown r :: rest)
     = (n, [SendAdvert (setPriority 0 (newAdvertisement n)) time.Second],
        SenderReturned)) /\
  (forall b rest tb tb',
     state b = seesaw.HABackup ->
     nodeVRID b = nodeVRID n ->
     queue (recvChannel b) = setPriority 0 (newAdvertisement n) :: rest ->
     exists b',
       runOnce b CaseRecv tb tb'
       = Some (b', [EngineHAState seesaw.HAMaster; StartSender], None) /\
       state b' = seesaw.HAMaster).
Proof.
  split; [|split; [|split]].
  - intros Hst. split; [|apply setState_state].
    unfold runOnce, doMasterTasks, becomeShutdown. rewrite Hst. reflexivity.
  - intros Hst. split; [|apply setState_state].
    unfold runOnce, doBackupTasks, becomeShutdown. rewrite Hst. reflexivity.
  - intros r rest. reflexivity.
  - intros b rest tb tb' Hst Hv Hq.
    pose proof (doBackupTasks_recv b _ rest tb Hq) as Hdo.
    destruct (backupHandleAdvertisement_branches
                (withRecvChannel {| queue := rest; capacity := capacity (recvChannel b) |} b)
                (setPriority 0 (newAdvertisement n)) tb) as (_ & _ & B3 & _).
    rewrite B3 in Hdo; [|reflexivity | exact (eq_sym Hv) | reflexivity].
    eexists. split.
    + unfold runOnce. rewrite Hst, Hdo. reflexivity.
    + apply setState_state.
Qed.

Lemma shutdown_hands_over_witness :
  runOnce sampleMaster CaseShutdown 5 6
  = Some (setState sampleMaster seesaw.HAShutdown 6,
          [EngineHAState seesaw.HAShutdown; StopSender seesaw.HAShutdown;
           Sleep (500 * time.Millisecond)], None) /\
  state (setState sampleMaster seesaw.HAShutdown 6) = seesaw.HAShutdown.
Proof.
  destruct (shutdown_hands_over sampleMaster 5 6) as [H _].
  apply H. reflexivity.
Defined.

(* ================================================================== *)
(** * The node: the status reporter and the config checker              *)
(* ================================================================== *)

(** Once the engine has failed the loop counts up to one past the maximum,
    sleeping in between, and gives up; more fuel changes nothing. *)
Lemma failureLoop_gives_up (k : nat) :
  forall extra failures maxFailures sleeps,
    0 <= failures <= Z.max maxFailures 0 -> maxFailures < maxInt64 ->
    Z.of_nat k = Z.max (maxFailures - failures) 0 ->
    failureLoop (S k + extra) failures maxFailures sleeps
    = Some (Z.max maxFailures failures + 1, (sleeps + k)%nat).
Proof.
  unfold maxInt64.
  induction k as [|k IH]; intros extra failures maxFailures sleeps H0 Hmax Hk.
  - cbn [Nat.add failureLoop].
    rewrite int64_small by (unfold maxInt64; lia).
    destruct (Z.gtb_spec (failures + 1) maxFailures) as [Hg|Hg]; [|lia].
    f_equal. f_equal; lia.
  - change (S (S k) + extra)%nat with (S (S k + extra)). cbn [failureLoop].
    rewrite int64_small by (unfold maxInt64; lia).
    destruct (Z.gtb_spec (failures + 1) maxFailures) as [Hg|Hg]; [lia|].
    rewrite IH by lia. f_equal. f_equal; lia.
Qed.

(** X14.  The engine's failures are not retried.  When [HAUpdate] fails,
    [reportStatus] does not call the engine again: with a maximum of [m]
    failures it sleeps [m] times, counts [m + 1] failures (one when [m] is
    negative), sends the fatal error and returns; [checkConfig] does the
    same when [HAConfig] fails.  When [HAUpdate] succeeds, [Shutdown] is
    called exactly when failover is asked of a MASTER.  The status reported
    has the state, the time and the transitions of the node, the send and
    receive counters and the length of the queue.  [checkConfig] sends an
    error for a configuration that differs, and goes on checking. *)
Theorem engine_failures_are_final (n : Node) (fuel : nat) :
  StatusReportMaxFailures (config n) < maxInt64 ->
  ConfigCheckMaxFailures (config n) < maxInt64 ->
  (Z.to_nat (StatusReportMaxFailures (config n)) < fuel)%nat ->
  (Z.to_nat (ConfigCheckMaxFailures (config n)) < fuel)%nat ->
  (forall failover e,
     snd (reportStatus fuel n (failover, Some e))
     = TickGaveUp (Z.max (StatusReportMaxFailures (config n)) 0 + 1)
                  (Z.to_nat (StatusReportMaxFailures (config n)))) /\
  (forall failover,
     snd (reportStatus fuel n (failover, None))
     = TickDone (failover && seesaw.HAState_eqb (state n) seesaw.HAMaster) None) /\
  (forall answer,
     snd (fst (reportStatus fuel n answer))
     = {| seesaw.State := state n;
          seesaw.Since := seesaw.Since (haStatus n);
          seesaw.Sent := sendCount n;
          seesaw.Received := receiveCount n;
          seesaw.ReceivedQueued := uint64 (Z.of_nat (chanLen (recvChannel n)));
          seesaw.Transitions := seesaw.Transitions (haStatus n) |} /\
     haStatus (fst (fst (reportStatus fuel n answer)))
     = snd (fst (reportStatus fuel n answer))) /\
  (forall equal e,
     checkConfig fuel n equal (Err e)
     = TickGaveUp (Z.max (ConfigCheckMaxFailures (config n)) 0 + 1)
                  (Z.to_nat (ConfigCheckMaxFailures (config n)))) /\
  (forall equal cfg,
     checkConfig fuel n equal (Ok cfg)
     = TickDone false
         (if equal cfg (HAConfig (config n)) then None
          else Some (Errorf "checkConfig: HAConfig has changed"))).
Proof.
  intros Hs Hc Hfs Hfc.
  assert (Hloop : forall m, m < maxInt64 -> (Z.to_nat m < fuel)%nat ->
            failureLoop fuel 0 m 0 = Some (Z.max m 0 + 1, Z.to_nat m)).
  { intros m Hm Hf.
    replace fuel with (S (Z.to_nat m) + (fuel - S (Z.to_nat m)))%nat by lia.
    rewrite (failureLoop_gives_up (Z.to_nat m)) by lia. reflexivity. }
  split; [|split; [|split; [|split]]].
  - intros failover e. unfold reportStatus, status.
    change (config (withStatus ?st n)) with (config n).
    rewrite (Hloop _ Hs Hfs). reflexivity.
  - intros failover. reflexivity.
  - intros [failover [e|]]; unfold reportStatus, status.
    + change (config (withStatus ?st n)) with (config n).
      rewrite (Hloop _ Hs Hfs). split; reflexivity.
    + split; reflexivity.
  - intros equal e. unfold checkConfig. rewrite (Hloop _ Hc Hfc). reflexivity.
  - intros equal cfg. unfold checkConfig.
    destruct (equal cfg (HAConfig (config n))); reflexivity.
Qed.

Lemma engine_failures_are_final_witness :
  snd (reportStatus 4 sampleBackup (false, Some (OtherError "engine down")))
  = TickGaveUp 4 3.
Proof.
  assert (H1 : StatusReportMaxFailures (config sampleBackup) < maxInt64)
    by (change (3 < 2 ^ 63 - 1); lia).
  assert (H2 : ConfigCheckMaxFailures (config sampleBackup) < maxInt64)
    by (change (3 < 2 ^ 63 - 1); lia).
  assert (H3 : (Z.to_nat (StatusReportMaxFailures (config sampleBackup)) < 4)%nat)
    by (change (3 < 4)%nat; lia).
  assert (H4 : (Z.to_nat (ConfigCheckMaxFailures (config sampleBackup)) < 4)%nat)
    by (change (3 < 4)%nat; lia).
  destruct (engine_failures_are_final sampleBackup 4 H1 H2 H3 H4) as [H _].
  apply (H false (OtherError "engine down")).
Defined.

(* ================================================================== *)
(** * The node: what the receiver counts and queues                     *)
(* ================================================================== *)

Lemma firstn_full (A : Type) (q l : list A) : firstn (length q) (q ++ l) = q.
Proof.
  rewrite firstn_app, Nat.sub_diag, firstn_all. cbn. apply app_nil_r.
Qed.

Lemma advertsOf_length (evs : list receiverEvent) :
  (length (advertsOf evs) <= length evs)%nat.
Proof.
  induction evs as [|[r t] evs IH]; [apply Nat.le_refl|].
  cbn [advertsOf flat_map answer]. fold (advertsOf evs).
  rewrite length_app. destruct r as [[a|]|e]; cbn [length]; lia.
Qed.

Lemma receiveAdvertisements_counts (evs : list receiverEvent) :
  forall n,
    allTaken evs ->
    (chanLen (recvChannel n) <= capacity (recvChannel n))%nat ->
    0 <= receiveCount n ->
    receiveCount n + Z.of_nat (length evs) < 2 ^ 64 ->
    snd (receiveAdvertisements n evs) = ReceiverRunning /\
    queue (recvChannel (fst (fst (receiveAdvertisements n evs))))
    = firstn (capacity (recvChannel n)) (queue (recvChannel n) ++ advertsOf evs) /\
    capacity (recvChannel (fst (fst (receiveAdvertisements n evs))))
    = capacity (recvChannel n) /\
    receiveCount (fst (fst (receiveAdvertisements n evs)))
    = receiveCount n + Z.of_nat (length (advertsOf evs)) /\
    length (snd (fst (receiveAdvertisements n evs)))
    = (failuresOf evs
       + (chanLen (recvChannel n) + length (advertsOf evs) - capacity (recvChannel n)))%nat /\
    haStatus (fst (fst (receiveAdvertisements n evs))) = haStatus n /\
    config (fst (fst (receiveAdvertisements n evs))) = config n.
Proof.
  induction evs as [|[r t] rest IH]; intros n Ht Hcap H0 Hlt.
  - cbn [receiveAdvertisements fst snd advertsOf flat_map failuresOf filter length].
    rewrite app_nil_r. unfold chanLen in *.
    rewrite firstn_all2 by exact Hcap.
    repeat split; lia.
  - cbn [length] in Hlt. cbn [receiveAdvertisements].
    unfold allTaken in Ht. cbn [forallb errTaken] in Ht.
    apply andb_true_iff in Ht. destruct Ht as [Et Ht]. subst t.
    destruct r as [[a|]|e].
    + assert (Hu : uint64 (receiveCount n + 1) = receiveCount n + 1)
        by (apply Z.mod_small; lia).
      rewrite Hu.
      destruct (Nat.lt_ge_cases (chanLen (recvChannel n)) (capacity (recvChannel n)))
        as [Hroom|Hfull].
      * rewrite queueAdvertisement_room by exact Hroom.
        cbn [withReceiveCount recvChannel].
        set (m := withRecvChannel _ _).
        assert (M1 : queue (recvChannel m) = queue (recvChannel n) ++ [a])
          by reflexivity.
        assert (M2 : capacity (recvChannel m) = capacity (recvChannel n))
          by reflexivity.
        assert (M3 : receiveCount m = receiveCount n + 1) by reflexivity.
        assert (M4 : haStatus m = haStatus n) by reflexivity.
        assert (M5 : config m = config n) by reflexivity.
        clearbody m. unfold chanLen in *.
        destruct (IH m Ht) as (Fin & Q & C & R & E & S & F).
        { rewrite M1, M2, length_app. cbn [length]. lia. }
        { rewrite M3. lia. }
        { rewrite M3. lia. }
        destruct (receiveAdvertisements m rest) as [[n2 es] fin]. cbn [fst snd] in *.
        rewrite M1, M2 in Q. rewrite M2 in C. rewrite M3 in R.
        rewrite M1, M2, length_app in E. cbn [length] in E.
        rewrite M4 in S. rewrite M5 in F.
        cbn [advertsOf flat_map app failuresOf filter length answer].
        fold (advertsOf rest). fold (failuresOf rest).
        rewrite Q, C, R, E, S, F, <- app_assoc. cbn [app].
        repeat split; try lia. exact Fin.
      * assert (Heq : chanLen (recvChannel n) = capacity (recvChannel n)) by lia.
        rewrite queueAdvertisement_full by exact Heq.
        set (m := withReceiveCount (receiveCount n + 1) n).
        assert (M1 : recvChannel m = recvChannel n) by reflexivity.
        assert (M3 : receiveCount m = receiveCount n + 1) by reflexivity.
        assert (M4 : haStatus m = haStatus n) by reflexivity.
        assert (M5 : config m = config n) by reflexivity.
        clearbody m. unfold chanLen in *.
        destruct (IH m Ht) as (Fin & Q & C & R & E & S & F).
        { rewrite M1. exact Hcap. }
        { rewrite M3. lia. }
        { rewrite M3. lia. }
        destruct (receiveAdvertisements m rest) as [[n2 es] fin]. cbn [fst snd] in *.
        rewrite M1 in Q, C, E. rewrite M3 in R. rewrite M4 in S. rewrite M5 in F.
        cbn [advertsOf flat_map app failuresOf filter length answer].
        fold (advertsOf rest). fold (failuresOf rest).
        rewrite Q, C, R, E, S, F. rewrite <- Heq.
        rewrite !firstn_full.
        repeat split; try lia. exact Fin.
    + destruct (IH n Ht Hcap H0 ltac:(lia)) as (Fin & Q & C & R & E & S & F).
      destruct (receiveAdvertisements n rest) as [[n2 es] fin]. cbn [fst snd] in *.
      cbn [advertsOf flat_map app failuresOf filter answer].
      fold (advertsOf rest). fold (failuresOf rest).
      repeat split; assumption.
    + destruct (IH n Ht Hcap H0 ltac:(lia)) as (Fin & Q & C & R & E & S & F).
      destruct (receiveAdvertisements n rest) as [[n2 es] fin]. cbn [fst snd] in *.
      cbn [advertsOf flat_map app failuresOf filter length answer].
      fold (advertsOf rest). fold (failuresOf rest).
      repeat split; try assumption. lia.
Qed.

(** X15.  What the receiver counts and queues, nothing being taken from the
    queue meanwhile.  As long as the run loop takes every error the receiver
    offers, the receiver keeps running: the queue ends as the advertisements
    it held followed by those received, in the order they came, cut at the
    capacity; the receive counter grows by the number of advertisements
    received, those that found the queue full included; the errors sent are
    one per failed [Receive] and one per advertisement that did not fit; the
    status record and the configuration are not touched.  The first error
    that is not taken ends this: after a failed [Receive] the process exits,
    the error is not sent and nothing later is received or counted; an
    advertisement that finds the queue full is counted and not queued, and
    the receiver stays in the send of "recvChannel is full", so that nothing
    later is received or counted either. *)
Theorem receiver_counts_and_queues (n : Node) (evs : list receiverEvent) :
  (chanLen (recvChannel n) <= capacity (recvChannel n))%nat ->
  0 <= receiveCount n ->
  receiveCount n + Z.of_nat (length evs) < 2 ^ 64 ->
  (allTaken evs ->
     snd (receiveAdvertisements n evs) = ReceiverRunning /\
     queue (recvChannel (fst (fst (receiveAdvertisements n evs))))
     = firstn (capacity (recvChannel n)) (queue (recvChannel n) ++ advertsOf evs) /\
     capacity (recvChannel (fst (fst (receiveAdvertisements n evs))))
     = capacity (recvChannel n) /\
     receiveCount (fst (fst (receiveAdvertisements n evs)))
     = receiveCount n + Z.of_nat (length (advertsOf evs)) /\
     length (snd (fst (receiveAdvertisements n evs)))
     = (failuresOf evs
        + (chanLen (recvChannel n) + length (advertsOf evs)
           - capacity (recvChannel n)))%nat /\
     haStatus (fst (fst (receiveAdvertisements n evs))) = haStatus n /\
     config (fst (fst (receiveAdvertisements n evs))) = config n) /\
  (forall pre e post,
     evs = pre ++ Answer (Err e) false :: post -> allTaken pre ->
     receiveAdvertisements n evs
     = (fst (fst (receiveAdvertisements n pre)),
        snd (fst (receiveAdvertisements n pre)), ReceiverExited)) /\
  (forall pre a post,
     evs = pre ++ Answer (Ok (Some a)) false :: post -> allTaken pre ->
     (capacity (recvChannel n)
      <= chanLen (recvChannel n) + length (advertsOf pre))%nat ->
     receiveAdvertisements n evs
     = (withReceiveCount
          (receiveCount n + Z.of_nat (length (advertsOf pre)) + 1)
          (fst (fst (receiveAdvertisements n pre))),
        snd (fst (receiveAdvertisements n pre)),
        ReceiverBlocked errRecvChannelFull)).
Proof.
  intros Hcap H0 Hlt. split; [|split].
  - intros Ht. apply receiveAdvertisements_counts; assumption.
  - intros pre e post -> Ht.
    rewrite length_app in Hlt. cbn [length] in Hlt.
    destruct (receiveAdvertisements_counts pre n Ht Hcap H0 ltac:(lia))
      as (Fin & _).
    rewrite receiveAdvertisements_app.
    destruct (receiveAdvertisements n pre) as [[n1 e1] fin].
    cbn [fst snd] in *. subst fin. cbn [receiveAdvertisements].
    rewrite app_nil_r. reflexivity.
  - intros pre a post -> Ht Hfull.
    rewrite length_app in Hlt. cbn [length] in Hlt.
    destruct (receiveAdvertisements_counts pre n Ht Hcap H0 ltac:(lia))
      as (Fin & Q & C & R & _).
    rewrite receiveAdvertisements_app.
    destruct (receiveAdvertisements n pre) as [[n1 e1] fin].
    cbn [fst snd] in *. subst fin. cbn [receiveAdvertisements].
    assert (Hu : uint64 (receiveCount n1 + 1) = receiveCount n1 + 1).
    { apply Z.mod_small. rewrite R.
      pose proof (advertsOf_length pre). lia. }
    rewrite Hu, queueAdvertisement_full.
    + rewrite app_nil_r, R. reflexivity.
    + cbn [withReceiveCount recvChannel]. unfold chanLen in *.
      rewrite Q, C, length_firstn, length_app. lia.
Qed.

Lemma receiver_counts_and_queues_witness :
  receiveAdvertisements sampleBackup
    (Answer (Err (OtherError "read failed")) true
     :: map (fun a => Answer (delivered a) true) (repeat sampleAdvert 21)
     ++ Answer (Ok (Some sampleAdvert)) false
     :: [Answer (Ok (Some sampleAdvert)) true])
  = (withReceiveCount 22
       (fst (fst (receiveAdvertisements sampleBackup
                    (Answer (Err (OtherError "read failed")) true
                     :: map (fun a => Answer (delivered a) true)
                          (repeat sampleAdvert 21))))),
     snd (fst (receiveAdvertisements sampleBackup
                 (Answer (Err (OtherError "read failed")) true
                  :: map (fun a => Answer (delivered a) true)
                       (repeat sampleAdvert 21)))),
     ReceiverBlocked errRecvChannelFull).
Proof.
  destruct (receiver_counts_and_queues sampleBackup
              (Answer (Err (OtherError "read failed")) true
               :: map (fun a => Answer (delivered a) true) (repeat sampleAdvert 21)
               ++ Answer (Ok (Some sampleAdvert)) false
               :: [Answer (Ok (Some sampleAdvert)) true]))
    as (_ & _ & H).
  - apply Nat.leb_le. reflexivity.
  - apply Z.leb_le. reflexivity.
  - apply Z.ltb_lt. reflexivity.
  - apply (H (Answer (Err (OtherError "read failed")) true
              :: map (fun a => Answer (delivered a) true) (repeat sampleAdvert 21))
             sampleAdvert [Answer (Ok (Some sampleAdvert)) true]).
    + reflexivity.
    + reflexivity.
    + apply Nat.leb_le. reflexivity.
Defined.

(* ================================================================== *)
(** * The node: the master-down timer                                   *)
(* ================================================================== *)

(** X16.  The master-down timer of a BACKUP node.  When it expires with
    the queue empty the node becomes MASTER: the engine is told, the sender
    is started, [Since] is the time of the transition and [Transitions] is
    one more (below the [uint64] maximum).  When it expires with an
    advertisement queued the pass is the one that handles that
    advertisement, so an advertisement that came in time is never lost to
    the timer.  A node just made by [NewNode], with nothing received,
    becomes MASTER on its first expiry, with [Transitions] 2. *)
Theorem backup_timer_expiry (n : Node) (now now' : time.Time) :
  state n = seesaw.HABackup ->
  (queue (recvChannel n) = [] ->
     runOnce n CaseTimeout now now'
     = Some (setState n seesaw.HAMaster now',
             [EngineHAState seesaw.HAMaster; StartSender], None) /\
     state (setState n seesaw.HAMaster now') = seesaw.HAMaster /\
     seesaw.Since (haStatus (setState n seesaw.HAMaster now')) = now' /\
     (0 <= seesaw.Transitions (haStatus n) < 2 ^ 64 - 1 ->
        seesaw.Transitions (haStatus (setState n seesaw.HAMaster now'))
        = seesaw.Transitions (haStatus n) + 1)) /\
  (queue (recvChannel n) <> [] ->
     runOnce n CaseTimeout now now' = runOnce n CaseRecv now now') /\
  (forall cfg t t',
     n = NewNode cfg t t' ->
     exists m,
       runOnce n CaseTimeout now now'
       = Some (m, [EngineHAState seesaw.HAMaster; StartSender], None) /\
       state m = seesaw.HAMaster /\
       seesaw.Transitions (haStatus m) = 2).
Proof.
  intros Hst.
  assert (Hempty : queue (recvChannel n) = [] ->
            runOnce n CaseTimeout now now'
            = Some (setState n seesaw.HAMaster now',
                    [EngineHAState seesaw.HAMaster; StartSender], None)).
  { intros Hq. unfold runOnce, doBackupTasks, tryRecv. rewrite Hst, Hq. reflexivity. }
  assert (Hne : state n <> seesaw.HAMaster) by (rewrite Hst; discriminate).
  destruct (setState_changed n seesaw.HAMaster now' Hne) as (Es & Et & Ec).
  split; [|split].
  - intros Hq. split; [exact (Hempty Hq)|]. split; [exact Es|]. split; [exact Et|].
    intros Hr. rewrite Ec. apply Z.mod_small. lia.
  - intros Hq. unfold runOnce, doBackupTasks, tryRecv. rewrite Hst.
    destruct (queue (recvChannel n)); [contradiction | reflexivity].
  - intros cfg t t' En.
    destruct (NewNode_invariant cfg t t') as (_ & _ & Hq). rewrite <- En in Hq.
    exists (setState n seesaw.HAMaster now'). split; [exact (Hempty Hq)|].
    split; [exact Es|]. rewrite Ec.
    assert (Ht : seesaw.Transitions (haStatus n) = 1).
    { rewrite En. unfold NewNode.
      match goal with
      | |- context [resetMasterDownInterval ?m ?I] =>
          destruct (resetMasterDownInterval_frame m I) as (_ & Fs & _ & _)
      end.
      rewrite Fs. reflexivity. }
    rewrite Ht. reflexivity.
Qed.

Lemma backup_timer_expiry_witness :
  exists m,
    runOnce sampleBackup CaseTimeout 5 6
    = Some (m, [EngineHAState seesaw.HAMaster; StartSender], None) /\
    state m = seesaw.HAMaster /\
    seesaw.Transitions (haStatus m) = 2.
Proof.
  destruct (backup_timer_expiry sampleBackup 5 6 eq_refl) as (_ & _ & H).
  apply (H sampleConfig 0 0). reflexivity.
Defined.

(* ================================================================== *)
(** * Socket set-up                                                     *)
(* ================================================================== *)

Lemma untilFailure_cons (w : os) (c : call) (cs : list call) :
  untilFailure w (c :: cs)
  = match w c with
    | Some _ => ([c], false)
    | None => (c :: fst (untilFailure w cs), snd (untilFailure w cs))
    end.
Proof.
  cbn [untilFailure]. destruct (w c); [reflexivity|].
  destruct (untilFailure w cs); reflexivity.
Qed.

(** X17.  [ipConn] makes the calls the specification plans for the family
    of the local address and the kind of the remote address, in order, and
    stops at the first that fails; the file it opened is closed however it
    ends; it returns the connection exactly when every call succeeded, and
    fails (it never panics) otherwise. *)
Theorem ipConn_follows_plan (w : os) (conn : nat) (localAddr remoteAddr : net.IP) :
  let plan := untilFailure w (plannedCalls conn localAddr remoteAddr) in
  fst (ipConn w conn localAddr remoteAddr)
  = fst plan ++ (if fileOpened w conn localAddr then [CloseFile conn] else []) /\
  (snd plan = true -> snd (ipConn w conn localAddr remoteAddr) = Returns conn) /\
  (snd plan = false -> exists e, snd (ipConn w conn localAddr remoteAddr) = Fails e).
Proof.
  unfold ipConn, plannedCalls, optionPolicy, isIPv4, fileOpened, setsockopt,
    doCall, deferClose, andThen, ret.
  destruct (net.To4 localAddr), (net.IsMulticast remoteAddr);
    cbn [map fst snd]; rewrite !untilFailure_cons;
    repeat match goal with
           | |- context [w ?c] => destruct (w c); cbn [fst snd app]
           end;
    (split; [reflexivity|]); (split; [intros H|intros H]);
    try discriminate H; try reflexivity; eexists; reflexivity.
Qed.

Lemma ipConn_follows_plan_witness :
  fst (ipConn allSucceed 0 ip6A ip6B)
  = [ListenIP 0 "ip:112" ip6A; ConnFile 0;
     SetsockoptInt 0 syscall.IPPROTO_IPV6 syscall.IPV6_UNICAST_HOPS 255;
     SetsockoptInt 0 syscall.IPPROTO_IPV6 syscall.IPV6_2292HOPLIMIT 1;
     SetsockoptInt 0 syscall.IPPROTO_IPV6 syscall.IPV6_2292PKTINFO 1;
     CloseFile 0] /\
  snd (ipConn allSucceed 0 ip6A ip6B) = Returns 0%nat.
Proof.
  destruct (ipConn_follows_plan allSucceed 0 ip6A ip6B) as (H1 & H2 & _).
  split; [exact H1|]. apply H2. reflexivity.
Defined.

Lemma existsb_Equal_false (laddr : net.IP) (addrs : list net.IP) :
  existsb (fun ip => net.Equal laddr ip) addrs = false <->
  (forall ip, In ip addrs -> net.Equal laddr ip = false).
Proof.
  induction addrs as [|a addrs IH]; cbn [existsb In].
  - split; [intros _ ip []|reflexivity].
  - rewrite orb_false_iff, IH. split.
    + intros [Ha H] ip [<-|Hin]; auto.
    + intros H. split; [apply H; left; reflexivity|].
      intros ip Hin. apply H. right. exact Hin.
Qed.

Lemma findInterfaceIn_found (ifaces : list Interface) (laddr : net.IP)
    (iface : Interface) :
  findInterfaceIn ifaces laddr = Ok iface <->
  exists pre post,
    ifaces = pre ++ iface :: post /\
    Forall (passedOver laddr) pre /\ carries laddr iface.
Proof.
  induction ifaces as [|i ifaces IH]; cbn [findInterfaceIn].
  - split; [discriminate|]. intros (pre & post & E & _).
    destruct pre; discriminate E.
  - destruct (Addrs i) as [addrs|e] eqn:EA.
    + destruct (existsb (fun ip => net.Equal laddr ip) addrs) eqn:EX.
      * split.
        -- intros H. injection H as <-. exists [], ifaces.
           split; [reflexivity|]. split; [constructor|].
           apply existsb_exists in EX. destruct EX as (ip & Hin & Heq).
           exists addrs, ip. auto.
        -- intros (pre & post & E & Hpre & Hc).
           destruct pre as [|p pre]; cbn [app] in E.
           ++ injection E as -> _. reflexivity.
           ++ injection E as -> _. inversion Hpre as [|? ? (a & Ha & Hno) _]; subst.
              rewrite EA in Ha. injection Ha as <-.
              apply existsb_Equal_false in Hno. congruence.
      * rewrite IH. split.
        -- intros (pre & post & -> & Hpre & Hc). exists (i :: pre), post.
           split; [reflexivity|]. split; [|exact Hc].
           constructor; [|exact Hpre]. exists addrs. split; [exact EA|].
           apply existsb_Equal_false. exact EX.
        -- intros (pre & post & E & Hpre & Hc).
           destruct pre as [|p pre]; cbn [app] in E.
           ++ injection E as -> _. destruct Hc as (a & ip & Ha & Hin & Heq).
              rewrite EA in Ha. injection Ha as <-.
              rewrite (proj1 (existsb_Equal_false laddr addrs) EX ip Hin) in Heq.
              discriminate Heq.
           ++ injection E as -> ->. inversion Hpre; subst.
              exists pre, post. auto.
    + split; [discriminate|]. intros (pre & post & E & Hpre & Hc).
      destruct pre as [|p pre]; cbn [app] in E.
      * injection E as -> _. destruct Hc as (a & ip & Ha & _). congruence.
      * injection E as -> _. inversion Hpre as [|? ? (a & Ha & _) _]; subst.
        congruence.
Qed.

Lemma findInterfaceIn_none (ifaces : list Interface) (laddr : net.IP) :
  Forall (passedOver laddr) ifaces ->
  findInterfaceIn ifaces laddr = Err (Errorf "ha.findInterface: No interface found").
Proof.
  induction 1 as [|i ifaces (a & Ha & Hno) _ IH]; cbn [findInterfaceIn].
  - reflexivity.
  - rewrite Ha. apply existsb_Equal_false in Hno. rewrite Hno. exact IH.
Qed.

Lemma findInterfaceIn_unreadable (pre post : list Interface) (laddr : net.IP)
    (i : Interface) (e : error) :
  Forall (passedOver laddr) pre -> Addrs i = Err e ->
  findInterfaceIn (pre ++ i :: post) laddr = Err e.
Proof.
  induction 1 as [|p pre (a & Ha & Hno) _ IH]; intros He; cbn [app findInterfaceIn].
  - rewrite He. reflexivity.
  - rewrite Ha. apply existsb_Equal_false in Hno. rewrite Hno. auto.
Qed.

(** X18.  [findInterface] returns the first interface that carries the
    local address: it returns [iface] exactly when [iface] is in the list,
    carries the address, and the addresses of every interface before it
    could be read and hold no equal address.  When no interface carries the
    address it fails with its own error; an interface whose addresses cannot
    be read ends the search with that error, also when a later interface
    carries the address; and the error of [net.Interfaces] is passed on. *)
Theorem findInterface_first_match (laddr : net.IP) :
  (forall ifaces iface,
     findInterface (Ok ifaces) laddr = Ok iface <->
     exists pre post,
       ifaces = pre ++ iface :: post /\
       Forall (passedOver laddr) pre /\ carries laddr iface) /\
  (forall ifaces,
     Forall (passedOver laddr) ifaces ->
     findInterface (Ok ifaces) laddr
     = Err (Errorf "ha.findInterface: No interface found")) /\
  (forall pre i post e,
     Forall (passedOver laddr) pre -> Addrs i = Err e ->
     findInterface (Ok (pre ++ i :: post)) laddr = Err e) /\
  (forall e, findInterface (Err e) laddr = Err e).
Proof.
  split; [|split; [|split]].
  - intros ifaces iface. apply findInterfaceIn_found.
  - intros ifaces H. apply findInterfaceIn_none. exact H.
  - intros pre i post e Hpre He. apply findInterfaceIn_unreadable; assumption.
  - reflexivity.
Qed.

Lemma findInterface_first_match_witness :
  findInterface (Ok sampleInterfaces) ipA
  = Ok {| Index := 2; Addrs := Ok [net.v4InV6Prefix ++ ipA; ip6A] |}.
Proof.
  apply (proj1 (findInterface_first_match ipA)).
  exists [ {| Index := 1; Addrs := Ok [[x7f; x00; x00; x01]] |} ], [].
  split; [reflexivity|]. split.
  - constructor; [|constructor]. exists [[x7f; x00; x00; x01]].
    split; [reflexivity|]. intros ip [<-|[]]. reflexivity.
  - exists [net.v4InV6Prefix ++ ipA; ip6A], (net.v4InV6Prefix ++ ipA).
    split; [reflexivity|]. split; [left; reflexivity|reflexivity].
Defined.

Lemma To4_length (ip x : net.IP) : net.To4 ip = Some x -> length x = 4%nat.
Proof.
  unfold net.To4.
  destruct (Nat.eqb_spec (length ip) net.IPv4len) as [E|E].
  - intros H. injection H as H. subst x. exact E.
  - destruct (Nat.eqb_spec (length ip) net.IPv6len) as [E6|E6];
      cbn [andb]; [|discriminate].
    destruct (_ && _ && _)%bool; [|discriminate].
    intros H. assert (X : x = skipn 12 ip) by congruence.
    rewrite X, length_skipn, E6. reflexivity.
Qed.

Lemma firstn_whole {A : Type} (n : nat) (l : list A) :
  length l = n -> firstn n l = l.
Proof. intros <-. apply firstn_all. Qed.

Lemma multicast6_whole (ip : net.IP) :
  net.IsMulticast ip = true -> net.To4 ip = None ->
  copyInto 16 (match net.To16 ip with Some g => g | None => [] end) = ip.
Proof.
  unfold net.IsMulticast. intros H E. rewrite E in H.
  apply andb_true_iff in H. destruct H as [H _].
  apply Nat.eqb_eq in H. unfold net.To16.
  destruct (Nat.eqb_spec (length ip) net.IPv4len) as [E4|E4];
    [rewrite H in E4; discriminate E4|].
  rewrite H, Nat.eqb_refl. unfold copyInto.
  rewrite H. change (net.IPv6len) with 16%nat.
  rewrite (firstn_whole 16 ip H). cbn [Nat.sub repeat]. apply app_nil_r.
Qed.

Lemma ipConn_succeeds (w : os) (conn : nat) (localAddr remoteAddr : net.IP) :
  (forall c, In c (plannedCalls conn localAddr remoteAddr) -> w c = None) ->
  ipConn w conn localAddr remoteAddr
  = (plannedCalls conn localAddr remoteAddr ++ [CloseFile conn], Returns conn).
Proof.
  unfold ipConn, plannedCalls, optionPolicy, isIPv4, setsockopt,
    doCall, deferClose, andThen, ret.
  destruct (net.To4 localAddr), (net.IsMulticast remoteAddr);
    cbn [map fst snd]; intros H;
    repeat match goal with
           | |- context [w ?c] =>
               rewrite (H c) by (cbn [In]; tauto)
           end;
    reflexivity.
Qed.

(** X19.  The sockets of [newIPHAConn] when the operating system refuses
    nothing.  The send socket is opened and set up as [ipConn] plans.  For
    a unicast peer nothing more is done and the one socket also receives.
    For an IPv4 group (local address IPv4) a second socket is bound to the
    group, joins it on the interface of the local address, and receives.
    For an IPv6 group the send socket itself joins the group, on the index
    of the interface [findInterface] gives, and also receives; when no
    interface is found the error is returned after the send socket was set
    up.  Every file that was opened is closed. *)
Theorem newIPHAConn_sockets (w : os) (interfaces : result (list Interface))
    (laddr raddr : net.IP) :
  (forall c, w c = None) ->
  let opened := plannedCalls 0 laddr raddr ++ [CloseFile 0%nat] in
  let c := {| laddr := laddr; raddr := raddr |} in
  (net.IsMulticast raddr = false ->
     newIPHAConn w interfaces laddr raddr
     = (opened, Returns {| sendConn := 0; recvConn := 0; haConn := c |})) /\
  (forall g l,
     net.IsMulticast raddr = true ->
     net.To4 raddr = Some g -> net.To4 laddr = Some l ->
     newIPHAConn w interfaces laddr raddr
     = (opened ++ [ListenIP 1 "ip4:112" g; ConnFile 1;
                   SetsockoptIPMreq 1 syscall.IPPROTO_IP
                     syscall.IP_ADD_MEMBERSHIP g l;
                   CloseFile 1],
        Returns {| sendConn := 0; recvConn := 1; haConn := c |})) /\
  (forall iface,
     net.IsMulticast raddr = true -> net.To4 raddr = None ->
     findInterface interfaces laddr = Ok iface ->
     newIPHAConn w interfaces laddr raddr
     = (opened ++ [ConnFile 0;
                   SetsockoptIPv6Mreq 0 syscall.IPPROTO_IPV6
                     syscall.IPV6_JOIN_GROUP raddr (uint32 (Index iface));
                   CloseFile 0],
        Returns {| sendConn := 0; recvConn := 0; haConn := c |})) /\
  (forall e,
     net.IsMulticast raddr = true -> net.To4 raddr = None ->
     findInterface interfaces laddr = Err e ->
     newIPHAConn w interfaces laddr raddr
     = (opened ++ [ConnFile 0%nat; CloseFile 0%nat], Fails e)).
Proof.
  intros Hw opened c. subst opened c. unfold newIPHAConn.
  rewrite (ipConn_succeeds w 0 laddr raddr (fun c _ => Hw c)).
  split; [|split; [|split]].
  - intros M. rewrite M. unfold andThen, ret. rewrite !app_nil_r. reflexivity.
  - intros g l M Eg El. rewrite M, Eg. unfold listenMulticastIPv4.
    rewrite Eg, El, (To4_length _ _ Eg), (To4_length _ _ El).
    rewrite (firstn_whole 4 g (To4_length _ _ Eg)),
      (firstn_whole 4 l (To4_length _ _ El)).
    unfold doCall, deferClose, andThen, ret. rewrite !Hw.
    cbn [Nat.ltb Nat.leb orb app]. reflexivity.
  - intros iface M E F. rewrite M, E. unfold joinMulticastIPv6.
    rewrite F, (multicast6_whole raddr M E).
    unfold doCall, deferClose, andThen, ret. rewrite !Hw.
    cbn [app]. reflexivity.
  - intros e M E F. rewrite M, E. unfold joinMulticastIPv6.
    rewrite F. unfold doCall, deferClose, andThen, ret. rewrite !Hw.
    cbn [app]. reflexivity.
Qed.

Lemma newIPHAConn_sockets_witness :
  newIPHAConn allSucceed (Ok sampleInterfaces) ipA group4
  = ([ListenIP 0 "ip:112" ipA; ConnFile 0;
      SetsockoptInt 0 syscall.IPPROTO_IP syscall.IP_MULTICAST_TTL 255;
      SetsockoptInt 0 syscall.IPPROTO_IP syscall.IP_MULTICAST_LOOP 0;
      CloseFile 0;
      ListenIP 1 "ip4:112" group4; ConnFile 1;
      SetsockoptIPMreq 1 syscall.IPPROTO_IP syscall.IP_ADD_MEMBERSHIP group4 ipA;
      CloseFile 1],
     Returns {| sendConn := 0; recvConn := 1;
                haConn := {| laddr := ipA; raddr := group4 |} |}).
Proof.
  exact (proj1 (proj2 (newIPHAConn_sockets allSucceed (Ok sampleInterfaces)
                         ipA group4 (fun _ => eq_refl)))
           group4 ipA eq_refl eq_refl eq_refl).
Defined.

(** X20.  A peer that is an IPv4 multicast group with a local address that
    is not IPv4: [newIPHAConn] never returns a connection, and when the
    operating system refuses nothing it panics, in [listenMulticastIPv4],
    after the send socket was set up and the second socket was opened
    (its file is closed by the deferred call), before any group is joined. *)
Theorem newIPHAConn_mixed_families (w : os) (interfaces : result (list Interface))
    (laddr raddr g : net.IP) :
  net.IsMulticast raddr = true ->
  net.To4 raddr = Some g ->
  net.To4 laddr = None ->
  (forall c, snd (newIPHAConn w interfaces laddr raddr) <> Returns c) /\
  ((forall c, w c = None) ->
     newIPHAConn w interfaces laddr raddr
     = (plannedCalls 0 laddr raddr
        ++ [CloseFile 0%nat; ListenIP 1 "ip4:112" g; ConnFile 1; CloseFile 1],
        Panics)).
Proof.
  intros M Eg El. split.
  - intros c. unfold newIPHAConn. rewrite M, Eg.
    destruct (ipConn w 0 laddr raddr) as [cs [s|e|]];
      cbn [andThen]; [|discriminate|discriminate].
    unfold listenMulticastIPv4. rewrite Eg, El.
    unfold doCall, deferClose, andThen, ret.
    rewrite (To4_length _ _ Eg). cbn [length Nat.ltb Nat.leb orb].
    destruct (w (ListenIP 1 "ip4:112" g)); [discriminate|].
    destruct (w (ConnFile 1)); discriminate.
  - intros Hw. unfold newIPHAConn.
    rewrite (ipConn_succeeds w 0 laddr raddr (fun c _ => Hw c)).
    rewrite M, Eg. unfold listenMulticastIPv4. rewrite Eg, El.
    unfold doCall, deferClose, andThen, ret. rewrite !Hw.
    rewrite (To4_length _ _ Eg). cbn [length Nat.ltb Nat.leb orb app].
    rewrite <- app_assoc. reflexivity.
Qed.

Lemma newIPHAConn_mixed_families_witness :
  snd (newIPHAConn allSucceed (Ok sampleInterfaces) ip6A group4) = Panics.
Proof.
  rewrite (proj2 (newIPHAConn_mixed_families allSucceed (Ok sampleInterfaces)
                    ip6A group4 group4 eq_refl eq_refl eq_refl)
             (fun _ => eq_refl)).
  reflexivity.
Defined.
